(** * XLChek / sheetguard: formula-to-graph analysis engine

    A shallow embedding of the analysis core of the [sheetguard] package
    (reference tokenizer, dependency graph builder, cycle and impact
    detectors, hardcoded-constant and drift detectors, risk tiering) and the
    properties established about it.

    Conventions of the embedding:
    - Python [str] values are Rocq [string]s; the scanners work on the
      underlying [list ascii].  Characters are 7-bit ASCII: a byte above 127
      is neither a letter, a digit, a word character nor white space.
    - Python's [re] module is modelled by a small backtracking matcher with
      the priorities of [re] (ordered alternation, greedy quantifiers,
      leftmost match); every pattern of the source is transcribed as a value
      of type [regex].
    - A Python [dict] whose iteration order is observable (networkx adjacency,
      [Counter], [defaultdict], configuration trees) is an association list in
      insertion order.
    - Python exceptions are values of type [exn]; a call that may raise
      returns a [py] outcome. *)

From Stdlib Require Import List String Ascii Bool Arith ZArith QArith Qabs Lia.
From Stdlib Require Import Numbers.DecimalString.
From Stdlib Require Import Sorting.Sorted Sorting.Permutation.
Import ListNotations.

Local Open Scope string_scope.
Local Open Scope list_scope.
Local Open Scope nat_scope.

(** ** Python values shared by the modules *)

Module Py.

(** An exception instance: the name of its class and its message. *)
Record exn : Type := Exn { exn_type : string; exn_msg : string }.

(** Outcome of a call that either returns or raises. *)
Inductive py (A : Type) : Type :=
| Ret (a : A)
| Raise (e : exn).
Arguments Ret {A} a.
Arguments Raise {A} e.

Definition bind {A B : Type} (m : py A) (f : A -> py B) : py B :=
  match m with
  | Ret a => f a
  | Raise e => Raise e
  end.

Definition chars (s : string) : list ascii := list_ascii_of_string s.
Definition str (l : list ascii) : string := string_of_list_ascii l.

Definition code (c : ascii) : nat := nat_of_ascii c.

Definition between (lo hi : ascii) (c : ascii) : bool :=
  (code lo <=? code c) && (code c <=? code hi).

Definition is_upper (c : ascii) : bool := between "A"%char "Z"%char c.
Definition is_lower (c : ascii) : bool := between "a"%char "z"%char c.
Definition is_digit (c : ascii) : bool := between "0"%char "9"%char c.

(** [str.isalpha] on one character. *)
Definition isalpha (c : ascii) : bool := is_upper c || is_lower c.

(** [str.isspace] on one character, also the class [\s]:
    TAB, LF, VT, FF, CR, FS, GS, RS, US and the space. *)
Definition isspace (c : ascii) : bool :=
  let n := code c in
  ((9 <=? n) && (n <=? 13)) || ((28 <=? n) && (n <=? 32)).

(** The class [\w]. *)
Definition is_word (c : ascii) : bool :=
  isalpha c || is_digit c || Ascii.eqb c "_"%char.

Definition upper_char (c : ascii) : ascii :=
  if is_lower c then ascii_of_nat (code c - 32) else c.

(** [str.upper]. *)
Definition upper (s : string) : string := str (map upper_char (chars s)).

Fixpoint lstrip_with (p : ascii -> bool) (l : list ascii) : list ascii :=
  match l with
  | [] => []
  | c :: t => if p c then lstrip_with p t else l
  end.

Definition rstrip_with (p : ascii -> bool) (l : list ascii) : list ascii :=
  rev (lstrip_with p (rev l)).

(** [str.strip()] with no argument. *)
Definition strip (s : string) : string :=
  str (rstrip_with isspace (lstrip_with isspace (chars s))).

(** [s[a:b]] for [0 <= a <= b]. *)
Definition slice (l : list ascii) (a b : nat) : list ascii :=
  firstn (b - a) (skipn a l).

Definition mem_str (x : string) (l : list string) : bool :=
  existsb (String.eqb x) l.

Definition opt_str_eqb (a b : option string) : bool :=
  match a, b with
  | Some x, Some y => String.eqb x y
  | None, None => true
  | _, _ => false
  end.

(** [str(n)] for an integer. *)
Definition str_of_Z (n : Z) : string := NilEmpty.string_of_int (Z.to_int n).

(** [sep.join(parts)]. *)
Fixpoint join (sep : string) (parts : list string) : string :=
  match parts with
  | [] => ""
  | [p] => p
  | p :: rest => (p ++ sep ++ join sep rest)%string
  end.

End Py.

(** ** The subset of Python's [re] used by the package *)

Module Re.
Import Py.

Inductive regex : Type :=
| Eps                                     (* empty pattern *)
| Cls (p : ascii -> bool)                 (* one character of a class *)
| Cat (r1 r2 : regex)                     (* r1 r2 *)
| Alt (r1 r2 : regex)                     (* r1|r2, r1 tried first *)
| Rep (r : regex) (lo : nat) (hi : option nat)   (* greedy r{lo,hi} *)
| Grp (name : string) (r : regex)         (* (?P<name>r) or a numbered group *)
| WordB                                   (* \b *)
| NotAfter (p : ascii -> bool)            (* (?<![...]) *)
| Bol                                     (* ^ *)
| Eol.                                    (* $ *)

Definition Chr (a : ascii) : regex := Cls (Ascii.eqb a).
Definition Opt (r : regex) : regex := Rep r 0 (Some 1).
Definition Plus (r : regex) : regex := Rep r 1 None.
Definition Star (r : regex) : regex := Rep r 0 None.

(** A position in the subject: index, the character before it, the rest. *)
Record cursor : Type := Cursor {
  pos : nat;
  before : option ascii;
  rest : list ascii
}.

Definition start_of (l : list ascii) : cursor := Cursor 0 None l.

Definition advance (c : cursor) : option cursor :=
  match rest c with
  | [] => None
  | a :: t => Some (Cursor (S (pos c)) (Some a) t)
  end.

Definition captures : Type := list (string * (nat * nat)).

Fixpoint group (name : string) (caps : captures) : option (nat * nat) :=
  match caps with
  | [] => None
  | (n, span) :: t => if String.eqb n name then Some span else group name t
  end.

Definition word_opt (o : option ascii) : bool :=
  match o with Some a => is_word a | None => false end.

Definition at_boundary (c : cursor) : bool :=
  xorb (word_opt (before c)) (word_opt (hd_error (rest c))).

Section Matcher.
Context {A : Type}.

(** [run r c caps k]: match [r] at [c], then hand the end position and the
    groups to [k]; [None] makes the matcher backtrack to the next choice. *)
Fixpoint run (r : regex) (c : cursor) (caps : captures)
         (k : cursor -> captures -> option A) {struct r} : option A :=
  match r with
  | Eps => k c caps
  | Cls p =>
      match rest c with
      | a :: t => if p a then k (Cursor (S (pos c)) (Some a) t) caps else None
      | [] => None
      end
  | Cat r1 r2 => run r1 c caps (fun c1 caps1 => run r2 c1 caps1 k)
  | Alt r1 r2 =>
      match run r1 c caps k with
      | Some x => Some x
      | None => run r2 c caps k
      end
  | Rep r1 lo hi =>
      (fix iter (fuel done : nat) (c : cursor) (caps : captures) {struct fuel}
         : option A :=
         match fuel with
         | O => if lo <=? done then k c caps else None
         | S fuel' =>
             match run r1 c caps
                     (fun c1 caps1 =>
                        if pos c1 =? pos c then None
                        else iter fuel' (S done) c1 caps1) with
             | Some x => Some x
             | None => if lo <=? done then k c caps else None
             end
         end)
        (match hi with Some h => h | None => List.length (rest c) end)
        0 c caps
  | Grp name r1 =>
      run r1 c caps
        (fun c1 caps1 => k c1 ((name, (pos c, pos c1)) :: caps1))
  | WordB => if at_boundary c then k c caps else None
  | NotAfter p =>
      match before c with
      | Some a => if p a then None else k c caps
      | None => k c caps
      end
  | Bol => match before c with None => k c caps | Some _ => None end
  | Eol =>
      match rest c with
      | [] => k c caps
      | [a] => if Ascii.eqb a "010"%char then k c caps else None
      | _ => None
      end
  end.
End Matcher.

(** A match object: [m.start()], [m.end()] and the groups. *)
Record rmatch : Type := RMatch {
  m_start : nat;
  m_end : nat;
  m_caps : captures
}.

(** One attempt at a fixed position: the match and the cursor at its end. *)
Definition match_here (r : regex) (c : cursor) : option (rmatch * cursor) :=
  run r c [] (fun c1 caps => Some (RMatch (pos c) (pos c1) caps, c1)).

(** [re.fullmatch(r, s) is not None]. *)
Definition fullmatch (r : regex) (s : string) : bool :=
  match run r (start_of (chars s)) []
          (fun c1 _ => match rest c1 with [] => Some tt | _ => None end) with
  | Some _ => true
  | None => false
  end.

(** [re.match(r, s)]. *)
Definition match_ (r : regex) (s : string) : option rmatch :=
  option_map fst (match_here r (start_of (chars s))).

(** [r.finditer(s)] from a cursor: leftmost matches, not overlapping.  The
    patterns of the package match no empty string; after an empty match the
    scan moves on by one character. *)
Fixpoint find_from (r : regex) (fuel : nat) (c : cursor) : list rmatch :=
  match fuel with
  | O => []
  | S fuel' =>
      match match_here r c with
      | Some (m, c1) =>
          m :: (if pos c1 =? pos c
                then match advance c with
                     | Some c' => find_from r fuel' c'
                     | None => []
                     end
                else find_from r fuel' c1)
      | None =>
          match advance c with
          | Some c' => find_from r fuel' c'
          | None => []
          end
      end
  end.

Definition finditer (r : regex) (s : list ascii) : list rmatch :=
  find_from r (S (List.length s)) (start_of s).

(** [m.group(name)], [None] when the group did not take part. *)
Definition group_text (s : list ascii) (m : rmatch) (name : string)
  : option string :=
  match group name (m_caps m) with
  | Some (a, b) => Some (str (slice s a b))
  | None => None
  end.

(** [r.sub(repl, s)] for a replacement text without back-references. *)
Fixpoint sub_from (repl : list ascii) (s : list ascii) (at_ : nat)
         (ms : list rmatch) : list ascii :=
  match ms with
  | [] => skipn at_ s
  | m :: ms' => slice s at_ (m_start m) ++ repl ++ sub_from repl s (m_end m) ms'
  end.

Definition sub (r : regex) (repl : string) (s : string) : string :=
  let l := chars s in
  str (sub_from (chars repl) l 0 (finditer r l)).

End Re.

(** ** sheetguard/core/references.py *)

Module References.
Import Py Re.

Definition _VOLATILE_FUNCS : list string :=
  ["NOW"; "TODAY"; "RAND"; "RANDBETWEEN"; "OFFSET"; "INDIRECT"; "CELL"; "INFO"].

Definition dollar_opt : regex := Opt (Chr "$").
Definition upper_1_3 : regex := Rep (Cls is_upper) 1 (Some 3).
Definition digit_1_7 : regex := Rep (Cls is_digit) 1 (Some 7).
Definition not_char (a : ascii) : ascii -> bool := fun c => negb (Ascii.eqb c a).

(** [(?:'(?P<qs>[^']+)'|(?P<us>[^'!]+))!] *)
Definition _SHEET_PREFIX : regex :=
  Cat (Alt (Cat (Chr "'") (Cat (Grp "qs" (Plus (Cls (not_char "'")))) (Chr "'")))
           (Grp "us" (Plus (Cls (fun c => not_char "'" c && not_char "!" c)))))
      (Chr "!").

(** [\$?[A-Z]{1,3}\$?\d{1,7}] *)
Definition _CELL : regex :=
  Cat dollar_opt (Cat upper_1_3 (Cat dollar_opt digit_1_7)).

Definition _RANGE : regex := Cat _CELL (Cat (Chr ":") _CELL).

(** [\$?[A-Z]{1,3}:\$?[A-Z]{1,3}] *)
Definition _WHOLE_COL : regex :=
  Cat dollar_opt (Cat upper_1_3 (Cat (Chr ":") (Cat dollar_opt upper_1_3))).

(** [\$?\d{1,7}:\$?\d{1,7}] *)
Definition _WHOLE_ROW : regex :=
  Cat dollar_opt (Cat digit_1_7 (Cat (Chr ":") (Cat dollar_opt digit_1_7))).

Definition addr_group : regex :=
  Grp "addr" (Alt _RANGE (Alt _CELL (Alt _WHOLE_COL _WHOLE_ROW))).

Definition _RE_SHEET_RANGE : regex := Cat _SHEET_PREFIX addr_group.
Definition _RE_BARE_RANGE : regex := addr_group.

Definition name_start (c : ascii) : bool := isalpha c || Ascii.eqb c "_".
Definition name_char (c : ascii) : bool := is_word c.
Definition name_char_dot (c : ascii) : bool := is_word c || Ascii.eqb c ".".

(** [\b(?P<name>[A-Za-z_][A-Za-z0-9_]*\[[^\]]+\])\b] *)
Definition _RE_STRUCTURED : regex :=
  Cat WordB
    (Cat (Grp "name"
            (Cat (Cls name_start)
               (Cat (Star (Cls name_char))
                  (Cat (Chr "[") (Cat (Plus (Cls (not_char "]"))) (Chr "]"))))))
         WordB).

(** [\b(?P<name>[A-Za-z_][A-Za-z0-9_\.]{0,255})\b] *)
Definition _RE_NAME : regex :=
  Cat WordB
    (Cat (Grp "name" (Cat (Cls name_start) (Rep (Cls name_char_dot) 0 (Some 255))))
         WordB).

Record RefToken : Type := mkRefToken {
  raw : string;
  sheet : option string;
  kind : string;
  symbolic : bool
}.

(** The property [RefToken.is_symbolic]. *)
Definition is_symbolic (t : RefToken) : bool := symbolic t.

(** A token in its dictionary form, as [to_dict] writes it and as the graph
    builder reads it; a key that is missing and a key bound to [None] are both
    [None], which is what [dict.get] returns for them. *)
Record RefDict : Type := mkRefDict {
  d_raw : option string;
  d_ref : option string;
  d_sheet : option string;
  d_kind : option string;
  d_symbolic : option bool;
  d_is_symbolic : option bool
}.

Definition to_dict (t : RefToken) : RefDict :=
  mkRefDict (Some (raw t)) None (sheet t) (Some (kind t)) (Some (symbolic t)) None.

(** [x or y] on optional strings: [None] and the empty string are falsy. *)
Definition or_str (x y : option string) : option string :=
  match x with
  | Some "" | None => y
  | Some _ => x
  end.

Definition or_bool (x y : option bool) : option bool :=
  match x with
  | Some true => x
  | _ => y
  end.

Definition truthy_bool (x : option bool) : bool :=
  match x with Some b => b | None => false end.

Definition str_or_empty (x : option string) : string :=
  match x with Some s => s | None => "" end.

(** [RefToken.from_any] on a dictionary. *)
Definition from_dict (d : RefDict) : RefToken :=
  mkRefToken (str_or_empty (or_str (d_raw d) (d_ref d)))
             (d_sheet d)
             (match or_str (d_kind d) None with Some k => k | None => "symbolic" end)
             (truthy_bool (or_bool (d_symbolic d) (d_is_symbolic d))).

Fixpoint find_sub (needle hay : list ascii) (fuel : nat) : bool :=
  match fuel with
  | O => false
  | S fuel' =>
      if (fix prefix (n h : list ascii) : bool :=
            match n, h with
            | [], _ => true
            | a :: n', b :: h' => Ascii.eqb a b && prefix n' h'
            | _ :: _, [] => false
            end) needle hay
      then true
      else match hay with
           | [] => false
           | _ :: t => find_sub needle t fuel'
           end
  end.

(** [f.find(fn + "(") != -1] *)
Definition contains_call (f fn : string) : bool :=
  find_sub (chars (fn ++ "(")%string) (chars f) (S (String.length f)).

(** The hits are collected from a set and sorted; the names of
    [_VOLATILE_FUNCS] are kept here in sorted order. *)
Definition detect_volatile_functions (formula : string) : list string :=
  if String.eqb formula "" then []
  else
    let f := upper formula in
    filter (contains_call f)
      ["CELL"; "INDIRECT"; "INFO"; "NOW"; "OFFSET"; "RAND"; "RANDBETWEEN"; "TODAY"].

Definition _kind_from_addr (addr : string) : string :=
  if fullmatch _CELL addr then "cell"
  else if fullmatch _RANGE addr then "range"
  else if fullmatch _WHOLE_COL addr then "whole_column"
  else if fullmatch _WHOLE_ROW addr then "whole_row"
  else "symbolic".

Definition token_key_eqb (a b : RefToken) : bool :=
  String.eqb (raw a) (raw b) && opt_str_eqb (sheet a) (sheet b)
  && String.eqb (kind a) (kind b) && Bool.eqb (symbolic a) (symbolic b).

(** De-duplication that keeps the first occurrence and the order. *)
Fixpoint dedup (seen : list RefToken) (ts : list RefToken) : list RefDict :=
  match ts with
  | [] => []
  | t :: rest =>
      if existsb (token_key_eqb t) seen then dedup seen rest
      else to_dict t :: dedup (t :: seen) rest
  end.

(** [m.group("qs") or m.group("us")] *)
Definition sheet_of_match (f : list ascii) (m : rmatch) : option string :=
  or_str (group_text f m "qs") (group_text f m "us").

Definition structured_tokens (f : list ascii) : list RefToken :=
  map (fun m => mkRefToken (str_or_empty (group_text f m "name")) None "symbolic" true)
      (finditer _RE_STRUCTURED f).

Definition sheet_tokens (f : list ascii) : list RefToken :=
  map (fun m =>
         let addr := str_or_empty (group_text f m "addr") in
         mkRefToken addr (sheet_of_match f m) (_kind_from_addr addr) false)
      (finditer _RE_SHEET_RANGE f).

Definition bare_tokens (f : list ascii) : list RefToken :=
  map (fun m =>
         let addr := str_or_empty (group_text f m "addr") in
         mkRefToken addr None (_kind_from_addr addr) false)
      (finditer _RE_BARE_RANGE f).

Definition name_is_kept (f : list ascii) (m : rmatch) : bool :=
  let name := str_or_empty (group_text f m "name") in
  let after := str (slice f (m_end m) (S (m_end m))) in
  negb (String.eqb after "(")
  && negb (fullmatch _CELL name || fullmatch _WHOLE_COL name
           || fullmatch _WHOLE_ROW name)
  && negb (mem_str (upper name) ["TRUE"; "FALSE"; "NA"; "N"; "PI"; "E"])
  && negb (mem_str (upper name) _VOLATILE_FUNCS).

Definition name_tokens (f : list ascii) : list RefToken :=
  map (fun m => mkRefToken (str_or_empty (group_text f m "name")) None "symbolic" true)
      (filter (name_is_kept f) (finditer _RE_NAME f)).

Definition extract_reference_tokens (formula : string) : list RefDict :=
  if String.eqb formula "" then []
  else
    let f := match chars formula with
             | "="%char :: t => t
             | l => l
             end in
    dedup [] (structured_tokens f ++ sheet_tokens f ++ bare_tokens f
              ++ name_tokens f).

End References.

(** ** networkx.DiGraph, as far as the package uses it *)

Module Nx.
Import Py.

(** The adjacency of a [DiGraph]: every node is a key, in insertion order,
    bound to its successors, in insertion order. *)
Definition DiGraph : Type := list (string * list string).

Fixpoint lookup {V : Type} (k : string) (l : list (string * V)) : option V :=
  match l with
  | [] => None
  | (k', v) :: t => if String.eqb k' k then Some v else lookup k t
  end.

Definition has_node (g : DiGraph) (n : string) : bool :=
  match lookup n g with Some _ => true | None => false end.

Definition add_node (n : string) (g : DiGraph) : DiGraph :=
  if has_node g n then g else g ++ [(n, [])].

Definition set_add (v : string) (vs : list string) : list string :=
  if mem_str v vs then vs else vs ++ [v].

Fixpoint update_adj (u : string) (f : list string -> list string)
         (g : DiGraph) : DiGraph :=
  match g with
  | [] => []
  | (k, vs) :: t =>
      if String.eqb k u then (k, f vs) :: t else (k, vs) :: update_adj u f t
  end.

(** [g.add_edge(u, v)]: both ends become nodes, then [v] is recorded among
    the successors of [u]; an edge already there keeps its place. *)
Definition add_edge (u v : string) (g : DiGraph) : DiGraph :=
  update_adj u (set_add v) (add_node v (add_node u g)).

Definition has_edge (g : DiGraph) (u v : string) : bool :=
  match lookup u g with Some vs => mem_str v vs | None => false end.

Definition nodes (g : DiGraph) : list string := map fst g.

Definition edges (g : DiGraph) : list (string * string) :=
  flat_map (fun '(u, vs) => map (fun v => (u, v)) vs) g.

(** [g.successors(n)] raises [NetworkXError] for a node that is not in [g]. *)
Definition successors (g : DiGraph) (n : string) : py (list string) :=
  match lookup n g with
  | Some vs => Ret vs
  | None => Raise (Exn "NetworkXError"
                     ("The node " ++ n ++ " is not in the digraph.")%string)
  end.

Definition out_degree (g : DiGraph) (n : string) : py nat :=
  bind (successors g n) (fun vs => Ret (List.length vs)).

(** One round of a set-level traversal: the successors of every node of
    [reached] join it. *)
Definition expand (g : DiGraph) (reached : list string) : list string :=
  fold_left
    (fun acc n =>
       match lookup n g with
       | Some vs => fold_left (fun a v => set_add v a) vs acc
       | None => acc
       end)
    reached reached.

(** [nx.descendants(g, source)]: the nodes reachable from [source], without
    [source] itself; it raises [NetworkXError] for a node that is not in [g].
    A round that adds nothing ends the growth, and there are as many rounds
    as recorded successors. *)
Definition descendants (g : DiGraph) (source : string) : py (list string) :=
  match lookup source g with
  | Some vs =>
      Ret (remove string_dec source
             (Nat.iter (List.length (flat_map snd g)) (expand g)
                (fold_left (fun a v => set_add v a) vs [])))
  | None => Raise (Exn "NetworkXError"
                     ("The node " ++ source ++ " is not in the graph")%string)
  end.

(** A generator, unfolded: what it yields, in order, and how it ends. *)
Inductive gen (A : Type) : Type :=
| GStop
| GRaise (e : exn)
| GYield (a : A) (next : gen A).
Arguments GStop {A}.
Arguments GRaise {A} e.
Arguments GYield {A} a next.

Fixpoint gen_of_list {A : Type} (l : list A) : gen A :=
  match l with
  | [] => GStop
  | a :: t => GYield a (gen_of_list t)
  end.

(** A reference enumeration of the simple cycles of [g], standing for
    [nx.simple_cycles] where a concrete graph is run: every cycle is listed
    once, from its earliest node in the node order. *)
Fixpoint index_of (n : string) (l : list string) : nat :=
  match l with
  | [] => 0
  | x :: t => if String.eqb x n then 0 else S (index_of n t)
  end.

Fixpoint cycles_through (fuel : nat) (g : DiGraph) (root : string)
         (path : list string) (cur : string) : list (list string) :=
  match fuel with
  | O => []
  | S fuel' =>
      flat_map
        (fun nxt =>
           if String.eqb nxt root then [rev path]
           else if mem_str nxt path then []
           else if index_of nxt (nodes g) <? index_of root (nodes g) then []
           else cycles_through fuel' g root (nxt :: path) nxt)
        (match lookup cur g with Some vs => vs | None => [] end)
  end.

Definition simple_cycles_ref (g : DiGraph) : gen (list string) :=
  gen_of_list
    (flat_map (fun n => cycles_through (S (List.length g)) g n [n] n) (nodes g)).

End Nx.

(** ** sheetguard/core/graph.py *)

Module Graph.
Import Py References Nx.

Definition _node_id (sheet addr : string) : string :=
  (sheet ++ "!" ++ addr)%string.

(** What the caller may put in [refs]: a [RefToken], a dictionary, or an
    object with neither the attributes nor the keys. *)
Inductive ref_like : Type :=
| RefObj (t : RefToken)
| RefMap (d : RefDict)
| RefOther.

Record SymbolicEdge : Type := mkSymbolicEdge {
  se_dependent : string;
  se_ref : string;
  se_raw : string;
  se_sheet : string;
  se_kind : string
}.

(** The fields read off one entry of [refs]:
    [(sheet, raw, kind, symbolic)] before [raw] is normalised. *)
Definition ref_fields (r : ref_like)
  : option string * option string * option string * option bool :=
  match r with
  | RefObj t => (sheet t, Some (raw t), Some (kind t), Some (is_symbolic t))
  | RefMap d =>
      (d_sheet d, or_str (d_raw d) (d_ref d), d_kind d,
       Some (truthy_bool (or_bool (d_symbolic d) (d_is_symbolic d))))
  | RefOther => (None, None, None, None)
  end.

(** One entry of [refs] resolved against the current sheet: [None] when the
    entry is skipped, otherwise the target node and the record for the sink
    when the entry is symbolic. *)
Definition resolve (dep sheet_name : string) (r : ref_like)
  : option (string * option SymbolicEdge) :=
  let '(sheet, raw, kind, symbolic) := ref_fields r in
  let raw := strip (str_or_empty (or_str raw None)) in
  if String.eqb raw "" then None
  else
    let symbolic := match symbolic with Some b => b | None => false end in
    let ref_sheet := match or_str sheet None with
                     | Some s => s
                     | None => sheet_name
                     end in
    let ref_node := _node_id ref_sheet raw in
    Some (ref_node,
          if symbolic
          then Some (mkSymbolicEdge dep ref_node raw ref_sheet
                       (match or_str kind None with
                        | Some k => k
                        | None => "symbolic"
                        end))
          else None).

Definition sink_append (sink : option (list SymbolicEdge))
           (e : option SymbolicEdge) : option (list SymbolicEdge) :=
  match sink, e with
  | Some l, Some x => Some (l ++ [x])
  | _, _ => sink
  end.

(** The loop [for r in refs] over the graph and the sink. *)
Fixpoint add_refs (dep sheet_name : string) (refs : list ref_like)
         (g : DiGraph) (sink : option (list SymbolicEdge))
  : DiGraph * option (list SymbolicEdge) :=
  match refs with
  | [] => (g, sink)
  | r :: rest =>
      match resolve dep sheet_name r with
      | None => add_refs dep sheet_name rest g sink
      | Some (ref_node, e) =>
          add_refs dep sheet_name rest (add_edge dep ref_node g)
            (sink_append sink e)
      end
  end.

Definition missing_args : exn :=
  Exn "TypeError"
    "build_dependency_graph: missing required args (sheet_name, cell_addr, refs, g)".

(** The incremental call style.  An argument that is not passed is [None];
    [symbolic_edges] is [None] as well when what was passed is not a list.
    The result is the outcome of the call together with the graph object and
    the sink as the call leaves them.  (The other call style takes a single
    positional scan dictionary and nothing else.) *)
Definition build_dependency_graph
           (sheet_name cell_addr : option string)
           (refs : option (list ref_like))
           (g : option DiGraph)
           (symbolic_edges : option (list SymbolicEdge))
  : py unit * option DiGraph * option (list SymbolicEdge) :=
  match sheet_name, cell_addr, g, refs with
  | Some sheet_name, Some cell_addr, Some g0, Some refs =>
      let dep := _node_id sheet_name cell_addr in
      let g1 := if negb (has_node g0 dep) then add_node dep g0 else g0 in
      let '(g2, sink) := add_refs dep sheet_name refs g1 symbolic_edges in
      (Ret tt, Some g2, sink)
  | _, _, _, _ => (Raise missing_args, g, symbolic_edges)
  end.

(** [downstream_reach] of this module, over [nx.descendants]; any exception
    gives 0. *)
Definition downstream_reach (g : DiGraph) (node : string) : nat :=
  match descendants g node with
  | Ret d => List.length d
  | Raise _ => 0
  end.

(** [fan_out]: the out-degree, 0 on any exception. *)
Definition fan_out (g : DiGraph) (node : string) : nat :=
  match out_degree g node with
  | Ret n => n
  | Raise _ => 0
  end.

Record cycle_entry : Type := mkCycle {
  type_ : string;
  cells : list string;
  details : option string
}.

Definition cycle_of (cyc : list string) : cycle_entry :=
  mkCycle "cycle" cyc None.

Definition error_of (e : exn) : cycle_entry :=
  mkCycle "error" [] (Some (exn_type e ++ ": " ++ exn_msg e)%string).

(** The body of the [try]: the [for] loop over the generator, with [out] as
    its state.  The outcome says whether the body ended or raised. *)
Fixpoint collect (s : gen (list string)) (limit : Z) (out : list cycle_entry)
  : py unit * list cycle_entry :=
  match s with
  | GStop => (Ret tt, out)
  | GRaise e => (Raise e, out)
  | GYield cyc next =>
      let out := out ++ [cycle_of cyc] in
      if (Z.of_nat (List.length out) >=? limit)%Z then (Ret tt, out)
      else collect next limit out
  end.

Section DetectCycles.
(** [nx.simple_cycles]: any generator of cycles. *)
Variable simple_cycles : DiGraph -> gen (list string).

Definition detect_cycles (g : DiGraph) (limit : Z) : py (list cycle_entry) :=
  match collect (simple_cycles g) limit [] with
  | (Ret _, out) => Ret out
  | (Raise e, out) => Ret (out ++ [error_of e])
  end.
End DetectCycles.

End Graph.

(** ** sheetguard/detectors/impact.py *)

Module Impact.
Import Py Nx.

(** [visited.add(nxt); q.append(nxt)] for every successor not yet visited. *)
Fixpoint visit_new (ss : list string) (visited q : list string)
  : list string * list string :=
  match ss with
  | [] => (visited, q)
  | nxt :: rest =>
      if mem_str nxt visited then visit_new rest visited q
      else visit_new rest (visited ++ [nxt]) (q ++ [nxt])
  end.

(** The first loop adds every successor of [start] to the set and to the
    queue without a membership test. *)
Fixpoint visit_all (ss : list string) (visited q : list string)
  : list string * list string :=
  match ss with
  | [] => (visited, q)
  | nxt :: rest => visit_all rest (set_add nxt visited) (q ++ [nxt])
  end.

(** The [while] loop; [None] when [fuel] iterations were not enough. *)
Fixpoint bfs (fuel : nat) (g : DiGraph) (max_nodes : Z)
         (visited q : list string) : option (py (list string)) :=
  match fuel with
  | O => None
  | S fuel' =>
      match q with
      | [] => Some (Ret visited)
      | node :: q' =>
          if (Z.of_nat (List.length visited) <? max_nodes)%Z then
            match successors g node with
            | Raise e => Some (Raise e)
            | Ret ss =>
                let '(visited', q'') := visit_new ss visited q' in
                bfs fuel' g max_nodes visited' q''
            end
          else Some (Ret visited)
      end
  end.

(** Every pass of the loop pops one node, and a node is queued once by the
    first loop per successor of [start] and at most once afterwards. *)
Definition bfs_fuel (g : DiGraph) (start : string) : nat :=
  S (List.length (flat_map snd g)
     + match lookup start g with Some vs => List.length vs | None => 0 end).

Definition default_max_nodes : Z := 200000.

Definition downstream_reach (g : DiGraph) (start : string) (max_nodes : Z)
  : option (py nat) :=
  match successors g start with
  | Raise e => Some (Raise e)
  | Ret ss =>
      let '(visited, q) := visit_all ss [] [] in
      match bfs (bfs_fuel g start) g max_nodes visited q with
      | Some (Ret visited') => Some (Ret (List.length visited'))
      | Some (Raise e) => Some (Raise e)
      | None => None
      end
  end.

End Impact.

(** ** sheetguard/detectors/constants.py *)

Module Constants.
Import Py Re.

Definition is_sign (c : ascii) : bool := Ascii.eqb c "+" || Ascii.eqb c "-".
Definition is_e (c : ascii) : bool := Ascii.eqb c "e" || Ascii.eqb c "E".

(** The verbose pattern [_NUM_RE]: group [num] holds an optional sign, then
    digits with an optional point and digits or a point with digits, then an
    optional exponent.  Under the flag [i] the letter [e] stands for both
    cases. *)
Definition _NUM_RE : regex :=
  Grp "num"
    (Cat (Opt (Cls is_sign))
       (Cat (Alt (Cat (Plus (Cls is_digit))
                      (Opt (Cat (Chr ".") (Star (Cls is_digit)))))
                 (Cat (Chr ".") (Plus (Cls is_digit))))
            (Opt (Cat (Cls is_e) (Cat (Opt (Cls is_sign)) (Plus (Cls is_digit))))))).

(** A Python [float] is modelled by the exact rational value of the text it
    is read from; the rounding of binary64 is outside the model. *)
Record ConstantHit : Type := mkHit {
  literal : string;
  value : Q;
  operator : string;
  function_ : string;
  start : nat;
  end_ : nat
}.

(** The double quote. *)
Definition quote : ascii := "034"%char.

Fixpoint blank_quoted (in_q : bool) (l : list ascii) : list ascii :=
  match l with
  | [] => []
  | ch :: t =>
      if Ascii.eqb ch quote then ch :: blank_quoted (negb in_q) t
      else (if in_q then " "%char else ch) :: blank_quoted in_q t
  end.

Definition _strip_quoted_segments (s : list ascii) : list ascii :=
  if negb (existsb (Ascii.eqb quote) s) then s else blank_quoted false s.

Definition alpha_or_dollar (o : option ascii) : bool :=
  match o with
  | Some c => isalpha c || Ascii.eqb c "$"
  | None => false
  end.

Definition char_at (s : list ascii) (i : nat) : option ascii := nth_error s i.

Definition _looks_like_cell_ref_near (s : list ascii) (start end_ : nat) : bool :=
  let prev := match start with O => None | S p => char_at s p end in
  let nxt := char_at s end_ in
  if alpha_or_dollar prev then true
  else if alpha_or_dollar nxt then true
  else false.

Definition is_operator (c : ascii) : bool :=
  Ascii.eqb c "*" || Ascii.eqb c "/" || Ascii.eqb c "+" || Ascii.eqb c "-".

(** The first character that is not white space, when it is an operator. *)
Definition operator_ahead (l : list ascii) : option ascii :=
  match lstrip_with isspace l with
  | c :: _ => if is_operator c then Some c else None
  | [] => None
  end.

(** The text to the left of [start] is walked from [start - 1] down, the text
    from [start] on is walked upwards. *)
Definition _nearest_operator (s : list ascii) (start : nat) : string :=
  match operator_ahead (rev (firstn start s)) with
  | Some c => String c ""
  | None =>
      match operator_ahead (skipn start s) with
      | Some c => String c ""
      | None => ""
      end
  end.

Fixpoint take_while (p : ascii -> bool) (l : list ascii) : list ascii :=
  match l with
  | [] => []
  | c :: t => if p c then c :: take_while p t else []
  end.

Definition name_part (c : ascii) : bool :=
  isalpha c || Ascii.eqb c "." || Ascii.eqb c "_".

(** [left] holds [s[pos]], [s[pos-1]], ..., [s[0]]. *)
Fixpoint enclosing_from (left : list ascii) (depth : nat) : string :=
  match left with
  | [] => ""
  | ch :: t =>
      if Ascii.eqb ch ")" then enclosing_from t (S depth)
      else if Ascii.eqb ch "(" then
        match depth with
        | O => upper (strip (str (rev (take_while name_part t))))
        | S d => enclosing_from t d
        end
      else enclosing_from t depth
  end.

Definition _enclosing_function (formula : list ascii) (pos : nat) : string :=
  enclosing_from (rev (firstn (S pos) formula)) 0.

(** Reading of a literal, [float(lit)]. *)
Fixpoint digits_val (acc : Z) (l : list ascii) : Z * list ascii :=
  match l with
  | c :: t =>
      if is_digit c then digits_val (acc * 10 + Z.of_nat (code c - 48)) t
      else (acc, l)
  | [] => (acc, [])
  end.

Definition split_sign (l : list ascii) : bool * list ascii :=
  match l with
  | c :: t => if Ascii.eqb c "-" then (true, t)
              else if Ascii.eqb c "+" then (false, t) else (false, l)
  | [] => (false, [])
  end.

Definition scale10 (m e : Z) : Q :=
  if (0 <=? e)%Z then inject_Z (m * 10 ^ e)
  else Qmake m (Z.to_pos (10 ^ (- e))).

Definition float_of_literal (lit : string) : option Q :=
  let '(neg, l0) := split_sign (chars lit) in
  let '(ip, l1) := digits_val 0 l0 in
  let int_len := List.length l0 - List.length l1 in
  let '(m, frac_len, l2) :=
    match l1 with
    | "."%char :: t =>
        let '(fp, l2) := digits_val ip t in
        (fp, List.length t - List.length l2, l2)
    | _ => (ip, 0, l1)
    end in
  if (int_len + frac_len =? 0) then None
  else
    let m := if neg then (- m)%Z else m in
    match l2 with
    | [] => Some (scale10 m (- Z.of_nat frac_len))
    | c :: t =>
        if is_e c then
          let '(eneg, l3) := split_sign t in
          let '(ev, l4) := digits_val 0 l3 in
          match l3, l4 with
          | _ :: _, [] =>
              Some (scale10 m ((if eneg then - ev else ev) - Z.of_nat frac_len))
          | _, _ => None
          end
        else None
    end.

Definition is_integer (q : Q) : bool :=
  (Z.rem (Qnum q) (Zpos (Qden q)) =? 0)%Z.

(** [str(int(abs(val)))] *)
Definition int_abs_str (q : Q) : string :=
  str_of_Z (Z.quot (Z.abs (Qnum q)) (Zpos (Qden q))).

(** The configuration of the detector, each list holding the texts [str(x)]
    of the configured entries; a key that is missing is the empty list. *)
Record Config : Type := mkConfig {
  ignore_literals : list string;
  ignore_functions : list string;
  risky_operators : list string;
  risky_functions : list string
}.

Definition empty_config : Config := mkConfig [] [] [] [].

Definition scan_literal (s : list ascii) (ignore_literals ignore_functions
                          risky_operators risky_functions : list string)
           (m : rmatch) : option ConstantHit :=
  match group "num" (m_caps m) with
  | None => None
  | Some (start, end_) =>
      let lit := str (slice s start end_) in
      if String.eqb lit "" then None
      else if _looks_like_cell_ref_near s start end_ then None
      else
        match float_of_literal lit with
        | None => None
        | Some val =>
            let lit_unsigned := str (lstrip_with is_sign (chars lit)) in
            if mem_str lit ignore_literals || mem_str lit_unsigned ignore_literals
            then None
            else if is_integer (Qabs val) && mem_str (int_abs_str val) ignore_literals
            then None
            else
              let op := _nearest_operator s start in
              let func := _enclosing_function s start in
              if negb (String.eqb func "") && mem_str func ignore_functions
              then None
              else
                let should_flag :=
                  (negb (String.eqb op "") && mem_str op risky_operators)
                  || (negb (String.eqb func "") && mem_str func risky_functions) in
                if should_flag
                then Some (mkHit lit val op func start end_)
                else None
        end
  end.

Fixpoint filter_map {A B : Type} (f : A -> option B) (l : list A) : list B :=
  match l with
  | [] => []
  | a :: t => match f a with
              | Some b => b :: filter_map f t
              | None => filter_map f t
              end
  end.

(** [cfg] is [None] when the argument is omitted. *)
Definition detect_hardcoded_constants (formula : string) (cfg : option Config)
  : list ConstantHit :=
  let cfg := match cfg with Some c => c | None => empty_config end in
  let ignore_literals := ignore_literals cfg in
  let ignore_functions := map upper (ignore_functions cfg) in
  let risky_operators :=
    match risky_operators cfg with
    | [] => ["*"; "/"]
    | ops => ops
    end in
  let risky_functions := map upper (risky_functions cfg) in
  if String.eqb formula "" then []
  else
    let s := _strip_quoted_segments (chars formula) in
    filter_map
      (scan_literal s ignore_literals ignore_functions risky_operators
         risky_functions)
      (finditer _NUM_RE s).

End Constants.

(** ** sheetguard/detectors/drift.py *)

Module Drift.
Import Py Re References.

Definition sheet_word (c : ascii) : bool := is_word c.

(** [\$?[A-Z]{1,3}\$?\d+] *)
Definition cell_ref : regex :=
  Cat dollar_opt (Cat upper_1_3 (Cat dollar_opt (Plus (Cls is_digit)))).

(** [(?:(?P<sheet>'[^']+'|[A-Za-z0-9_]+)!)?] followed by a cell and an
    optional [:] and second cell. *)
Definition _CELL_REF_RE : regex :=
  Cat (Opt (Cat (Grp "sheet"
                   (Alt (Cat (Chr "'") (Cat (Plus (Cls (not_char "'"))) (Chr "'")))
                        (Plus (Cls sheet_word))))
                (Chr "!")))
      (Cat cell_ref (Opt (Cat (Chr ":") cell_ref))).

(** [(?<![A-Za-z_])[-+]?\d+(?:\.\d+)?(?:[eE][-+]?\d+)?] *)
Definition _NUM_RE : regex :=
  Cat (NotAfter name_start)
    (Cat (Opt (Cls Constants.is_sign))
       (Cat (Plus (Cls is_digit))
          (Cat (Opt (Cat (Chr ".") (Plus (Cls is_digit))))
               (Opt (Cat (Cls Constants.is_e)
                       (Cat (Opt (Cls Constants.is_sign)) (Plus (Cls is_digit)))))))).

(** [\s+] *)
Definition _WS_RE : regex := Plus (Cls isspace).

Definition startswith_eq (s : string) : bool :=
  match s with
  | String "="%char _ => true
  | _ => false
  end.

Definition normalize_formula (formula : string) : string :=
  let f := strip formula in
  if negb (startswith_eq f) then ""
  else
    let f := sub _CELL_REF_RE "CELL" f in
    let f := sub _NUM_RE "NUM" f in
    let f := sub _WS_RE "" f in
    upper f.

(** [^[A-Z]{1,3}(\d+)$] *)
Definition addr_re : regex :=
  Cat Bol (Cat upper_1_3 (Cat (Grp "1" (Plus (Cls is_digit))) Eol)).

(** The row number of an address, [int(m.group(1))]. *)
Definition row_of (addr : string) : option Z :=
  match match_ addr_re addr with
  | Some m =>
      match group "1" (m_caps m) with
      | Some (a, b) => Some (fst (Constants.digits_val 0 (slice (chars addr) a b)))
      | None => None
      end
  | None => None
  end.

Record Config : Type := mkConfig {
  enabled : option bool;
  min_row_formula_count : option Z;
  dominant_ratio : option Q;
  max_findings : option Z
}.

Definition empty_config : Config := mkConfig None None None None.

(** [int(cfg.get(key, d) or d)] *)
Definition int_or (o : option Z) (d : Z) : Z :=
  match o with
  | Some z => if (z =? 0)%Z then d else z
  | None => d
  end.

(** [float(cfg.get(key, d) or d)] *)
Definition float_or (o : option Q) (d : Q) : Q :=
  match o with
  | Some q => if Qeq_bool q 0 then d else q
  | None => d
  end.

(** An entry of a row: address, formula, shape. *)
Definition item : Type := (string * string * string)%type.

Definition shape_of (it : item) : string := snd it.

(** [rows[r].append(x)] on a [defaultdict(list)]. *)
Fixpoint rows_append (r : Z) (x : item) (rows : list (Z * list item))
  : list (Z * list item) :=
  match rows with
  | [] => [(r, [x])]
  | (r', xs) :: t =>
      if (r' =? r)%Z then (r', xs ++ [x]) :: t
      else (r', xs) :: rows_append r x t
  end.

Fixpoint build_rows (cells : list (string * string)) (rows : list (Z * list item))
  : list (Z * list item) :=
  match cells with
  | [] => rows
  | (addr, formula) :: rest =>
      match row_of addr with
      | None => build_rows rest rows
      | Some r =>
          let shape := normalize_formula formula in
          if String.eqb shape "" then build_rows rest rows
          else build_rows rest (rows_append r (addr, formula, shape) rows)
      end
  end.

(** [Counter(shapes)], keys in order of first occurrence. *)
Fixpoint count_add (x : string) (c : list (string * nat)) : list (string * nat) :=
  match c with
  | [] => [(x, 1)]
  | (k, n) :: t => if String.eqb k x then (k, S n) :: t else (k, n) :: count_add x t
  end.

Definition Counter (shapes : list string) : list (string * nat) :=
  fold_left (fun c x => count_add x c) shapes [].

(** [counts.most_common(1)[0]]: the first key of greatest count. *)
Fixpoint most_common_1 (c : list (string * nat)) : option (string * nat) :=
  match c with
  | [] => None
  | (k, n) :: t =>
      match most_common_1 t with
      | Some (k', n') => if n <? n' then Some (k', n') else Some (k, n)
      | None => Some (k, n)
      end
  end.

Record Finding : Type := mkFinding {
  f_sheet : string;
  f_cell : string;
  f_formula : string;
  f_dominant_shape : string;
  f_cell_shape : string;
  f_row : Z;
  f_drift_scope : string;
  f_note : string
}.

Definition drift_note : string :=
  "Formula shape differs from dominant pattern in the same row (possible copy/paste drift).".

(** The loop over the items of one row.  The flag is set when the function
    returns from inside the loop. *)
Fixpoint scan_items (sheet : string) (r : Z) (dominant_shape : string)
         (max_findings : Z) (items : list item) (findings : list Finding)
  : list Finding * bool :=
  match items with
  | [] => (findings, false)
  | (addr, formula, shape) :: rest =>
      if String.eqb shape dominant_shape
      then scan_items sheet r dominant_shape max_findings rest findings
      else
        let findings :=
          findings ++ [mkFinding sheet addr formula dominant_shape shape r
                         "row" drift_note] in
        if (Z.of_nat (List.length findings) >=? max_findings)%Z
        then (findings, true)
        else scan_items sheet r dominant_shape max_findings rest findings
  end.

(** The ratio [dom_count / max(1, len(items))] is compared as a rational. *)
Definition below_ratio (dom_count len : nat) (dominant_ratio : Q) : bool :=
  negb (Qle_bool dominant_ratio
          (Qmake (Z.of_nat dom_count) (Pos.of_nat (Nat.max 1 len)))).

Fixpoint scan_rows (sheet : string) (min_group : Z) (dominant_ratio : Q)
         (max_findings : Z) (rows : list (Z * list item))
         (findings : list Finding) : list Finding * bool :=
  match rows with
  | [] => (findings, false)
  | (r, items) :: rest =>
      if (Z.of_nat (List.length items) <? min_group)%Z
      then scan_rows sheet min_group dominant_ratio max_findings rest findings
      else
        match most_common_1 (Counter (map shape_of items)) with
        | None => (findings, false)
        | Some (dominant_shape, dom_count) =>
            if below_ratio dom_count (List.length items) dominant_ratio
            then scan_rows sheet min_group dominant_ratio max_findings rest findings
            else
              match scan_items sheet r dominant_shape max_findings items findings with
              | (findings, true) => (findings, true)
              | (findings, false) =>
                  scan_rows sheet min_group dominant_ratio max_findings rest findings
              end
        end
  end.

Fixpoint scan_sheets (min_group : Z) (dominant_ratio : Q) (max_findings : Z)
         (sheets : list (string * list (string * string)))
         (findings : list Finding) : list Finding :=
  match sheets with
  | [] => findings
  | (sheet, cells) :: rest =>
      match scan_rows sheet min_group dominant_ratio max_findings
              (build_rows cells []) findings with
      | (findings, true) => findings
      | (findings, false) =>
          scan_sheets min_group dominant_ratio max_findings rest findings
      end
  end.

(** [cfg] is [None] when the argument is omitted or is [None]. *)
Definition detect_formula_drift
           (formula_cells_by_sheet : list (string * list (string * string)))
           (cfg : option Config) : list Finding :=
  let cfg := match cfg with Some c => c | None => empty_config end in
  if negb (match enabled cfg with Some b => b | None => true end) then []
  else
    let min_group := int_or (min_row_formula_count cfg) 6 in
    let dominant_ratio := float_or (dominant_ratio cfg) (3 # 5) in
    let max_findings := int_or (max_findings cfg) 50 in
    scan_sheets min_group dominant_ratio max_findings formula_cells_by_sheet [].

End Drift.

(** ** sheetguard/cli/main.py: configuration lookup and risk tiering *)

Module Main.
Import Py Nx.

Local Unset Elimination Schemes.

(** A value of the configuration tree (what [yaml.safe_load] returns). *)
Inductive value : Type :=
| VNone
| VBool (b : bool)
| VInt (z : Z)
| VFloat (q : Q)
| VStr (s : string)
| VList (l : list value)
| VDict (d : list (string * value)).

Local Set Elimination Schemes.

(** [bool(v)] *)
Definition truthy (v : value) : bool :=
  match v with
  | VNone => false
  | VBool b => b
  | VInt z => negb (z =? 0)%Z
  | VFloat q => negb (Qeq_bool q 0)
  | VStr s => negb (String.eqb s "")
  | VList l => match l with [] => false | _ => true end
  | VDict d => match d with [] => false | _ => true end
  end.

(** [a or b] *)
Definition or_else (a b : value) : value := if truthy a then a else b.

Definition type_name (v : value) : string :=
  match v with
  | VNone => "NoneType"
  | VBool _ => "bool"
  | VInt _ => "int"
  | VFloat _ => "float"
  | VStr _ => "str"
  | VList _ => "list"
  | VDict _ => "dict"
  end.

(** [v.get(key, default)]: only a dictionary has the method. *)
Definition get (v : value) (key : string) (default : value) : py value :=
  match v with
  | VDict d => Ret (match lookup key d with Some x => x | None => default end)
  | _ => Raise (Exn "AttributeError"
                  ("'" ++ type_name v ++ "' object has no attribute 'get'")%string)
  end.

(** [path.split(".")] *)
Fixpoint split_dot (acc : list ascii) (l : list ascii) : list string :=
  match l with
  | [] => [str (rev acc)]
  | c :: t =>
      if Ascii.eqb c "." then str (rev acc) :: split_dot [] t
      else split_dot (c :: acc) t
  end.

Fixpoint walk (cur : value) (keys : list string) (default : value) : value :=
  match keys with
  | [] => cur
  | key :: rest =>
      match cur with
      | VDict d =>
          match lookup key d with
          | Some x => walk x rest default
          | None => default
          end
      | _ => default
      end
  end.

Definition _cfg_get (cfg : value) (path : string) (default : value) : value :=
  if String.eqb path "" then default
  else walk cfg (split_dot [] (chars path)) default.

(** Stable sort by decreasing contribution,
    [sorted(..., key=lambda kv: kv[1], reverse=True)]. *)
Fixpoint insert_desc (x : string * Q) (l : list (string * Q)) : list (string * Q) :=
  match l with
  | [] => [x]
  | y :: t =>
      if Qle_bool (snd x) (snd y) then y :: insert_desc x t else x :: y :: t
  end.

Definition sorted_desc (l : list (string * Q)) : list (string * Q) :=
  fold_left (fun acc x => insert_desc x acc) l [].

Definition labels : list (string * string) :=
  [("cycles", "circular dependency");
   ("top_risk_cells", "high-impact drivers");
   ("volatile_hits", "volatile functions");
   ("hardcoded_constants", "embedded multipliers");
   ("orphan_formulas", "orphan formulas");
   ("symbolic_refs_per_100", "symbolic references")].

(** [int(signals_map.get(key, 0) or 0)] *)
Definition signal (signals_map : list (string * Z)) (key : string) : Z :=
  match lookup key signals_map with Some z => z | None => 0%Z end.

Section RiskTier.
(** [float(s)] on a string; [None] when it raises [ValueError].  Floats are
    modelled by rationals. *)
Variable float_of_str : string -> option Q.

(** [float(v or d)] *)
Definition float_or (v : value) (d : Q) : py Q :=
  match v with
  | VBool true => Ret 1%Q
  | VInt z => if (z =? 0)%Z then Ret d else Ret (inject_Z z)
  | VFloat q => if Qeq_bool q 0 then Ret d else Ret q
  | VStr s =>
      if String.eqb s "" then Ret d
      else match float_of_str s with
           | Some q => Ret q
           | None => Raise (Exn "ValueError"
                              ("could not convert string to float: " ++ s)%string)
           end
  | VList (_ :: _) | VDict (_ :: _) =>
      Raise (Exn "TypeError"
               "float() argument must be a string or a real number")
  | _ => Ret d
  end.

Definition weight (weights : value) (key : string) : py Q :=
  bind (get weights key (VInt 0)) (fun v => float_or v 0%Q).

Definition weighted (scope : string) (signals_map : list (string * Z))
           (has_cycles : bool) (top_risk_cells : Z)
           (thresholds weights : value) : py (string * string) :=
  let sym := signal signals_map "symbolic" in
  let vol := signal signals_map "volatile" in
  let consts := signal signals_map "constants" in
  let orphans := signal signals_map "orphans" in
  bind (weight weights "cycles") (fun w_cyc =>
  bind (weight weights "top_risk_cells") (fun w_top =>
  bind (weight weights "volatile_hits") (fun w_vol =>
  bind (weight weights "hardcoded_constants") (fun w_const =>
  bind (weight weights "orphan_formulas") (fun w_orph =>
  bind (weight weights "symbolic_refs_per_100") (fun w_sym =>
  let contrib : list (string * Q) :=
    [("cycles", w_cyc * (if has_cycles then 1 else 0));
     ("top_risk_cells", w_top * inject_Z top_risk_cells);
     ("volatile_hits", w_vol * inject_Z vol);
     ("hardcoded_constants", w_const * inject_Z consts);
     ("orphan_formulas", w_orph * inject_Z orphans);
     ("symbolic_refs_per_100", w_sym * (inject_Z sym / 100))]%Q in
  let score := fold_left Qplus (map snd contrib) 0%Q in
  bind (bind (get thresholds "high" (VInt 999999))
          (fun v => float_or v 999999%Q)) (fun high_th =>
  bind (bind (get thresholds "medium" (VInt 999999))
          (fun v => float_or v 999999%Q)) (fun med_th =>
  let tier := if Qle_bool high_th score then "HIGH"
              else if Qle_bool med_th score then "MEDIUM"
              else "LOW" in
  let ranked :=
    sorted_desc (filter (fun kv => negb (Qle_bool (snd kv) 0)) contrib) in
  let top_factors :=
    map (fun kv => match lookup (fst kv) labels with
                   | Some l => l
                   | None => fst kv
                   end) (firstn 3 ranked) in
  Ret (tier, join "; " top_factors))))))))).

Definition toggle (scoring_cfg : value) (scope key : string) : bool :=
  truthy (_cfg_get scoring_cfg (scope ++ "." ++ key)%string (VBool true)).

Definition reason_bit (n : Z) (suffix : string) : list string :=
  if (0 <? n)%Z then [(str_of_Z n ++ suffix)%string] else [].

Definition fallback (scope : string) (signals_map : list (string * Z))
           (has_cycles : bool) (top_risk_cells : Z) (scoring_cfg : value)
  : string * string :=
  let treat_symbolic_as_medium := toggle scoring_cfg scope "symbolic_counts_as_medium" in
  let treat_toprisk_as_medium := toggle scoring_cfg scope "top_risk_counts_as_medium" in
  let treat_volatile_as_medium := toggle scoring_cfg scope "volatile_counts_as_medium" in
  let treat_constants_as_medium := toggle scoring_cfg scope "constants_counts_as_medium" in
  let treat_orphans_as_medium := toggle scoring_cfg scope "orphans_counts_as_medium" in
  let cycles_make_high := toggle scoring_cfg scope "cycles_make_high" in
  let sym := signal signals_map "symbolic" in
  let vol := signal signals_map "volatile" in
  let consts := signal signals_map "constants" in
  let orphans := signal signals_map "orphans" in
  let tier :=
    if cycles_make_high && has_cycles then "HIGH"
    else if (treat_toprisk_as_medium && (0 <? top_risk_cells)%Z)
            || (treat_volatile_as_medium && (0 <? vol)%Z)
            || (treat_symbolic_as_medium && (0 <? sym)%Z)
            || (treat_constants_as_medium && (0 <? consts)%Z)
            || (treat_orphans_as_medium && (0 <? orphans)%Z)
    then "MEDIUM"
    else "LOW" in
  let reason_bits :=
    (if has_cycles then ["circular dependency"] else [])
    ++ reason_bit top_risk_cells " high-impact cell(s)"
    ++ reason_bit vol " volatile hit(s)"
    ++ reason_bit sym " symbolic ref(s)"
    ++ reason_bit consts " embedded constant(s)"
    ++ reason_bit orphans " orphan formula(s)" in
  (tier, join "; " reason_bits).

Definition is_dict (v : value) : bool :=
  match v with VDict _ => true | _ => false end.

Definition _compute_risk_tier (scope : string) (signals_map : list (string * Z))
           (has_cycles : bool) (top_risk_cells : Z) (scoring_cfg : value)
  : py (string * string) :=
  let thresholds := _cfg_get scoring_cfg (scope ++ ".thresholds")%string VNone in
  let weights := _cfg_get scoring_cfg (scope ++ ".weights")%string VNone in
  let overrides := or_else (_cfg_get scoring_cfg "overrides" (VDict [])) (VDict []) in
  bind (get overrides "cycle_always_high" (VBool true)) (fun flag =>
  if truthy flag && has_cycles
  then Ret ("HIGH", "circular dependency detected")
  else if is_dict thresholds && is_dict weights
  then weighted scope signals_map has_cycles top_risk_cells thresholds weights
  else Ret (fallback scope signals_map has_cycles top_risk_cells scoring_cfg)).
End RiskTier.

End Main.

(** ** Notions used to state the properties *)

Module Notions.
Import Py Re References Nx Graph Drift Main.

(** The graph a call leaves behind. *)
Definition graph_after
           (r : py unit * option DiGraph * option (list SymbolicEdge))
  : option DiGraph := snd (fst r).

(** [dep -> n] is in [g] with both ends. *)
Definition linked (g : DiGraph) (dep n : string) : Prop :=
  has_node g n = true /\ has_edge g dep n = true.

(** The generator yields [cs] and then raises [e]. *)
Fixpoint raises_after {A : Type} (s : gen A) (cs : list A) (e : exn) : Prop :=
  match s, cs with
  | GRaise e', [] => e' = e
  | GYield a next, c :: cs' => a = c /\ raises_after next cs' e
  | _, _ => False
  end.

(** The generator yields at least [cs]. *)
Fixpoint yields {A : Type} (s : gen A) (cs : list A) : Prop :=
  match cs, s with
  | [], _ => True
  | c :: cs', GYield a next => a = c /\ yields next cs'
  | _ :: _, _ => False
  end.



Definition flag_path : string := "overrides.cycle_always_high".

(** The dotted lookup of the flag falls back on its default. *)
Definition flag_absent (scoring_cfg : value) : Prop :=
  forall d, _cfg_get scoring_cfg flag_path d = d.

(** The dotted lookup of the flag finds [True]. *)
Definition flag_true (scoring_cfg : value) : Prop :=
  forall d, _cfg_get scoring_cfg flag_path d = VBool true.

(** What [overrides] is bound to in [_compute_risk_tier]. *)
Definition overrides_of (scoring_cfg : value) : value :=
  or_else (_cfg_get scoring_cfg "overrides" (VDict [])) (VDict []).

(** The [overrides] entry is missing, falsy, or a mapping. *)
Definition overrides_is_mapping (scoring_cfg : value) : Prop :=
  is_dict (overrides_of scoring_cfg) = true.

(** The successors recorded anywhere in [g], each once. *)
Definition targets (g : DiGraph) : list string :=
  nodup string_dec (flat_map snd g).

Definition unvisited (g : DiGraph) (visited : list string) : nat :=
  List.length (filter (fun y => negb (mem_str y visited)) (targets g)).

End Notions.

(** ** Concrete workbooks and configurations *)

Module Scenarios.
Import Py References Nx Graph Main.

(** The tokens of a formula as the scan hands them to the graph builder. *)
Definition tokens_of (formula : string) : option (list ref_like) :=
  Some (map (fun d => RefObj (from_dict d)) (extract_reference_tokens formula)).

(** The sheet with [B1 = A1], [C1 = B1], [D1 = C1], scanned in this order
    into an empty graph. *)
Definition chain_graph : option DiGraph :=
  let sheet := Some "Sheet1" in
  let '(_, g1, _) :=
    build_dependency_graph sheet (Some "B1") (tokens_of "=A1") (Some []) None in
  let '(_, g2, _) :=
    build_dependency_graph sheet (Some "C1") (tokens_of "=B1") g1 None in
  let '(_, g3, _) :=
    build_dependency_graph sheet (Some "D1") (tokens_of "=C1") g2 None in
  g3.

Definition chain : DiGraph :=
  [("Sheet1!B1", ["Sheet1!A1"]); ("Sheet1!A1", []);
   ("Sheet1!C1", ["Sheet1!B1"]); ("Sheet1!D1", ["Sheet1!C1"])].

(** Two cells that refer to each other. *)
Definition two_cycle : DiGraph :=
  add_edge "Sheet1!B1" "Sheet1!A1" (add_edge "Sheet1!A1" "Sheet1!B1" []).

(** An enumeration that fails after its first cycle. *)
Definition failing_cycles (g : DiGraph) : gen (list string) :=
  GYield ["Sheet1!A1"; "Sheet1!B1"]
    (GRaise (Exn "RecursionError" "maximum recursion depth exceeded")).

(** A configuration with weights and thresholds under which the score of
    the signals alone would be ["LOW"]. *)
Definition weighted_cfg : value :=
  VDict [("sheet",
          VDict [("thresholds", VDict [("high", VInt 10); ("medium", VInt 3)]);
                 ("weights", VDict [("volatile_hits", VInt 2)])]);
         ("overrides", VDict [("cycle_always_high", VBool true)])].

End Scenarios.

(** ** sheetguard/detectors/circular.py *)

Module Circular.
Import Py Nx Graph.

(** An item of the findings; ["cells"] holds the entry of [detect_cycles]
    as it is. *)
Record CircItem : Type := mkCircItem {
  cycle_type : string;
  ci_cells : cycle_entry;
  explanation : string
}.

Record CircFindings : Type := mkCircFindings {
  rule_id : string;
  severity : string;
  cycle_count : nat;
  items : list CircItem
}.

(** [len(cyc)] on an entry of [detect_cycles], a dictionary: the number of
    its keys, ["type"] and ["cells"], and ["details"] when it is there. *)
Definition dict_len (c : cycle_entry) : nat :=
  match details c with Some _ => 3 | None => 2 end.

Definition item_of (cyc : cycle_entry) : CircItem :=
  if dict_len cyc =? 1
  then mkCircItem "self_reference" cyc
         "Formula references itself directly (self-loop)."
  else mkCircItem "multi_cell_cycle" cyc
         "Cells form a dependency loop (multi-node cycle).".

Section Findings.
Variable simple_cycles : DiGraph -> gen (list string).

(** [detect_cycles(g)] is called with its default limit, 25. *)
Definition circular_reference_findings (g : DiGraph) : py CircFindings :=
  bind (detect_cycles simple_cycles g 25)
    (fun cycles =>
       Ret (mkCircFindings "CIRCULAR_REFERENCE"
              (match cycles with [] => "LOW" | _ => "HIGH" end)
              (List.length cycles)
              (map item_of cycles))).
End Findings.

End Circular.

(** ** sheetguard/detectors/impact.py: the ranking *)

Module Ranking.
Import Py Nx Impact.

(** A scored node, the tuple [(reach, fan_out, n)]. *)
Definition scored : Type := (nat * nat * string)%type.

Definition score_node (g : DiGraph) (n : string) : option (py scored) :=
  match downstream_reach g n default_max_nodes with
  | None => None
  | Some (Raise e) => Some (Raise e)
  | Some (Ret reach) =>
      match out_degree g n with
      | Raise e => Some (Raise e)
      | Ret fan_out => Some (Ret (reach, fan_out, n))
      end
  end.

Fixpoint score_all (g : DiGraph) (formula_nodes : list string)
  : option (py (list scored)) :=
  match formula_nodes with
  | [] => Some (Ret [])
  | n :: rest =>
      match score_node g n with
      | None => None
      | Some (Raise e) => Some (Raise e)
      | Some (Ret x) =>
          match score_all g rest with
          | None => None
          | Some (Raise e) => Some (Raise e)
          | Some (Ret xs) => Some (Ret (x :: xs))
          end
      end
  end.

(** The order of tuples: by reach, then by fan-out, then by the text of the
    node. *)
Definition scored_leb (a b : scored) : bool :=
  let '(r1, f1, n1) := a in
  let '(r2, f2, n2) := b in
  (r1 <? r2)
  || ((r1 =? r2) && ((f1 <? f2) || ((f1 =? f2) && String.leb n1 n2))).

(** [scored.sort(reverse=True)]: decreasing, equal tuples in their order. *)
Fixpoint insert_desc (x : scored) (l : list scored) : list scored :=
  match l with
  | [] => [x]
  | y :: t => if scored_leb x y then y :: insert_desc x t else x :: y :: t
  end.

Definition sort_desc (l : list scored) : list scored :=
  fold_left (fun acc x => insert_desc x acc) l [].

(** [l[:n]] for an integer [n]: a negative [n] counts from the end. *)
Definition slice_to {A : Type} (n : Z) (l : list A) : list A :=
  if (0 <=? n)%Z then firstn (Z.to_nat n) l
  else firstn (List.length l - Z.to_nat (- n)) l.

Record RankEntry : Type := mkRankEntry {
  cell : string;
  rk_downstream_reach : nat;
  direct_fan_out : nat;
  rk_explanation : string
}.

Definition entry_of (x : scored) : RankEntry :=
  let '(reach, fan_out, n) := x in
  mkRankEntry n reach fan_out
    "High impact radius: many downstream dependents.".

Definition rank_high_risk_cells (g : DiGraph) (formula_nodes : list string)
           (top_n : Z) : option (py (list RankEntry)) :=
  match score_all g formula_nodes with
  | None => None
  | Some (Raise e) => Some (Raise e)
  | Some (Ret scored) => Some (Ret (map entry_of (slice_to top_n (sort_desc scored))))
  end.

End Ranking.

(** ** sheetguard/cli/main.py: cell references and trial settings *)

Module MainMore.
Import Py Nx Main.

(** [ref.split("!", 1)] when ["!"] occurs in [ref]. *)
Fixpoint split_bang (acc : list ascii) (l : list ascii)
  : option (list ascii * list ascii) :=
  match l with
  | [] => None
  | c :: t =>
      if Ascii.eqb c "!" then Some (rev acc, t) else split_bang (c :: acc) t
  end.

Definition _split_cell_ref (s : string) : string * string :=
  if String.eqb s "" then ("", "")
  else match split_bang [] (chars s) with
       | Some (sh, addr) => (str sh, str addr)
       | None => ("", s)
       end.

(** [d.get(key, {}) if isinstance(d.get(key, {}), dict) else {}] *)
Definition section_of (d : list (string * value)) (key : string)
  : list (string * value) :=
  match lookup key d with
  | Some (VDict x) => x
  | _ => []
  end.

Section Trial.
(** [int(s)] on a string; [None] when it raises [ValueError]. *)
Variable int_of_str : string -> option Z.

(** [int(v or d)]; a float is cut towards zero. *)
Definition int_or (v : value) (d : Z) : py Z :=
  match v with
  | VBool true => Ret 1%Z
  | VInt z => if (z =? 0)%Z then Ret d else Ret z
  | VFloat q => if Qeq_bool q 0 then Ret d
                else Ret (Z.quot (Qnum q) (Zpos (Qden q)))
  | VStr s =>
      if String.eqb s "" then Ret d
      else match int_of_str s with
           | Some z => Ret z
           | None => Raise (Exn "ValueError"
                              ("invalid literal for int() with base 10: " ++ s)%string)
           end
  | VList (_ :: _) | VDict (_ :: _) =>
      Raise (Exn "TypeError"
               "int() argument must be a string, a bytes-like object or a real number")
  | _ => Ret d
  end.

(** The result dictionary, as [(enabled, formula_limit)]. *)
Definition _trial_settings (cfg : list (string * value)) (trial_flag : bool)
  : py (bool * Z) :=
  let app := section_of cfg "app" in
  let trial_cfg := section_of app "trial" in
  let enabled_default :=
    truthy (match lookup "enabled_default" trial_cfg with
            | Some v => v
            | None => VBool false
            end) in
  bind (int_or (match lookup "formula_limit" trial_cfg with
                | Some v => v
                | None => VInt 100
                end) 100)
    (fun limit => Ret (trial_flag || enabled_default, Z.max 1 limit)).
End Trial.

End MainMore.

(** ** sheetguard/cli/main.py: tiers per sheet and for the workbook *)

Module Aggregate.
Import Py Nx Graph Main MainMore.






Section Blocks.
Variable float_of_str : string -> option Q.





End Blocks.

End Aggregate.

(** ** sheetguard/detectors/orphans.py *)

Module Orphans.
Import Py Nx Main MainMore.

(** The keys of [cfg] the detector reads; [None] for a key that is not
    there.  The flags are booleans and the cap is an integer. *)
Record Config : Type := mkConfig {
  enabled : option bool;
  exclude_sheets : list string;
  exclude_named_ranges : option bool;
  exclude_last_row_or_col : option bool;
  exclude_last_row_col : option bool;
  exclude_last_row : option bool;
  exclude_last_column : option bool;
  max_findings : option Z
}.

Definition empty_config : Config :=
  mkConfig None [] None None None None None None.

(** [bool(cfg.get(key, d))] *)
Definition flag (o : option bool) (d : bool) : bool :=
  match o with Some b => b | None => d end.

Record OrphanFinding : Type := mkOrphan {
  sheet : string;
  cell : string;
  formula : string;
  reason : string
}.

Definition default_reason : string :=
  "formula not referenced by any other formula cell".

(** [g.predecessors(node)]: the nodes with an edge to [node]; it raises
    [NetworkXError] for a node that is not in [g].  The nodes are listed in
    the order of the graph; the detector only asks whether one of them is a
    formula node. *)
Definition predecessors (g : DiGraph) (node : string) : py (list string) :=
  if has_node g node
  then Ret (filter (fun u => has_edge g u node) (nodes g))
  else Raise (Exn "NetworkXError"
                ("The node " ++ node ++ " is not in the digraph.")%string).

(** The [try] around the loop over the predecessors. *)
Definition used_by_formula (g : DiGraph) (formula_nodes : list string)
           (node : string) : bool :=
  match predecessors g node with
  | Ret preds => existsb (fun p => mem_str p formula_nodes) preds
  | Raise _ => false
  end.

Section Detector.
(** The two functions of [openpyxl.utils.cell]; [None] for the module when
    the import failed, [None] for a result when the call raises. *)
Variable coordinate_from_string : option (string -> option (string * Z)).
Variable column_index_from_string : option (string -> option Z).

Definition _parse_a1 (addr : string) : Z * Z :=
  if String.eqb addr "" then (0, 0)%Z
  else
    match coordinate_from_string, column_index_from_string with
    | Some coord, Some col_index =>
        match coord addr with
        | Some (col_letters, row_num) =>
            match col_index col_letters with
            | Some col_num => (row_num, col_num)
            | None => (0, 0)%Z
            end
        | None => (0, 0)%Z
        end
    | _, _ => (0, 0)%Z
    end.

Definition nonzero (z : Z) : bool := negb (z =? 0)%Z.

(** The boundary tests of the loop: [true] when the node is passed over. *)
Definition on_boundary (cfg : Config) (sheet_max_rc : list (string * (Z * Z)))
           (sh addr : string) : bool :=
  let exclude_last_row := flag (exclude_last_row cfg) false in
  let exclude_last_column := flag (exclude_last_column cfg) false in
  let exclude_boundary_any :=
    flag (exclude_last_row_or_col cfg) false
    || flag (exclude_last_row_col cfg) false
    || (exclude_last_row && exclude_last_column) in
  if String.eqb addr "" then false
  else
    let '(row, col) := _parse_a1 addr in
    if nonzero row && nonzero col then
      let '(mr, mc) := match lookup sh sheet_max_rc with
                       | Some x => x
                       | None => (0, 0)%Z
                       end in
      (exclude_boundary_any && nonzero mr && nonzero mc
       && ((row =? mr)%Z || (col =? mc)%Z))
      || (exclude_last_row && nonzero mr && (row =? mr)%Z)
      || (exclude_last_column && nonzero mc && (col =? mc)%Z)
    else false.

(** The tests of the loop before the finding is appended: [true] when the
    node is passed over. *)
Definition skipped (g : DiGraph) (formula_nodes : list string) (cfg : Config)
           (sheet_max_rc : list (string * (Z * Z))) (named_cells : list string)
           (node : string) : bool :=
  let '(sh, addr) := _split_cell_ref node in
  String.eqb sh ""
  || mem_str sh (exclude_sheets cfg)
  || (flag (exclude_named_ranges cfg) true && mem_str node named_cells)
  || on_boundary cfg sheet_max_rc sh addr
  || used_by_formula g formula_nodes node.

Fixpoint scan (g : DiGraph) (all_formula_nodes : list string) (cfg : Config)
         (formula_by_node : list (string * string))
         (sheet_max_rc : list (string * (Z * Z))) (named_cells : list string)
         (max_findings : Z) (todo : list string) (out : list OrphanFinding)
  : list OrphanFinding :=
  match todo with
  | [] => out
  | node :: rest =>
      if (Z.of_nat (List.length out) >=? max_findings)%Z then out
      else if skipped g all_formula_nodes cfg sheet_max_rc named_cells node
      then scan g all_formula_nodes cfg formula_by_node sheet_max_rc named_cells
             max_findings rest out
      else
        let '(sh, addr) := _split_cell_ref node in
        let f := match lookup node formula_by_node with
                 | Some x => x
                 | None => ""
                 end in
        scan g all_formula_nodes cfg formula_by_node sheet_max_rc named_cells
          max_findings rest (out ++ [mkOrphan sh addr f default_reason])
  end.

(** The optional arguments are [None] when they are left out. *)
Definition detect_orphan_formulas (g : DiGraph) (formula_nodes : list string)
           (cfg : option Config)
           (formula_by_node : option (list (string * string)))
           (sheet_max_rc : option (list (string * (Z * Z))))
           (named_cells : option (list string)) : list OrphanFinding :=
  let cfg := match cfg with Some c => c | None => empty_config end in
  if negb (flag (enabled cfg) true) then []
  else
    scan g formula_nodes cfg
      (match formula_by_node with Some x => x | None => [] end)
      (match sheet_max_rc with Some x => x | None => [] end)
      (match named_cells with Some x => x | None => [] end)
      (Drift.int_or (max_findings cfg) 200) formula_nodes [].
End Detector.

End Orphans.

(** ** Further notions used to state the properties *)

Module Invariants.
Import Py References Nx Graph Main.


(** The shape networkx keeps: a node has one entry, an entry lists a
    successor once, and every successor is a node. *)
Definition well_formed (g : DiGraph) : Prop :=
  NoDup (nodes g)
  /\ forall u vs, In (u, vs) g ->
                  NoDup vs /\ forall v, In v vs -> has_node g v = true.

(** The records a call appends to the sink, in the order of [refs]. *)
Fixpoint symbolic_records (dep sheet_name : string) (refs : list ref_like)
  : list SymbolicEdge :=
  match refs with
  | [] => []
  | r :: rest =>
      match resolve dep sheet_name r with
      | Some (_, Some e) => e :: symbolic_records dep sheet_name rest
      | _ => symbolic_records dep sheet_name rest
      end
  end.

(** The configuration tree that holds [v] under the keys [keys], one inside
    the other. *)
Fixpoint nest (keys : list string) (v : value) : value :=
  match keys with
  | [] => v
  | k :: rest => VDict [(k, nest rest v)]
  end.

(** The outcome of a call of the builder, and the sink it leaves behind. *)
Definition outcome_of
           (r : py unit * option DiGraph * option (list SymbolicEdge))
  : py unit := fst (fst r).

Definition sink_after
           (r : py unit * option DiGraph * option (list SymbolicEdge))
  : option (list SymbolicEdge) := snd r.

(** What the traversal keeps: [visited] lists a node once, and [visited] and
    the queue hold nodes of the graph. *)
Definition traversal_ok (g : DiGraph) (visited q : list string) : Prop :=
  NoDup visited /\ incl visited (nodes g) /\ incl q (nodes g).

(** [a] is ranked before [b]: a greater reach, or the same reach and a
    fan-out that is not smaller. *)
Definition ranked_before (a b : Ranking.RankEntry) : Prop :=
  Ranking.rk_downstream_reach b < Ranking.rk_downstream_reach a
  \/ (Ranking.rk_downstream_reach b = Ranking.rk_downstream_reach a
      /\ Ranking.direct_fan_out b <= Ranking.direct_fan_out a).

Definition before (a b : Ranking.scored) : Prop :=
  ranked_before (Ranking.entry_of a) (Ranking.entry_of b).

(** What a score records about its node. *)
Definition score_right (g : DiGraph) (x : Ranking.scored) : Prop :=
  let '(reach, fan_out, n) := x in
  Impact.downstream_reach g n Impact.default_max_nodes = Some (Ret reach)
  /\ out_degree g n = Ret fan_out.

(** A test for [well_formed]. *)
Fixpoint nodupb (l : list string) : bool :=
  match l with
  | [] => true
  | x :: t => negb (mem_str x t) && nodupb t
  end.

Definition well_formedb (g : DiGraph) : bool :=
  nodupb (nodes g)
  && forallb (fun e => nodupb (snd e) && forallb (has_node g) (snd e)) g.

(** The operators the detector flags: those configured, or ["*"] and ["/"]
    when none is. *)
Definition effective_operators (cfg : Constants.Config) : list string :=
  match Constants.risky_operators cfg with
  | [] => ["*"; "/"]
  | ops => ops
  end.

(** The cap of the drift detector for a configuration. *)
Definition drift_cap (cfg : Drift.Config) : Z :=
  Drift.int_or (Drift.max_findings cfg) 50.

(** An entry of the row table that comes from the cells of a sheet: its
    address and formula are a cell of the sheet, the address names row [r],
    and the shape is the one of the formula and is not empty. *)
Definition item_from (cells : list (string * string)) (r : Z)
           (it : Drift.item) : Prop :=
  let '(addr, formula, shape) := it in
  In (addr, formula) cells
  /\ Drift.row_of addr = Some r
  /\ shape = Drift.normalize_formula formula
  /\ shape <> "".

Definition rows_from (cells : list (string * string))
           (rows : list (Z * list Drift.item)) : Prop :=
  forall r items it, In (r, items) rows -> In it items -> item_from cells r it.

(** A finding that points at a cell of the input whose shape differs from
    the dominant one. *)
Definition finding_sound (sheets : list (string * list (string * string)))
           (f : Drift.Finding) : Prop :=
  Drift.f_cell_shape f <> Drift.f_dominant_shape f
  /\ Drift.f_cell_shape f = Drift.normalize_formula (Drift.f_formula f)
  /\ Drift.f_cell_shape f <> ""
  /\ Drift.row_of (Drift.f_cell f) = Some (Drift.f_row f)
  /\ exists cells,
      In (Drift.f_sheet f, cells) sheets
      /\ In (Drift.f_cell f, Drift.f_formula f) cells.

(** The cells of a sheet that share a row share a shape. *)
Definition rows_uniform (cells : list (string * string)) : Prop :=
  forall a f a' f' r,
    In (a, f) cells -> In (a', f') cells ->
    Drift.row_of a = Some r -> Drift.row_of a' = Some r ->
    Drift.normalize_formula f = Drift.normalize_formula f'.

(** An orphan finding that names a formula node nothing refers to. *)
Definition orphan_sound (g : DiGraph) (formula_nodes : list string)
           (cfg : Orphans.Config) (named_cells : list string)
           (f : Orphans.OrphanFinding) : Prop :=
  let node := _node_id (Orphans.sheet f) (Orphans.cell f) in
  In node formula_nodes
  /\ Orphans.sheet f <> ""
  /\ ~ In (Orphans.sheet f) (Orphans.exclude_sheets cfg)
  /\ (Orphans.flag (Orphans.exclude_named_ranges cfg) true = true ->
      ~ In node named_cells)
  /\ (forall u, has_node g node = true -> In u formula_nodes ->
                has_edge g u node = false)
  /\ Orphans.reason f = Orphans.default_reason.

(** [v] is reached from [u] over one edge or more. *)
Inductive reaches (g : DiGraph) (u : string) : string -> Prop :=
| reaches_edge (v : string) : has_edge g u v = true -> reaches g u v
| reaches_more (v w : string) :
    reaches g u v -> has_edge g v w = true -> reaches g u w.

(** What the traversal from [start] keeps, beyond [traversal_ok]: the queue
    is part of [visited], every visited node is reached from [start], and
    the successors of a visited node that has left the queue are visited. *)
Definition traversal_sound (g : DiGraph) (start : string)
           (visited q : list string) : Prop :=
  traversal_ok g visited q
  /\ incl q visited
  /\ (forall v, In v visited -> reaches g start v)
  /\ (forall u v, In u visited -> ~ In u q -> has_edge g u v = true ->
                  In v visited).

(** The generator yields [cs] and then ends. *)
Fixpoint stops_after {A : Type} (s : gen A) (cs : list A) : Prop :=
  match s, cs with
  | GStop, [] => True
  | GYield a next, c :: cs' => a = c /\ stops_after next cs'
  | _, _ => False
  end.

(** A text of ASCII characters; on these [upper] is [str.upper]. *)
Definition is_ascii (s : string) : bool :=
  forallb (fun c => code c <? 128) (chars s).

(** The names of [_VOLATILE_FUNCS]. *)
Definition volatile_names : list string :=
  ["NOW"; "TODAY"; "RAND"; "RANDBETWEEN"; "OFFSET"; "INDIRECT"; "CELL"; "INFO"].

(** [h] starts with [n]: the test [find_sub] makes at every position. *)
Fixpoint is_prefix (n h : list ascii) : bool :=
  match n, h with
  | [], _ => true
  | a :: n', b :: h' => Ascii.eqb a b && is_prefix n' h'
  | _ :: _, [] => false
  end.

Definition has_dot (k : string) : bool :=
  existsb (Ascii.eqb ".") (chars k).

Definition has_bang (k : string) : bool :=
  existsb (Ascii.eqb "!") (chars k).

End Invariants.

(** * Properties *)

(** ** Tokenizer *)

Module ReferencesFacts.
Import Py Re References.

(** The four passes on the text [Sheet2!A1:B5]. *)
Lemma passes_on_sheet_range :
  let f := chars "Sheet2!A1:B5" in
  structured_tokens f = []
  /\ sheet_tokens f = [mkRefToken "A1:B5" (Some "Sheet2") "range" false]
  /\ bare_tokens f = [mkRefToken "A1:B5" None "range" false]
  /\ name_tokens f = [mkRefToken "Sheet2" None "symbolic" true].
Proof. vm_compute. repeat split; reflexivity. Qed.

(** C3, on the code: [extract_reference_tokens "=Sheet2!A1:B5"] returns three
    tokens and not one.  The sheet-qualified range comes first; the pass for
    bare addresses matches the same [A1:B5] again and adds it without a
    sheet, and the pass for names adds the sheet name [Sheet2] as a symbolic
    token. *)
Theorem extract_sheet_range_three_tokens :
  extract_reference_tokens "=Sheet2!A1:B5"
  = [to_dict (mkRefToken "A1:B5" (Some "Sheet2") "range" false);
     to_dict (mkRefToken "A1:B5" None "range" false);
     to_dict (mkRefToken "Sheet2" None "symbolic" true)]
  /\ List.length (extract_reference_tokens "=Sheet2!A1:B5") = 3.
Proof. split; vm_compute; reflexivity. Qed.

Example extract_two_cells :
  extract_reference_tokens "=A1+B2"
  = [to_dict (mkRefToken "A1" None "cell" false);
     to_dict (mkRefToken "B2" None "cell" false)].
Proof. vm_compute. reflexivity. Qed.

End ReferencesFacts.

(** ** Hardcoded constants *)

Module ConstantsFacts.
Import Py Re Constants.

Example num_re_matches :
  map (fun m => (m_start m, m_end m)) (finditer _NUM_RE (chars "=A1*1.05"))
  = [(2, 3); (4, 8)]
  /\ map (fun m => (m_start m, m_end m)) (finditer _NUM_RE (chars "=A1+1"))
     = [(2, 3); (3, 5)].
Proof. vm_compute. split; reflexivity. Qed.

(** An empty [risky_operators] is the same configuration as ["*"; "/"]. *)
Lemma risky_operators_fallback (formula : string) (il ifs rf : list string) :
  detect_hardcoded_constants formula (Some (mkConfig il ifs [] rf))
  = detect_hardcoded_constants formula (Some (mkConfig il ifs ["*"; "/"] rf)).
Proof. reflexivity. Qed.

(** C4: with the default configuration, omitted or empty, ["=A1*1.05"] gives
    exactly one hit, of literal ["1.05"] and operator ["*"], and ["=A1+1"]
    gives none: an empty [risky_operators] stands for ["*"] and ["/"], so the
    [+] next to the literal [+1] does not flag it. *)
Theorem hardcoded_constants_default_config :
  detect_hardcoded_constants "=A1*1.05" None
  = [mkHit "1.05" (105 # 100) "*" "" 4 8]
  /\ detect_hardcoded_constants "=A1*1.05" (Some empty_config)
     = [mkHit "1.05" (105 # 100) "*" "" 4 8]
  /\ detect_hardcoded_constants "=A1+1" None = []
  /\ detect_hardcoded_constants "=A1+1" (Some empty_config) = []
  /\ (forall formula il ifs rf,
         detect_hardcoded_constants formula (Some (mkConfig il ifs [] rf))
         = detect_hardcoded_constants formula
             (Some (mkConfig il ifs ["*"; "/"] rf)))
  /\ _nearest_operator (chars "=A1+1") 3 = "+".
Proof.
  split; [vm_compute; reflexivity|].
  split; [vm_compute; reflexivity|].
  split; [vm_compute; reflexivity|].
  split; [vm_compute; reflexivity|].
  split; [|vm_compute; reflexivity].
  intros formula il ifs rf. apply risky_operators_fallback.
Qed.

End ConstantsFacts.

(** ** Impact ranking *)

Module ImpactFacts.
Import Py References Nx Graph Impact Scenarios.


Lemma chain_graph_built : chain_graph = Some chain.
Proof. vm_compute. reflexivity. Qed.

(** C2, on the code: in the chain built by [build_dependency_graph] the edges
    run from a formula cell to the cell it refers to, and [downstream_reach]
    follows them: it is 0 for [A1] and 3 for [D1], the reverse of the
    ranking the claim states. *)
Theorem chain_reach_is_reversed :
  chain_graph = Some chain
  /\ Impact.downstream_reach chain "Sheet1!A1" default_max_nodes = Some (Ret 0)
  /\ Impact.downstream_reach chain "Sheet1!B1" default_max_nodes = Some (Ret 1)
  /\ Impact.downstream_reach chain "Sheet1!C1" default_max_nodes = Some (Ret 2)
  /\ Impact.downstream_reach chain "Sheet1!D1" default_max_nodes = Some (Ret 3).
Proof.
  split; [exact chain_graph_built|].
  split; [vm_compute; reflexivity|].
  split; [vm_compute; reflexivity|].
  split; vm_compute; reflexivity.
Qed.

(** C5, on the code: when [start] lies on a cycle it is put into [visited]
    on the way back, and counted.  In the graph of two nodes [A1 -> B1 -> A1]
    only one node differs from the start, and the reach returned for [A1]
    is 2; for a cell that refers to itself it is 1.  The function of the same
    name in [core/graph.py] leaves the start out and gives 1 and 0. *)
Theorem reach_counts_start_on_cycle :
  nodes two_cycle = ["Sheet1!A1"; "Sheet1!B1"]
  /\ Impact.downstream_reach two_cycle "Sheet1!A1" default_max_nodes
     = Some (Ret 2)
  /\ Impact.downstream_reach (add_edge "Sheet1!A1" "Sheet1!A1" []) "Sheet1!A1"
       default_max_nodes = Some (Ret 1)
  /\ Graph.downstream_reach two_cycle "Sheet1!A1" = 1
  /\ Graph.downstream_reach (add_edge "Sheet1!A1" "Sheet1!A1" []) "Sheet1!A1" = 0.
Proof.
  split; [vm_compute; reflexivity|].
  split; [vm_compute; reflexivity|].
  split; [vm_compute; reflexivity|].
  split; vm_compute; reflexivity.
Qed.

End ImpactFacts.

(** ** Graph builder *)

Module NxFacts.
Import Py Nx.

Lemma lookup_app {V : Type} (k : string) (l l' : list (string * V)) :
  lookup k (l ++ l')
  = match lookup k l with Some v => Some v | None => lookup k l' end.
Proof.
  induction l as [|[k' v] l IH]; simpl; [reflexivity|].
  destruct (String.eqb k' k); [reflexivity | exact IH].
Qed.

Lemma mem_str_app (x : string) (l l' : list string) :
  mem_str x (l ++ l') = mem_str x l || mem_str x l'.
Proof. unfold mem_str. apply existsb_app. Qed.

Lemma set_add_present (v : string) (vs : list string) :
  mem_str v vs = true -> set_add v vs = vs.
Proof. intros H. unfold set_add. rewrite H. reflexivity. Qed.

Lemma mem_set_add_same (v : string) (vs : list string) :
  mem_str v (set_add v vs) = true.
Proof.
  unfold set_add. destruct (mem_str v vs) eqn:E; [exact E|].
  rewrite mem_str_app. unfold mem_str at 2. simpl.
  rewrite String.eqb_refl. apply orb_true_r.
Qed.

Lemma mem_set_add_mono (w v : string) (vs : list string) :
  mem_str w vs = true -> mem_str w (set_add v vs) = true.
Proof.
  intros H. unfold set_add. destruct (mem_str v vs); [exact H|].
  rewrite mem_str_app, H. reflexivity.
Qed.

Lemma add_node_present (n : string) (g : DiGraph) :
  has_node g n = true -> add_node n g = g.
Proof. intros H. unfold add_node. rewrite H. reflexivity. Qed.

Lemma lookup_add_node_old (k n : string) (g : DiGraph) (vs : list string) :
  lookup k g = Some vs -> lookup k (add_node n g) = Some vs.
Proof.
  intros H. unfold add_node. destruct (has_node g n); [exact H|].
  rewrite lookup_app, H. reflexivity.
Qed.

Lemma has_node_add_node_same (n : string) (g : DiGraph) :
  has_node (add_node n g) n = true.
Proof.
  unfold add_node. destruct (has_node g n) eqn:E; [exact E|].
  unfold has_node in *. rewrite lookup_app.
  destruct (lookup n g); [reflexivity|].
  simpl. rewrite String.eqb_refl. reflexivity.
Qed.

Lemma has_node_add_node_mono (m n : string) (g : DiGraph) :
  has_node g m = true -> has_node (add_node n g) m = true.
Proof.
  unfold has_node. intros H. destruct (lookup m g) as [vs|] eqn:E; [|discriminate].
  rewrite (lookup_add_node_old _ _ _ _ E). reflexivity.
Qed.

Lemma lookup_update_adj (k u : string) (f : list string -> list string)
      (g : DiGraph) :
  lookup k (update_adj u f g)
  = if String.eqb u k then option_map f (lookup k g) else lookup k g.
Proof.
  induction g as [|[k' vs] g IH]; simpl.
  - destruct (String.eqb u k); reflexivity.
  - destruct (String.eqb k' u) eqn:Eu; simpl.
    + apply String.eqb_eq in Eu. subst k'.
      destruct (String.eqb u k); reflexivity.
    + destruct (String.eqb k' k) eqn:Ek.
      * apply String.eqb_eq in Ek. subst k'.
        rewrite String.eqb_sym, Eu. reflexivity.
      * exact IH.
Qed.

Lemma update_adj_fixed (u : string) (f : list string -> list string)
      (g : DiGraph) (vs : list string) :
  lookup u g = Some vs -> f vs = vs -> update_adj u f g = g.
Proof.
  induction g as [|[k' ws] g IH]; simpl; intros Hl Hf; [reflexivity|].
  destruct (String.eqb k' u).
  - injection Hl as ->. rewrite Hf. reflexivity.
  - rewrite (IH Hl Hf). reflexivity.
Qed.

Lemma has_edge_has_node (g : DiGraph) (u v : string) :
  has_edge g u v = true -> has_node g u = true.
Proof.
  unfold has_edge, has_node. destruct (lookup u g); [reflexivity | discriminate].
Qed.

(** An edge that is there is inserted as a no-op. *)
Lemma add_edge_present (u v : string) (g : DiGraph) :
  has_node g v = true -> has_edge g u v = true -> add_edge u v g = g.
Proof.
  intros Hv He. unfold add_edge.
  rewrite (add_node_present u g (has_edge_has_node _ _ _ He)).
  rewrite (add_node_present v g Hv).
  unfold has_edge in He. destruct (lookup u g) as [vs|] eqn:E; [|discriminate].
  apply (update_adj_fixed _ _ _ vs E). apply set_add_present. exact He.
Qed.

Lemma has_node_update_adj (n u : string) (f : list string -> list string)
      (g : DiGraph) :
  has_node (update_adj u f g) n = has_node g n.
Proof.
  unfold has_node. rewrite lookup_update_adj.
  destruct (String.eqb u n); [|reflexivity].
  destruct (lookup n g); reflexivity.
Qed.

Lemma add_edge_keeps_node (n u v : string) (g : DiGraph) :
  has_node g n = true -> has_node (add_edge u v g) n = true.
Proof.
  intros H. unfold add_edge. rewrite has_node_update_adj.
  apply has_node_add_node_mono, has_node_add_node_mono, H.
Qed.

Lemma add_edge_has_target (u v : string) (g : DiGraph) :
  has_node (add_edge u v g) v = true.
Proof.
  unfold add_edge. rewrite has_node_update_adj. apply has_node_add_node_same.
Qed.

Lemma add_edge_has_source (u v : string) (g : DiGraph) :
  has_node (add_edge u v g) u = true.
Proof.
  unfold add_edge. rewrite has_node_update_adj.
  apply has_node_add_node_mono, has_node_add_node_same.
Qed.

Lemma add_edge_has_edge (u v : string) (g : DiGraph) :
  has_edge (add_edge u v g) u v = true.
Proof.
  unfold add_edge, has_edge. rewrite lookup_update_adj, String.eqb_refl.
  pose proof (has_node_add_node_mono u v (add_node u g)
                (has_node_add_node_same u g)) as H.
  unfold has_node in H.
  destruct (lookup u (add_node v (add_node u g))) as [vs|]; [|discriminate].
  simpl. apply mem_set_add_same.
Qed.

Lemma add_edge_keeps_edge (a b u v : string) (g : DiGraph) :
  has_edge g a b = true -> has_edge (add_edge u v g) a b = true.
Proof.
  unfold has_edge. intros H.
  destruct (lookup a g) as [vs|] eqn:E; [|discriminate].
  unfold add_edge. rewrite lookup_update_adj.
  rewrite (lookup_add_node_old _ _ _ _ (lookup_add_node_old _ _ _ _ E)).
  destruct (String.eqb u a); simpl; [apply mem_set_add_mono|]; exact H.
Qed.

End NxFacts.

(** ** The traversal of [downstream_reach] never runs out of fuel *)

Module ReachFacts.
Import Py Nx Impact Notions NxFacts.

Lemma mem_str_snoc (y x : string) (l : list string) :
  mem_str y (l ++ [x]) = mem_str y l || String.eqb y x.
Proof.
  rewrite mem_str_app. unfold mem_str at 2. simpl.
  rewrite orb_false_r. reflexivity.
Qed.

Lemma filter_snoc_absent (x : string) (V N : list string) :
  ~ In x N ->
  filter (fun y => negb (mem_str y (V ++ [x]))) N
  = filter (fun y => negb (mem_str y V)) N.
Proof.
  intros Hx. apply filter_ext_in. intros y Hy. rewrite mem_str_snoc.
  destruct (String.eqb_spec y x) as [-> | _]; [contradiction|].
  rewrite orb_false_r. reflexivity.
Qed.

Lemma filter_snoc_once (x : string) (V N : list string) :
  NoDup N -> In x N -> mem_str x V = false ->
  S (List.length (filter (fun y => negb (mem_str y (V ++ [x]))) N))
  = List.length (filter (fun y => negb (mem_str y V)) N).
Proof.
  intros Hnd. induction Hnd as [|y N Hy Hnd IH]; intros Hin Hx; [destruct Hin|].
  simpl. rewrite mem_str_snoc.
  destruct (String.eqb_spec y x) as [-> | Hne].
  - rewrite Hx, orb_true_r. simpl.
    rewrite (filter_snoc_absent x V N Hy). reflexivity.
  - rewrite orb_false_r. destruct Hin as [Heq | Hin]; [contradiction|].
    destruct (mem_str y V); simpl; rewrite <- (IH Hin Hx); reflexivity.
Qed.

Lemma unvisited_snoc (g : DiGraph) (x : string) (visited : list string) :
  In x (flat_map snd g) -> mem_str x visited = false ->
  S (unvisited g (visited ++ [x])) = unvisited g visited.
Proof.
  intros Hin Hx. unfold unvisited, targets.
  apply filter_snoc_once; [apply NoDup_nodup | apply nodup_In, Hin | exact Hx].
Qed.

(** Queueing the new successors keeps [|q| + unvisited] as it is. *)
Lemma visit_new_measure (g : DiGraph) (ss : list string) :
  forall visited q,
    incl ss (flat_map snd g) ->
    List.length (snd (visit_new ss visited q))
    + unvisited g (fst (visit_new ss visited q))
    = List.length q + unvisited g visited.
Proof.
  induction ss as [|x ss IH]; intros visited q Hincl; simpl; [reflexivity|].
  assert (Hss : incl ss (flat_map snd g)).
  { intros y Hy. apply Hincl. right. exact Hy. }
  destruct (mem_str x visited) eqn:E; [apply IH, Hss|].
  rewrite (IH _ _ Hss), length_app. simpl.
  rewrite <- (unvisited_snoc g x visited (Hincl x (or_introl eq_refl)) E). lia.
Qed.

Lemma lookup_incl_targets (g : DiGraph) (n : string) (vs : list string) :
  lookup n g = Some vs -> incl vs (flat_map snd g).
Proof.
  induction g as [|[k ws] g IH]; simpl; [discriminate|].
  destruct (String.eqb k n).
  - intros H. injection H as ->. intros y Hy. apply in_or_app. left. exact Hy.
  - intros H y Hy. apply in_or_app. right. exact (IH H y Hy).
Qed.

Lemma bfs_enough_fuel (g : DiGraph) (max_nodes : Z) (fuel : nat) :
  forall visited q,
    List.length q + unvisited g visited < fuel ->
    bfs fuel g max_nodes visited q <> None.
Proof.
  induction fuel as [|fuel IH]; intros visited q Hlt; [lia|].
  simpl. destruct q as [|node q]; [discriminate|].
  destruct (Z.of_nat (List.length visited) <? max_nodes)%Z; [|discriminate].
  unfold successors. destruct (lookup node g) as [ss|] eqn:E; [|discriminate].
  pose proof (visit_new_measure g ss visited q (lookup_incl_targets g node ss E))
    as Hm.
  destruct (visit_new ss visited q) as [visited' q']. simpl in Hm.
  apply IH. simpl in Hlt. lia.
Qed.

Lemma visit_all_queue (ss : list string) :
  forall visited q,
    List.length (snd (visit_all ss visited q)) = List.length q + List.length ss.
Proof.
  induction ss as [|x ss IH]; intros visited q; simpl; [lia|].
  rewrite IH, length_app. simpl. lia.
Qed.

Lemma unvisited_le (g : DiGraph) (visited : list string) :
  unvisited g visited <= List.length (flat_map snd g).
Proof.
  unfold unvisited, targets.
  etransitivity; [apply filter_length_le|].
  apply NoDup_incl_length; [apply NoDup_nodup|].
  intros y Hy. apply nodup_In in Hy. exact Hy.
Qed.

(** [downstream_reach] always comes to an end: it returns a count, or raises
    for a node that is not in the graph. *)
Lemma downstream_reach_terminates (g : DiGraph) (start : string) (max_nodes : Z) :
  Impact.downstream_reach g start max_nodes <> None.
Proof.
  unfold downstream_reach, successors, bfs_fuel.
  destruct (lookup start g) as [ss|]; [|discriminate].
  pose proof (visit_all_queue ss [] []) as Hq.
  destruct (visit_all ss [] []) as [visited q]. simpl in Hq.
  pose proof (bfs_enough_fuel g max_nodes
                (S (List.length (flat_map snd g) + List.length ss)) visited q) as H.
  pose proof (unvisited_le g visited) as Hu.
  destruct (bfs _ g max_nodes visited q) as [[v|e]|]; try discriminate.
  exfalso. apply H; [lia | reflexivity].
Qed.

End ReachFacts.

Module GraphFacts.
Import Py References Nx Graph NxFacts Notions.

Lemma linked_add_edge (dep n u v : string) (g : DiGraph) :
  linked g dep n -> linked (add_edge u v g) dep n.
Proof.
  intros [Hn He]. split.
  - apply add_edge_keeps_node, Hn.
  - apply add_edge_keeps_edge, He.
Qed.

Lemma add_refs_keeps_node (dep sn n : string) (refs : list ref_like) :
  forall g sink,
    has_node g n = true ->
    has_node (fst (add_refs dep sn refs g sink)) n = true.
Proof.
  induction refs as [|r refs IH]; intros g sink H; simpl; [exact H|].
  destruct (resolve dep sn r) as [[m e]|]; apply IH; [|exact H].
  apply add_edge_keeps_node, H.
Qed.

Lemma add_refs_keeps_linked (dep sn n : string) (refs : list ref_like) :
  forall g sink,
    linked g dep n -> linked (fst (add_refs dep sn refs g sink)) dep n.
Proof.
  induction refs as [|r refs IH]; intros g sink H; simpl; [exact H|].
  destruct (resolve dep sn r) as [[m e]|]; apply IH; [|exact H].
  apply linked_add_edge, H.
Qed.

(** Every entry that is not skipped is linked once the loop is over. *)
Lemma add_refs_links (dep sn : string) (refs : list ref_like) :
  forall g sink r n e,
    In r refs -> resolve dep sn r = Some (n, e) ->
    linked (fst (add_refs dep sn refs g sink)) dep n.
Proof.
  induction refs as [|r0 refs IH]; intros g sink r n e Hin Hr; [destruct Hin|].
  simpl. destruct Hin as [-> | Hin].
  - rewrite Hr. apply add_refs_keeps_linked. split.
    + apply add_edge_has_target.
    + apply add_edge_has_edge.
  - destruct (resolve dep sn r0) as [[m e0]|]; eapply IH; eauto.
Qed.

(** Over a graph that holds all the edges the loop leaves the graph alone,
    whatever the sink. *)
Lemma add_refs_fixed (dep sn : string) (refs : list ref_like) :
  forall g sink,
    (forall r n e, In r refs -> resolve dep sn r = Some (n, e) -> linked g dep n) ->
    fst (add_refs dep sn refs g sink) = g.
Proof.
  induction refs as [|r0 refs IH]; intros g sink H; simpl; [reflexivity|].
  destruct (resolve dep sn r0) as [[m e0]|] eqn:E.
  - destruct (H r0 m e0 (or_introl eq_refl) E) as [Hn He].
    rewrite (add_edge_present dep m g Hn He).
    apply IH. intros r n e Hin. apply H. right. exact Hin.
  - apply IH. intros r n e Hin. apply H. right. exact Hin.
Qed.

Lemma add_dep_node (g : DiGraph) (dep : string) :
  (if negb (has_node g dep) then add_node dep g else g) = add_node dep g.
Proof.
  destruct (has_node g dep) eqn:E; simpl; [|reflexivity].
  symmetry. apply add_node_present, E.
Qed.

Lemma build_graph_after (sn ca : string) (refs : list ref_like) (g : DiGraph)
      (sink : option (list SymbolicEdge)) :
  graph_after (build_dependency_graph (Some sn) (Some ca) (Some refs) (Some g) sink)
  = Some (fst (add_refs (_node_id sn ca) sn refs (add_node (_node_id sn ca) g) sink)).
Proof.
  unfold build_dependency_graph, graph_after. rewrite add_dep_node.
  destruct (add_refs _ _ _ _ _) as [g2 s2]. reflexivity.
Qed.

Lemma build_twice_graph (sn ca : string) (refs : list ref_like) (g : DiGraph)
      (sink sink' : option (list SymbolicEdge)) :
  graph_after
    (build_dependency_graph (Some sn) (Some ca) (Some refs)
       (graph_after
          (build_dependency_graph (Some sn) (Some ca) (Some refs) (Some g) sink))
       sink')
  = graph_after
      (build_dependency_graph (Some sn) (Some ca) (Some refs) (Some g) sink).
Proof.
  rewrite (build_graph_after sn ca refs g sink).
  rewrite build_graph_after. f_equal.
  set (dep := _node_id sn ca).
  set (g1 := fst (add_refs dep sn refs (add_node dep g) sink)).
  assert (Hdep : has_node g1 dep = true).
  { apply add_refs_keeps_node, has_node_add_node_same. }
  rewrite (add_node_present dep g1 Hdep).
  apply add_refs_fixed. intros r n e Hin Hr.
  unfold g1. eapply add_refs_links; eauto.
Qed.

(** C8: a second call of [build_dependency_graph] with the same sheet name,
    cell address and tokens on the graph the first call left behind leaves
    that graph exactly as it is: same nodes, same successors, in the same
    order.  This holds for every sink passed to either call, and also when
    the calls raise for a missing argument. *)
Theorem build_dependency_graph_idempotent
        (sheet_name cell_addr : option string) (refs : option (list ref_like))
        (g : option DiGraph) (sink sink' : option (list SymbolicEdge)) :
  let g1 := graph_after
              (build_dependency_graph sheet_name cell_addr refs g sink) in
  graph_after (build_dependency_graph sheet_name cell_addr refs g1 sink') = g1.
Proof.
  destruct sheet_name as [sn|], cell_addr as [ca|], g as [g|], refs as [refs|];
    try reflexivity.
  cbv zeta. apply build_twice_graph.
Qed.

(** The node set and the edge set after the second call. *)
Corollary build_twice_nodes_edges
          (sn ca : string) (refs : list ref_like) (g : DiGraph)
          (sink sink' : option (list SymbolicEdge)) :
  forall g1 g2,
    graph_after (build_dependency_graph (Some sn) (Some ca) (Some refs) (Some g) sink)
    = Some g1 ->
    graph_after (build_dependency_graph (Some sn) (Some ca) (Some refs) (Some g1) sink')
    = Some g2 ->
    nodes g2 = nodes g1 /\ edges g2 = edges g1.
Proof.
  intros g1 g2 H1 H2.
  pose proof (build_twice_graph sn ca refs g sink sink') as H.
  rewrite H1 in H. rewrite H2 in H. injection H as ->. split; reflexivity.
Qed.

End GraphFacts.

Module BuildErrors.
Import Py References Nx Graph Notions Scenarios.

(** C9: a call in the incremental style that lacks the sheet name, the cell
    address, the tokens or the graph raises [TypeError], and leaves the graph
    object and the sink as they were passed. *)
Theorem build_missing_args_raises
        (sheet_name cell_addr : option string) (refs : option (list ref_like))
        (g : option DiGraph) (sink : option (list SymbolicEdge)) :
  sheet_name = None \/ cell_addr = None \/ refs = None \/ g = None ->
  build_dependency_graph sheet_name cell_addr refs g sink
  = (Raise missing_args, g, sink)
  /\ exn_type missing_args = "TypeError".
Proof.
  intros H. split; [|reflexivity].
  destruct sheet_name, cell_addr, g, refs; try reflexivity.
  destruct H as [H | [H | [H | H]]]; discriminate H.
Qed.

Lemma build_missing_args_raises_witness :
  build_dependency_graph (Some "Sheet1") None
    (Some [RefObj (mkRefToken "A1" None "cell" false)])
    (Some chain) (Some [])
  = (Raise missing_args, Some chain, Some [])
  /\ exn_type missing_args = "TypeError".
Proof.
  apply (build_missing_args_raises (Some "Sheet1") None
           (Some [RefObj (mkRefToken "A1" None "cell" false)])
           (Some chain) (Some [])).
  right. left. reflexivity.
Defined.

End BuildErrors.

(** ** Cycle detection *)

Module CycleFacts.
Import Py Nx Graph Notions Scenarios.

Section Collect.
Variable limit : Z.

Lemma collect_reaches_raise (cs : list (list string)) :
  forall s e out,
    raises_after s cs e ->
    cs = [] \/ (Z.of_nat (List.length out + List.length cs) < limit)%Z ->
    collect s limit out = (Raise e, out ++ map cycle_of cs).
Proof.
  induction cs as [|c cs IH]; intros s e out Hs Hlim.
  - destruct s as [|e'|a next]; simpl in Hs; try contradiction.
    subst e'. simpl. rewrite app_nil_r. reflexivity.
  - destruct s as [|e'|a next]; simpl in Hs; try contradiction.
    destruct Hs as [-> Hs]. destruct Hlim as [Hnil | Hlim]; [discriminate|].
    simpl in Hlim. simpl.
    rewrite length_app. simpl.
    destruct (Z.geb_spec (Z.of_nat (List.length out + 1)) limit) as [Hge | Hlt];
      [lia|].
    rewrite (IH next e (out ++ [cycle_of c]) Hs).
    + rewrite <- app_assoc. reflexivity.
    + right. rewrite length_app. simpl. lia.
Qed.

(** While [out] is short of [limit], the loop ends with at most [limit]
    entries, and with fewer when it ends by an exception. *)
Lemma collect_bounded (s : gen (list string)) :
  forall out,
    (Z.of_nat (List.length out) < limit)%Z ->
    (Z.of_nat (List.length (snd (collect s limit out))) <= limit)%Z
    /\ (forall e, fst (collect s limit out) = Raise e ->
                  (Z.of_nat (List.length (snd (collect s limit out))) < limit)%Z).
Proof.
  induction s as [|e'|a next IH]; intros out Hout; simpl.
  - split; [lia | discriminate].
  - split; [lia | intros; exact Hout].
  - destruct (Z.geb_spec (Z.of_nat (List.length (out ++ [cycle_of a]))) limit)
      as [Hge | Hlt]; simpl.
    + rewrite length_app in *. simpl in *. split; [lia | discriminate].
    + apply IH. exact Hlt.
Qed.

(** Entries appended by the loop are cycles. *)
Lemma collect_only_cycles (s : gen (list string)) :
  forall out,
    Forall (fun c => type_ c = "cycle") out ->
    Forall (fun c => type_ c = "cycle") (snd (collect s limit out)).
Proof.
  induction s as [|e'|a next IH]; intros out Hout; simpl; try exact Hout.
  assert (H : Forall (fun c => type_ c = "cycle") (out ++ [cycle_of a])).
  { apply Forall_app. split; [exact Hout|]. constructor; [reflexivity|constructor]. }
  destruct (Z.of_nat (List.length (out ++ [cycle_of a])) >=? limit)%Z; simpl;
    [exact H | apply IH, H].
Qed.

(** The loop stops at the [limit]-th cycle without looking further. *)
Lemma collect_stops_at_limit (cs : list (list string)) :
  forall s out,
    yields s cs -> cs <> [] ->
    (Z.of_nat (List.length out + List.length cs) = limit)%Z ->
    collect s limit out = (Ret tt, out ++ map cycle_of cs).
Proof.
  induction cs as [|c cs IH]; intros s out Hs Hne Hlen; [contradiction|].
  destruct s as [|e'|a next]; simpl in Hs; try contradiction.
  destruct Hs as [-> Hs]. simpl in Hlen. simpl. rewrite length_app. simpl.
  destruct cs as [|c' cs].
  - simpl in *.
    destruct (Z.geb_spec (Z.of_nat (List.length out + 1)) limit); [reflexivity | lia].
  - destruct (Z.geb_spec (Z.of_nat (List.length out + 1)) limit) as [Hge | Hlt];
      [simpl in Hlen; lia|].
    rewrite (IH next (out ++ [cycle_of c]) Hs).
    + rewrite <- app_assoc. reflexivity.
    + discriminate.
    + rewrite length_app. simpl in *. lia.
Qed.
End Collect.

Section Wrapper.
Variable simple_cycles : DiGraph -> gen (list string).

(** For a positive [limit] the result has at most [limit] entries. *)
Lemma detect_cycles_bounded (g : DiGraph) (limit : Z) (out : list cycle_entry) :
  (1 <= limit)%Z ->
  detect_cycles simple_cycles g limit = Ret out ->
  (Z.of_nat (List.length out) <= limit)%Z.
Proof.
  intros Hlim. unfold detect_cycles.
  destruct (collect_bounded limit (simple_cycles g) []) as [Hle Hlt];
    [simpl; lia|].
  destruct (collect (simple_cycles g) limit []) as [[u|e] o]; simpl in *;
    intros H; injection H as <-; [exact Hle|].
  rewrite length_app. simpl. specialize (Hlt e eq_refl). lia.
Qed.

(** Reaching the limit is silent: the result is the first [limit] cycles
    and no entry of type ["error"]. *)
Lemma detect_cycles_truncates_silently
      (g : DiGraph) (limit : Z) (cs : list (list string)) :
  yields (simple_cycles g) cs -> cs <> [] ->
  Z.of_nat (List.length cs) = limit ->
  detect_cycles simple_cycles g limit = Ret (map cycle_of cs).
Proof.
  intros Hy Hne Hlen. unfold detect_cycles.
  rewrite (collect_stops_at_limit limit cs (simple_cycles g) [] Hy Hne);
    [reflexivity | simpl; exact Hlen].
Qed.

(** C6, on the code: the test against [limit] comes after the cycle is
    appended, so a [limit] of zero or less still returns the first cycle of
    the enumeration: one entry, which is more than [limit]. *)
Theorem detect_cycles_limit_zero_returns_one
        (g : DiGraph) (limit : Z) (c : list string) (next : gen (list string)) :
  simple_cycles g = GYield c next ->
  (limit <= 0)%Z ->
  detect_cycles simple_cycles g limit = Ret [cycle_of c]
  /\ (limit < Z.of_nat (List.length [cycle_of c]))%Z.
Proof.
  intros Hs Hlim. unfold detect_cycles. rewrite Hs. simpl.
  destruct (Z.geb_spec 1 limit) as [_ | Hlt]; [|lia].
  split; [reflexivity | lia].
Qed.

(** C10: [detect_cycles] returns a list for every graph and limit, and an
    exception of the enumeration never leaves it.  When the enumeration
    raises [e] after yielding the cycles [cs], and the loop has not stopped
    before (no cycle was yielded, or fewer than [limit]), the result is the
    entries of [cs] followed by one entry of type ["error"] whose [cells]
    are empty; the entries before it are of type ["cycle"]. *)
Theorem detect_cycles_total (g : DiGraph) (limit : Z) :
  (exists out, detect_cycles simple_cycles g limit = Ret out)
  /\ (forall cs e,
         raises_after (simple_cycles g) cs e ->
         cs = [] \/ (Z.of_nat (List.length cs) < limit)%Z ->
         detect_cycles simple_cycles g limit
         = Ret (map cycle_of cs ++ [error_of e])
         /\ type_ (error_of e) = "error"
         /\ cells (error_of e) = []
         /\ Forall (fun c => type_ c = "cycle") (map cycle_of cs)).
Proof.
  split.
  - unfold detect_cycles.
    destruct (collect (simple_cycles g) limit []) as [[u|e] o]; eexists; reflexivity.
  - intros cs e Hr Hlim. split; [|split; [reflexivity|split; [reflexivity|]]].
    + unfold detect_cycles.
      rewrite (collect_reaches_raise limit cs (simple_cycles g) e [] Hr Hlim).
      reflexivity.
    + apply Forall_forall. intros x Hx. apply in_map_iff in Hx.
      destruct Hx as [c [<- _]]. reflexivity.
Qed.
End Wrapper.

Lemma detect_cycles_limit_zero_returns_one_witness :
  detect_cycles simple_cycles_ref two_cycle 0
  = Ret [cycle_of ["Sheet1!A1"; "Sheet1!B1"]]
  /\ (0 < Z.of_nat (List.length [cycle_of ["Sheet1!A1"; "Sheet1!B1"]]))%Z.
Proof.
  apply (detect_cycles_limit_zero_returns_one simple_cycles_ref
           two_cycle 0 ["Sheet1!A1"; "Sheet1!B1"] GStop).
  - vm_compute. reflexivity.
  - lia.
Defined.

Lemma detect_cycles_total_witness :
  detect_cycles failing_cycles two_cycle 25
  = Ret [cycle_of ["Sheet1!A1"; "Sheet1!B1"];
         mkCycle "error" []
           (Some "RecursionError: maximum recursion depth exceeded")].
Proof.
  destruct (detect_cycles_total failing_cycles two_cycle 25)
    as [_ H].
  destruct (H [["Sheet1!A1"; "Sheet1!B1"]]
              (Exn "RecursionError" "maximum recursion depth exceeded"))
    as [Heq _].
  - simpl. split; reflexivity.
  - right. simpl. lia.
  - exact Heq.
Defined.

End CycleFacts.

(** ** Formula drift *)

Module DriftFacts.
Import Py Re Drift Notions.















End DriftFacts.

(** ** Risk tiering *)

Module TierFacts.
Import Py Nx Main Notions Scenarios.

Lemma cfg_get_flag (cfg d : value) :
  _cfg_get cfg flag_path d = walk cfg ["overrides"; "cycle_always_high"] d.
Proof. reflexivity. Qed.

Lemma cfg_get_overrides (cfg d : value) :
  _cfg_get cfg "overrides" d = walk cfg ["overrides"] d.
Proof. reflexivity. Qed.

Lemma compute_risk_tier_unfold (float_of_str : string -> option Q)
      (scope : string) (signals_map : list (string * Z)) (has_cycles : bool)
      (top_risk_cells : Z) (scoring_cfg : value) :
  _compute_risk_tier float_of_str scope signals_map has_cycles top_risk_cells
    scoring_cfg
  = bind (get (overrides_of scoring_cfg) "cycle_always_high" (VBool true))
      (fun flag =>
         if truthy flag && has_cycles
         then Ret ("HIGH", "circular dependency detected")
         else if is_dict (_cfg_get scoring_cfg (scope ++ ".thresholds")%string VNone)
                 && is_dict (_cfg_get scoring_cfg (scope ++ ".weights")%string VNone)
         then weighted float_of_str scope signals_map has_cycles top_risk_cells
                (_cfg_get scoring_cfg (scope ++ ".thresholds")%string VNone)
                (_cfg_get scoring_cfg (scope ++ ".weights")%string VNone)
         else Ret (fallback scope signals_map has_cycles top_risk_cells
                     scoring_cfg)).
Proof. reflexivity. Qed.

(** The flag read by the code is truthy whenever the dotted lookup says
    absent or true and [overrides] is a mapping. *)
Lemma flag_read_truthy (cfg : value) :
  overrides_is_mapping cfg -> flag_absent cfg \/ flag_true cfg ->
  exists flag,
    get (overrides_of cfg) "cycle_always_high" (VBool true) = Ret flag
    /\ truthy flag = true.
Proof.
  unfold overrides_is_mapping, overrides_of, flag_absent, flag_true.
  intros Hmap Hflag.
  assert (Hw : (forall d, walk cfg ["overrides"; "cycle_always_high"] d = d)
               \/ (forall d, walk cfg ["overrides"; "cycle_always_high"] d
                             = VBool true)).
  { destruct Hflag as [H | H]; [left | right]; intros d;
      rewrite <- cfg_get_flag; apply H. }
  clear Hflag. revert Hmap. rewrite cfg_get_overrides.
  cbn [walk] in *.
  destruct cfg as [| | | | | |top]; try (intros _; eexists; split; reflexivity).
  destruct (lookup "overrides" top) as [ov|];
    [|intros _; eexists; split; reflexivity].
  unfold or_else. destruct (truthy ov) eqn:Etr;
    [|intros _; eexists; split; reflexivity].
  destruct ov as [| | | | | |d0]; try discriminate. intros _.
  cbn [get]. destruct (lookup "cycle_always_high" d0) as [x|].
  - exists x. split; [reflexivity|].
    destruct Hw as [H | H].
    + pose proof (H VNone) as H1. pose proof (H (VBool true)) as H2.
      rewrite H1 in H2. discriminate H2.
    + rewrite (H VNone). reflexivity.
  - eexists; split; reflexivity.
Qed.

(** When the [overrides] entry of the scoring
    configuration is missing, falsy or a mapping, and the flag
    [overrides.cycle_always_high] is absent or true, the tier computed with
    [has_cycles = True] is ["HIGH"] with the reason
    ["circular dependency detected"], for every scope, signal count, count of
    top-risk cells, weight and threshold. *)
Theorem cycle_forces_high
        (float_of_str : string -> option Q) (scope : string)
        (signals_map : list (string * Z)) (top_risk_cells : Z)
        (scoring_cfg : value) :
  overrides_is_mapping scoring_cfg ->
  flag_absent scoring_cfg \/ flag_true scoring_cfg ->
  _compute_risk_tier float_of_str scope signals_map true top_risk_cells
    scoring_cfg
  = Ret ("HIGH", "circular dependency detected").
Proof.
  intros Hmap Hflag. rewrite compute_risk_tier_unfold.
  destruct (flag_read_truthy scoring_cfg Hmap Hflag) as [flag [Hget Htr]].
  rewrite Hget. cbn [bind]. rewrite Htr. reflexivity.
Qed.

Lemma cycle_forces_high_witness :
  _compute_risk_tier (fun _ => None) "sheet" [("volatile", 1%Z)] true 0
    weighted_cfg
  = Ret ("HIGH", "circular dependency detected").
Proof.
  apply (cycle_forces_high (fun _ => None) "sheet" [("volatile", 1%Z)] 0
           weighted_cfg).
  - reflexivity.
  - right. intros d. reflexivity.
Defined.

(** C1, on the code: a scoring configuration whose [overrides] entry is a
    text leaves the flag [cycle_always_high] absent, so the default policy
    applies; yet the call with [has_cycles = True] raises [AttributeError]
    instead of returning ["HIGH"], for every scope, signal count and count
    of top-risk cells.  The value passes the guard [or {}] and meets
    [overrides.get]; the lookups of [thresholds] and [weights] next to it
    test [isinstance(..., dict)] first. *)
Theorem cycle_with_text_overrides_raises
        (float_of_str : string -> option Q) (scope : string)
        (signals_map : list (string * Z)) (top_risk_cells : Z) :
  flag_absent (VDict [("overrides", VStr "x")])
  /\ _compute_risk_tier float_of_str scope signals_map true top_risk_cells
       (VDict [("overrides", VStr "x")])
     = Raise (Exn "AttributeError" "'str' object has no attribute 'get'").
Proof.
  split; [intros d; reflexivity|].
  rewrite compute_risk_tier_unfold. reflexivity.
Qed.

(** The same at one concrete call. *)
Lemma cycle_override_needs_mapping :
  flag_absent (VDict [("overrides", VStr "x")])
  /\ _compute_risk_tier (fun _ => None) "sheet" [] true 0
       (VDict [("overrides", VStr "x")])
     = Raise (Exn "AttributeError" "'str' object has no attribute 'get'").
Proof.
  split; [intros d; reflexivity | vm_compute; reflexivity].
Qed.

(** Under the default policy (no scoring configuration at all) a scope with
    a cycle is tiered ["HIGH"], for both scopes the scan uses. *)
Corollary cycle_is_high_by_default
          (float_of_str : string -> option Q)
          (signals_map : list (string * Z)) (top_risk_cells : Z) :
  _compute_risk_tier float_of_str "sheet" signals_map true top_risk_cells (VDict [])
  = Ret ("HIGH", "circular dependency detected")
  /\ _compute_risk_tier float_of_str "workbook" signals_map true top_risk_cells
       (VDict [])
     = Ret ("HIGH", "circular dependency detected").
Proof. split; reflexivity. Qed.

End TierFacts.


(** * Further properties of the package *)

(** ** Tokens *)

Module TokenFacts.
Import Py Re References.

Lemma opt_str_eqb_eq (a b : option string) :
  opt_str_eqb a b = true <-> a = b.
Proof.
  destruct a as [x|], b as [y|]; simpl; split; intros H;
    try discriminate; try reflexivity.
  - apply String.eqb_eq in H. subst. reflexivity.
  - injection H as ->. apply String.eqb_refl.
Qed.

Lemma token_key_eqb_eq (a b : RefToken) :
  token_key_eqb a b = true <-> a = b.
Proof.
  destruct a as [r1 s1 k1 b1], b as [r2 s2 k2 b2].
  unfold token_key_eqb. simpl. split.
  - intros H. repeat (apply andb_prop in H; destruct H as [H ?]).
    apply String.eqb_eq in H. apply opt_str_eqb_eq in H2.
    apply String.eqb_eq in H1. apply Bool.eqb_prop in H0. subst. reflexivity.
  - intros H. injection H as -> -> -> ->.
    rewrite !String.eqb_refl, Bool.eqb_reflx. simpl.
    rewrite (proj2 (opt_str_eqb_eq s2 s2) eq_refl). reflexivity.
Qed.

Lemma to_dict_inj (a b : RefToken) : to_dict a = to_dict b -> a = b.
Proof.
  destruct a, b. unfold to_dict. simpl. intros H.
  injection H as -> -> -> ->. reflexivity.
Qed.

Lemma dedup_in (ts : list RefToken) :
  forall seen d,
    In d (dedup seen ts) ->
    exists t, In t ts /\ d = to_dict t /\ ~ In t seen.
Proof.
  induction ts as [|t ts IH]; intros seen d H; simpl in H; [destruct H|].
  destruct (existsb (token_key_eqb t) seen) eqn:E.
  - destruct (IH seen d H) as [t' [Hin [Hd Hs]]].
    exists t'. split; [right; exact Hin | split; assumption].
  - destruct H as [<- | H].
    + exists t. split; [left; reflexivity | split; [reflexivity|]].
      intros Hin. assert (existsb (token_key_eqb t) seen = true) as Hc.
      { apply existsb_exists. exists t. split; [exact Hin|].
        apply token_key_eqb_eq. reflexivity. }
      rewrite Hc in E. discriminate.
    + destruct (IH (t :: seen) d H) as [t' [Hin [Hd Hs]]].
      exists t'. split; [right; exact Hin | split; [exact Hd|]].
      intros Hc. apply Hs. right. exact Hc.
Qed.

Lemma dedup_nodup (ts : list RefToken) :
  forall seen, NoDup (dedup seen ts).
Proof.
  induction ts as [|t ts IH]; intros seen; simpl; [constructor|].
  destruct (existsb (token_key_eqb t) seen); [apply IH|].
  constructor; [|apply IH].
  intros Hin. destruct (dedup_in ts (t :: seen) _ Hin) as [t' [_ [Hd Hs]]].
  apply to_dict_inj in Hd. subst t'. apply Hs. left. reflexivity.
Qed.

(** Every token of the list is kept, in its dictionary form. *)
Lemma dedup_complete (ts : list RefToken) :
  forall seen t,
    In t ts -> ~ In t seen -> In (to_dict t) (dedup seen ts).
Proof.
  induction ts as [|t0 ts IH]; intros seen t Hin Hs; [destruct Hin|].
  simpl. destruct (existsb (token_key_eqb t0) seen) eqn:E.
  - destruct Hin as [-> | Hin]; [|apply IH; assumption].
    exfalso. apply existsb_exists in E. destruct E as [x [Hx Hk]].
    apply token_key_eqb_eq in Hk. subst x. exact (Hs Hx).
  - destruct Hin as [-> | Hin]; [left; reflexivity|].
    destruct (token_key_eqb t0 t) eqn:Ek.
    + apply token_key_eqb_eq in Ek. subst t0. left. reflexivity.
    + right. apply IH; [exact Hin|].
      intros [Hc | Hc]; [|exact (Hs Hc)].
      subst t0. rewrite (proj2 (token_key_eqb_eq t t) eq_refl) in Ek.
      discriminate.
Qed.

(** The list returned for a formula holds no token twice: two entries
    differ in [raw], [sheet], [kind] or [symbolic]. *)
Theorem extract_reference_tokens_no_duplicates (formula : string) :
  NoDup (extract_reference_tokens formula).
Proof.
  unfold extract_reference_tokens.
  destruct (String.eqb formula ""); [constructor | apply dedup_nodup].
Qed.

(** [RefToken.from_any] undoes [to_dict] on every token whose [kind] is not
    the empty text. *)
Theorem from_dict_to_dict (t : RefToken) :
  kind t <> "" -> from_dict (to_dict t) = t.
Proof.
  intros Hk. destruct t as [r s k b]. unfold from_dict, to_dict. simpl in *.
  f_equal.
  - destruct r; reflexivity.
  - destruct k; [contradiction | reflexivity].
  - destruct b; reflexivity.
Qed.

Lemma from_dict_to_dict_witness :
  from_dict (to_dict (mkRefToken "A1:B5" (Some "Sheet2") "range" false))
  = mkRefToken "A1:B5" (Some "Sheet2") "range" false.
Proof.
  apply (from_dict_to_dict (mkRefToken "A1:B5" (Some "Sheet2") "range" false)).
  simpl. discriminate.
Defined.

Lemma upper_char_idem (c : ascii) : upper_char (upper_char c) = upper_char c.
Proof.
  destruct c as [[] [] [] [] [] [] [] []]; vm_compute; reflexivity.
Qed.

Lemma upper_idem (s : string) : upper (upper s) = upper s.
Proof.
  unfold upper, chars, str. rewrite list_ascii_of_string_of_list_ascii.
  rewrite map_map. f_equal. apply map_ext. intros c. apply upper_char_idem.
Qed.

Lemma upper_empty (s : string) : String.eqb (upper s) "" = String.eqb s "".
Proof. destruct s; reflexivity. Qed.

End TokenFacts.

(** ** The graph the builder keeps *)

Module GraphShape.
Import Py References Nx Graph NxFacts Notions Invariants GraphFacts.

Lemma mem_str_in (x : string) (l : list string) :
  mem_str x l = true <-> In x l.
Proof.
  unfold mem_str. rewrite existsb_exists. split.
  - intros [y [Hy He]]. apply String.eqb_eq in He. subst. exact Hy.
  - intros H. exists x. split; [exact H | apply String.eqb_refl].
Qed.

Lemma has_node_in (g : DiGraph) (n : string) :
  has_node g n = true <-> In n (nodes g).
Proof.
  unfold has_node, nodes. induction g as [|[k vs] g IH]; simpl.
  - split; [discriminate | contradiction].
  - destruct (String.eqb_spec k n) as [-> | Hne].
    + split; [left; reflexivity | reflexivity].
    + rewrite IH. split; [right; assumption | intros [H | H]; [contradiction | exact H]].
Qed.

Lemma nodup_snoc (x : string) (l : list string) :
  NoDup l -> ~ In x l -> NoDup (l ++ [x]).
Proof.
  intros Hl Hx. apply NoDup_app.
  - exact Hl.
  - constructor; [intros [] | constructor].
  - intros a Ha [<- | []]. exact (Hx Ha).
Qed.

Lemma set_add_nodup (v : string) (vs : list string) :
  NoDup vs -> NoDup (set_add v vs).
Proof.
  intros H. unfold set_add. destruct (mem_str v vs) eqn:E; [exact H|].
  apply nodup_snoc; [exact H|]. intros Hin.
  apply mem_str_in in Hin. rewrite Hin in E. discriminate.
Qed.

Lemma set_add_in (w v : string) (vs : list string) :
  In w (set_add v vs) -> w = v \/ In w vs.
Proof.
  unfold set_add. destruct (mem_str v vs); [right; assumption|].
  intros H. apply in_app_or in H. destruct H as [H | [<- | []]];
    [right; exact H | left; reflexivity].
Qed.

Lemma nodes_update_adj (u : string) (f : list string -> list string)
      (g : DiGraph) :
  nodes (update_adj u f g) = nodes g.
Proof.
  unfold nodes. induction g as [|[k vs] g IH]; simpl; [reflexivity|].
  destruct (String.eqb k u); simpl; [reflexivity | rewrite IH; reflexivity].
Qed.

Lemma in_update_adj (u : string) (f : list string -> list string)
      (g : DiGraph) (k : string) (ws : list string) :
  In (k, ws) (update_adj u f g) ->
  In (k, ws) g \/ exists vs, In (k, vs) g /\ ws = f vs.
Proof.
  induction g as [|[k' vs] g IH]; simpl; [intros []|].
  destruct (String.eqb k' u); simpl.
  - intros [H | H].
    + injection H as <- <-. right. exists vs. split; [left; reflexivity | reflexivity].
    + left. right. exact H.
  - intros [H | H]; [left; left; exact H|].
    destruct (IH H) as [H1 | [vs' [H1 H2]]].
    + left. right. exact H1.
    + right. exists vs'. split; [right; exact H1 | exact H2].
Qed.

Lemma well_formed_empty : well_formed [].
Proof. split; [constructor | intros u vs []]. Qed.

Lemma nodupb_ok (l : list string) : nodupb l = true -> NoDup l.
Proof.
  induction l as [|x l IH]; simpl; intros H; [constructor|].
  apply andb_prop in H. destruct H as [H1 H2]. constructor; [|apply IH, H2].
  intros Hin. apply mem_str_in in Hin. rewrite Hin in H1. discriminate.
Qed.

Lemma well_formedb_ok (g : DiGraph) : well_formedb g = true -> well_formed g.
Proof.
  unfold well_formedb. intros H. apply andb_prop in H. destruct H as [H1 H2].
  split; [apply nodupb_ok, H1|].
  intros u vs Hin. rewrite forallb_forall in H2. specialize (H2 _ Hin).
  simpl in H2. apply andb_prop in H2. destruct H2 as [H3 H4].
  split; [apply nodupb_ok, H3|]. rewrite forallb_forall in H4. exact H4.
Qed.

Lemma well_formed_add_node (n : string) (g : DiGraph) :
  well_formed g -> well_formed (add_node n g).
Proof.
  intros [Hnd Hent]. unfold add_node. destruct (has_node g n) eqn:E;
    [split; assumption|].
  split.
  - unfold nodes. rewrite map_app. simpl. apply nodup_snoc; [exact Hnd|].
    intros Hin. apply has_node_in in Hin. rewrite Hin in E. discriminate.
  - intros u vs Hin. apply in_app_or in Hin. destruct Hin as [Hin | [Heq | []]].
    + destruct (Hent u vs Hin) as [H1 H2]. split; [exact H1|].
      intros v Hv. specialize (H2 v Hv).
      pose proof (has_node_add_node_mono v n g H2) as H3.
      unfold add_node in H3. rewrite E in H3. exact H3.
    + injection Heq as <- <-. split; [constructor | intros v []].
Qed.

Lemma well_formed_add_edge (u v : string) (g : DiGraph) :
  well_formed g -> well_formed (add_edge u v g).
Proof.
  intros H. unfold add_edge.
  pose proof (well_formed_add_node v _ (well_formed_add_node u g H)) as [Hnd Hent].
  pose proof (has_node_add_node_same v (add_node u g)) as Hv.
  set (g2 := add_node v (add_node u g)) in *.
  split.
  - rewrite nodes_update_adj. exact Hnd.
  - intros k ws Hin. apply in_update_adj in Hin.
    destruct Hin as [Hin | [vs [Hin ->]]].
    + destruct (Hent k ws Hin) as [H1 H2]. split; [exact H1|].
      intros w Hw. rewrite has_node_update_adj. apply H2, Hw.
    + destruct (Hent k vs Hin) as [H1 H2]. split; [apply set_add_nodup, H1|].
      intros w Hw. rewrite has_node_update_adj.
      apply set_add_in in Hw. destruct Hw as [-> | Hw]; [exact Hv | apply H2, Hw].
Qed.

Lemma well_formed_add_refs (dep sn : string) (refs : list ref_like) :
  forall g sink,
    well_formed g -> well_formed (fst (add_refs dep sn refs g sink)).
Proof.
  induction refs as [|r refs IH]; intros g sink H; simpl; [exact H|].
  destruct (resolve dep sn r) as [[n e]|]; apply IH; [|exact H].
  apply well_formed_add_edge, H.
Qed.

(** The builder keeps the graph in the shape of a networkx graph: after a
    call on a well-formed graph every node has one entry, no successor is
    listed twice, and every successor is a node. *)
Theorem build_keeps_graph_well_formed
        (sheet_name cell_addr : option string) (refs : option (list ref_like))
        (g : DiGraph) (sink : option (list SymbolicEdge)) :
  well_formed g ->
  exists g',
    graph_after (build_dependency_graph sheet_name cell_addr refs (Some g) sink)
    = Some g'
    /\ well_formed g'.
Proof.
  intros H. destruct sheet_name as [sn|], cell_addr as [ca|], refs as [refs|];
    try (exists g; split; [reflexivity | exact H]).
  rewrite build_graph_after. eexists. split; [reflexivity|].
  apply well_formed_add_refs, well_formed_add_node, H.
Qed.

Lemma build_keeps_graph_well_formed_witness :
  exists g',
    graph_after
      (build_dependency_graph (Some "Sheet1") (Some "C1")
         (Some [RefObj (mkRefToken "A1" None "cell" false);
                RefObj (mkRefToken "B1" (Some "Data") "cell" false)])
         (Some []) None)
    = Some g'
    /\ well_formed g'.
Proof.
  apply (build_keeps_graph_well_formed (Some "Sheet1") (Some "C1")
           (Some [RefObj (mkRefToken "A1" None "cell" false);
                  RefObj (mkRefToken "B1" (Some "Data") "cell" false)])
           [] None).
  exact well_formed_empty.
Defined.

(** A call with all its arguments returns, and afterwards the dependent
    cell is a node, and every entry of [refs] that is not skipped has its
    target as a node and as a successor of the dependent cell. *)
Theorem build_links_every_reference
        (sn ca : string) (refs : list ref_like) (g : DiGraph)
        (sink : option (list SymbolicEdge)) :
  let call :=
    build_dependency_graph (Some sn) (Some ca) (Some refs) (Some g) sink in
  outcome_of call = Ret tt
  /\ exists g',
      graph_after call = Some g'
      /\ has_node g' (_node_id sn ca) = true
      /\ forall r target e,
           In r refs -> resolve (_node_id sn ca) sn r = Some (target, e) ->
           has_node g' target = true
           /\ has_edge g' (_node_id sn ca) target = true.
Proof.
  cbv zeta. split.
  - unfold build_dependency_graph, outcome_of.
    destruct (add_refs _ _ _ _ _) as [g2 s2]. reflexivity.
  - rewrite build_graph_after. eexists. split; [reflexivity|]. split.
    + apply add_refs_keeps_node, has_node_add_node_same.
    + intros r target e Hin Hr. eapply add_refs_links; eauto.
Qed.

(** The builder only adds: a node or an edge of the graph passed in is
    still there after the call. *)
Theorem build_never_removes
        (sheet_name cell_addr : option string) (refs : option (list ref_like))
        (g : DiGraph) (sink : option (list SymbolicEdge)) :
  exists g',
    graph_after (build_dependency_graph sheet_name cell_addr refs (Some g) sink)
    = Some g'
    /\ (forall n, has_node g n = true -> has_node g' n = true)
    /\ (forall u v, has_edge g u v = true -> has_edge g' u v = true).
Proof.
  destruct sheet_name as [sn|], cell_addr as [ca|], refs as [refs|];
    try (exists g; split; [reflexivity | split; intros; assumption]).
  rewrite build_graph_after. eexists. split; [reflexivity|]. split.
  - intros n H. apply add_refs_keeps_node, has_node_add_node_mono, H.
  - intros u v H.
    assert (Hg : has_edge (add_node (_node_id sn ca) g) u v = true).
    { unfold has_edge in *. destruct (lookup u g) as [vs|] eqn:E; [|discriminate].
      rewrite (lookup_add_node_old _ _ _ _ E). exact H. }
    revert Hg. generalize (add_node (_node_id sn ca) g) as g0. revert sink.
    induction refs as [|r refs IH]; intros sink g0 Hg; simpl; [exact Hg|].
    destruct (resolve (_node_id sn ca) sn r) as [[m e]|]; apply IH; [|exact Hg].
    apply add_edge_keeps_edge, Hg.
Qed.

Lemma add_refs_sink (dep sn : string) (refs : list ref_like) :
  forall g sink,
    snd (add_refs dep sn refs g sink)
    = option_map (fun l => l ++ symbolic_records dep sn refs) sink.
Proof.
  induction refs as [|r refs IH]; intros g sink; simpl.
  - destruct sink; simpl; [rewrite app_nil_r|]; reflexivity.
  - destruct (resolve dep sn r) as [[n [e|]]|]; rewrite IH;
      destruct sink as [l|]; simpl; try reflexivity.
    rewrite <- app_assoc. reflexivity.
Qed.

Lemma add_refs_graph_any_sink (dep sn : string) (refs : list ref_like) :
  forall g sink sink',
    fst (add_refs dep sn refs g sink) = fst (add_refs dep sn refs g sink').
Proof.
  induction refs as [|r refs IH]; intros g sink sink'; simpl; [reflexivity|].
  destruct (resolve dep sn r) as [[n e]|]; apply IH.
Qed.

(** The sink is a side channel: a sink that is passed gets, at its end and in
    the order of [refs], one record for every symbolic entry that is not
    skipped, and keeps what it held; no sink stays no sink; and the graph
    built is the same whatever the sink. *)
Theorem build_appends_symbolic_records
        (sn ca : string) (refs : list ref_like) (g : DiGraph)
        (sink sink' : option (list SymbolicEdge)) :
  sink_after
    (build_dependency_graph (Some sn) (Some ca) (Some refs) (Some g) sink)
  = option_map (fun l => l ++ symbolic_records (_node_id sn ca) sn refs) sink
  /\ graph_after
       (build_dependency_graph (Some sn) (Some ca) (Some refs) (Some g) sink)
     = graph_after
         (build_dependency_graph (Some sn) (Some ca) (Some refs) (Some g) sink').
Proof.
  split.
  - unfold build_dependency_graph, sink_after.
    rewrite <- (add_refs_sink (_node_id sn ca) sn refs
                  (if negb (has_node g (_node_id sn ca))
                   then add_node (_node_id sn ca) g else g) sink).
    destruct (add_refs _ _ _ _ _) as [g2 s2]. reflexivity.
  - rewrite !build_graph_after. f_equal. apply add_refs_graph_any_sink.
Qed.

Lemma resolve_dict_form (dep sn : string) (t : RefToken) :
  resolve dep sn (RefMap (to_dict t)) = resolve dep sn (RefObj t).
Proof.
  destruct t as [r s k b]. unfold resolve, ref_fields, to_dict, is_symbolic.
  simpl. destruct r; destruct b; reflexivity.
Qed.

Lemma add_refs_dict_form (dep sn : string) (ts : list RefToken) :
  forall g sink,
    add_refs dep sn (map (fun t => RefMap (to_dict t)) ts) g sink
    = add_refs dep sn (map RefObj ts) g sink.
Proof.
  induction ts as [|t ts IH]; intros g sink; simpl; [reflexivity|].
  rewrite resolve_dict_form.
  destruct (resolve dep sn (RefObj t)) as [[n e]|]; apply IH.
Qed.

(** Tokens may be passed as [RefToken] objects or as the dictionaries
    [to_dict] makes of them: the call does the same to the graph and to the
    sink. *)
Theorem build_same_for_objects_and_dicts
        (sheet_name cell_addr : option string) (ts : list RefToken)
        (g : option DiGraph) (sink : option (list SymbolicEdge)) :
  build_dependency_graph sheet_name cell_addr
    (Some (map (fun t => RefMap (to_dict t)) ts)) g sink
  = build_dependency_graph sheet_name cell_addr (Some (map RefObj ts)) g sink.
Proof.
  destruct sheet_name as [sn|], cell_addr as [ca|], g as [g|]; try reflexivity.
  unfold build_dependency_graph. rewrite add_refs_dict_form. reflexivity.
Qed.

End GraphShape.

(** ** Reach and ranking *)

Module ReachBounds.
Import Py Nx Impact NxFacts Notions Invariants ReachFacts GraphShape.

Lemma lookup_in {V : Type} (k : string) (l : list (string * V)) (v : V) :
  lookup k l = Some v -> In (k, v) l.
Proof.
  induction l as [|[k' v'] l IH]; simpl; [discriminate|].
  destruct (String.eqb_spec k' k) as [-> | _].
  - intros H. injection H as ->. left. reflexivity.
  - intros H. right. apply IH, H.
Qed.

Lemma successors_of_node (g : DiGraph) (n : string) :
  well_formed g -> In n (nodes g) ->
  exists ss, lookup n g = Some ss /\ NoDup ss /\ incl ss (nodes g).
Proof.
  intros [_ Hent] Hin. apply has_node_in in Hin. unfold has_node in Hin.
  destruct (lookup n g) as [ss|] eqn:E; [|discriminate].
  exists ss. split; [reflexivity|].
  destruct (Hent n ss (lookup_in _ _ _ E)) as [H1 H2]. split; [exact H1|].
  intros v Hv. apply has_node_in, H2, Hv.
Qed.

Lemma visit_new_ok (g : DiGraph) (ss : list string) :
  forall visited q,
    incl ss (nodes g) -> traversal_ok g visited q ->
    traversal_ok g (fst (visit_new ss visited q)) (snd (visit_new ss visited q))
    /\ List.length visited <= List.length (fst (visit_new ss visited q)).
Proof.
  induction ss as [|x ss IH]; intros visited q Hss Hok; simpl; [split; [exact Hok | lia]|].
  assert (Hss' : incl ss (nodes g)) by (intros y Hy; apply Hss; right; exact Hy).
  destruct (mem_str x visited) eqn:E; [apply IH; assumption|].
  destruct Hok as [Hnd [Hv Hq]].
  destruct (IH (visited ++ [x]) (q ++ [x]) Hss') as [Hok' Hlen].
  - split; [|split].
    + apply nodup_snoc; [exact Hnd|]. intros Hin. apply mem_str_in in Hin.
      rewrite Hin in E. discriminate.
    + intros y Hy. apply in_app_or in Hy. destruct Hy as [Hy | [<- | []]];
        [apply Hv, Hy | apply Hss; left; reflexivity].
    + intros y Hy. apply in_app_or in Hy. destruct Hy as [Hy | [<- | []]];
        [apply Hq, Hy | apply Hss; left; reflexivity].
  - split; [exact Hok'|]. rewrite length_app in Hlen. simpl in Hlen. lia.
Qed.

Lemma bfs_ok (g : DiGraph) (max_nodes : Z) (fuel : nat) :
  well_formed g ->
  forall visited q r,
    traversal_ok g visited q ->
    bfs fuel g max_nodes visited q = Some r ->
    exists visited',
      r = Ret visited' /\ NoDup visited' /\ incl visited' (nodes g)
      /\ List.length visited <= List.length visited'.
Proof.
  intros Hwf. induction fuel as [|fuel IH]; intros visited q r Hok Hr; [discriminate|].
  simpl in Hr. destruct q as [|node q].
  - injection Hr as <-. exists visited. destruct Hok as [H1 [H2 _]].
    repeat split; [exact H1 | exact H2 | lia].
  - destruct (Z.of_nat (List.length visited) <? max_nodes)%Z.
    + destruct Hok as [Hnd [Hv Hq]].
      destruct (successors_of_node g node Hwf (Hq node (or_introl eq_refl)))
        as [ss [Hl [_ Hss]]].
      unfold successors in Hr. rewrite Hl in Hr.
      destruct (visit_new_ok g ss visited q Hss) as [Hok' Hlen].
      { split; [exact Hnd | split; [exact Hv|]].
        intros y Hy. apply Hq. right. exact Hy. }
      destruct (visit_new ss visited q) as [visited1 q1]. simpl in *.
      destruct (IH visited1 q1 r Hok' Hr) as [v' [H1 [H2 [H3 H4]]]].
      exists v'. repeat split; [exact H1 | exact H2 | exact H3 | lia].
    + injection Hr as <-. exists visited. destruct Hok as [H1 [H2 _]].
      repeat split; [exact H1 | exact H2 | lia].
Qed.

Lemma visit_all_nodup (ss : list string) :
  forall acc q,
    NoDup (acc ++ ss) ->
    visit_all ss acc q = (acc ++ ss, q ++ ss).
Proof.
  induction ss as [|x ss IH]; intros acc q H; simpl.
  - rewrite !app_nil_r. reflexivity.
  - assert (Hx : mem_str x acc = false).
    { destruct (mem_str x acc) eqn:E; [|reflexivity].
      apply mem_str_in in E. exfalso.
      apply NoDup_remove_2 in H. apply H. apply in_or_app. left. exact E. }
    unfold set_add. rewrite Hx.
    replace (acc ++ x :: ss) with ((acc ++ [x]) ++ ss) in *
      by (rewrite <- app_assoc; reflexivity).
    replace (q ++ x :: ss) with ((q ++ [x]) ++ ss)
      by (rewrite <- app_assoc; reflexivity).
    apply IH, H.
Qed.

(** The two numbers the ranking asks for are there for a node of a
    well-formed graph. *)
Lemma reach_and_degree_return (g : DiGraph) (start : string) (max_nodes : Z) :
  well_formed g -> has_node g start = true ->
  exists n d,
    downstream_reach g start max_nodes = Some (Ret n)
    /\ out_degree g start = Ret d.
Proof.
  intros Hwf Hstart.
  destruct (successors_of_node g start Hwf (proj1 (has_node_in g start) Hstart))
    as [ss [Hl [Hnd Hss]]].
  pose proof (downstream_reach_terminates g start max_nodes) as Hterm.
  unfold downstream_reach, out_degree, successors in *. rewrite Hl in *.
  rewrite (visit_all_nodup ss [] [] Hnd) in *. simpl app in *.
  destruct (bfs (bfs_fuel g start) g max_nodes ss ss) as [r|] eqn:E;
    [|contradiction Hterm; reflexivity].
  destruct (bfs_ok g max_nodes (bfs_fuel g start) Hwf ss ss r) as [v' [-> _]];
    [split; [exact Hnd | split; exact Hss] | exact E |].
  exists (List.length v'), (List.length ss). split; reflexivity.
Qed.

(** On a well-formed graph, for a start node of the graph, [downstream_reach]
    returns a count and does not raise; the count is at least the out-degree
    of the start node and at most the number of nodes of the graph. *)
Theorem downstream_reach_bounds
        (g : DiGraph) (start : string) (max_nodes : Z) :
  well_formed g -> has_node g start = true ->
  exists n d,
    downstream_reach g start max_nodes = Some (Ret n)
    /\ out_degree g start = Ret d
    /\ d <= n <= List.length (nodes g).
Proof.
  intros Hwf Hstart.
  destruct (successors_of_node g start Hwf (proj1 (has_node_in g start) Hstart))
    as [ss [Hl [Hnd Hss]]].
  pose proof (downstream_reach_terminates g start max_nodes) as Hterm.
  unfold downstream_reach, out_degree, successors in *. rewrite Hl in *.
  rewrite (visit_all_nodup ss [] [] Hnd) in *. simpl app in *.
  destruct (bfs (bfs_fuel g start) g max_nodes ss ss) as [r|] eqn:E;
    [|contradiction Hterm; reflexivity].
  destruct (bfs_ok g max_nodes (bfs_fuel g start) Hwf ss ss r) as [v' [-> [H1 [H2 H3]]]];
    [split; [exact Hnd | split; exact Hss] | exact E |].
  exists (List.length v'), (List.length ss). simpl.
  split; [reflexivity | split; [reflexivity|]]. split; [exact H3|].
  apply NoDup_incl_length; assumption.
Qed.

Lemma downstream_reach_bounds_witness :
  exists n d,
    downstream_reach Scenarios.chain "Sheet1!D1" default_max_nodes = Some (Ret n)
    /\ out_degree Scenarios.chain "Sheet1!D1" = Ret d
    /\ d <= n <= List.length (nodes Scenarios.chain).
Proof.
  apply (downstream_reach_bounds Scenarios.chain "Sheet1!D1" default_max_nodes).
  - apply well_formedb_ok. reflexivity.
  - reflexivity.
Defined.

End ReachBounds.


Module RankingFacts.
Import Py Nx Impact Ranking NxFacts Notions Invariants ReachFacts GraphShape
       ReachBounds.

Lemma scored_leb_true (x y : scored) : scored_leb x y = true -> before y x.
Proof.
  destruct x as [[r1 f1] n1], y as [[r2 f2] n2].
  unfold before, ranked_before, scored_leb. simpl.
  destruct (Nat.ltb_spec r1 r2); [left; assumption|]. simpl.
  destruct (Nat.eqb_spec r1 r2); [|discriminate]. simpl.
  destruct (Nat.ltb_spec f1 f2); [intros _; right; lia|]. simpl.
  destruct (Nat.eqb_spec f1 f2); [|discriminate]. intros _. right. lia.
Qed.

Lemma scored_leb_false (x y : scored) : scored_leb x y = false -> before x y.
Proof.
  destruct x as [[r1 f1] n1], y as [[r2 f2] n2].
  unfold before, ranked_before, scored_leb. simpl.
  destruct (Nat.ltb_spec r1 r2); [discriminate|]. simpl.
  destruct (Nat.eqb_spec r1 r2); simpl; [|intros _; left; lia].
  destruct (Nat.ltb_spec f1 f2); [discriminate|]. simpl.
  intros _. right. lia.
Qed.

Lemma before_trans (a b c : scored) : before a b -> before b c -> before a c.
Proof.
  destruct a as [[r1 f1] n1], b as [[r2 f2] n2], c as [[r3 f3] n3].
  unfold before, ranked_before. simpl. lia.
Qed.

Lemma insert_desc_perm (x : scored) (l : list scored) :
  Permutation (insert_desc x l) (x :: l).
Proof.
  induction l as [|y l IH]; simpl; [apply Permutation_refl|].
  destruct (scored_leb x y); [|apply Permutation_refl].
  apply (perm_trans (perm_skip y IH)). apply perm_swap.
Qed.

Lemma insert_desc_sorted (x : scored) (l : list scored) :
  StronglySorted before l -> StronglySorted before (insert_desc x l).
Proof.
  induction l as [|y l IH]; intros H; simpl.
  - constructor; [constructor | constructor].
  - inversion H as [|y' l' Hs Hall]; subst.
    destruct (scored_leb x y) eqn:E.
    + constructor; [apply IH, Hs|].
      apply Forall_forall. intros z Hz.
      apply (Permutation_in _ (insert_desc_perm x l)) in Hz.
      destruct Hz as [<- | Hz]; [apply scored_leb_true, E|].
      rewrite Forall_forall in Hall. apply Hall, Hz.
    + constructor; [exact H|]. constructor; [apply scored_leb_false, E|].
      eapply Forall_impl; [|exact Hall]. intros z Hz.
      apply (before_trans _ y); [apply scored_leb_false, E | exact Hz].
Qed.

Lemma sort_desc_spec (l : list scored) :
  forall acc,
    StronglySorted before acc ->
    StronglySorted before (fold_left (fun a x => insert_desc x a) l acc)
    /\ Permutation (fold_left (fun a x => insert_desc x a) l acc) (acc ++ l).
Proof.
  induction l as [|x l IH]; intros acc H; simpl.
  - split; [exact H | rewrite app_nil_r; apply Permutation_refl].
  - destruct (IH (insert_desc x acc) (insert_desc_sorted x acc H)) as [H1 H2].
    split; [exact H1|]. apply (perm_trans H2).
    apply (perm_trans (Permutation_app_tail l (insert_desc_perm x acc))).
    simpl. apply Permutation_middle.
Qed.

Lemma in_firstn {A : Type} (n : nat) (l : list A) (x : A) :
  In x (firstn n l) -> In x l.
Proof.
  revert n. induction l as [|y l IH]; intros n H; destruct n; simpl in H;
    try contradiction.
  destruct H as [-> | H]; [left; reflexivity | right; eapply IH; exact H].
Qed.

Lemma sorted_firstn {A : Type} (R : A -> A -> Prop) (n : nat) (l : list A) :
  StronglySorted R l -> StronglySorted R (firstn n l).
Proof.
  revert n. induction l as [|x l IH]; intros n H; destruct n; simpl;
    try constructor.
  - inversion H; subst. apply IH. assumption.
  - inversion H as [|x' l' Hs Hall]; subst.
    apply Forall_forall. intros z Hz. rewrite Forall_forall in Hall.
    apply Hall. eapply in_firstn. exact Hz.
Qed.

Lemma sorted_map_entry (l : list scored) :
  StronglySorted before l -> StronglySorted ranked_before (map entry_of l).
Proof.
  induction 1 as [|x l Hs IH Hall]; simpl; constructor; [exact IH|].
  apply Forall_forall. intros e He. apply in_map_iff in He.
  destruct He as [y [<- Hy]]. rewrite Forall_forall in Hall. apply Hall, Hy.
Qed.

Lemma slice_to_firstn {A : Type} (n : Z) (l : list A) :
  exists k, slice_to n l = firstn k l
            /\ ((0 <= n)%Z -> k = Z.to_nat n).
Proof.
  unfold slice_to. destruct (Z.leb_spec 0 n).
  - eexists. split; [reflexivity | reflexivity].
  - eexists. split; [reflexivity | lia].
Qed.

Lemma score_all_ok (g : DiGraph) (formula_nodes : list string) :
  well_formed g ->
  (forall n, In n formula_nodes -> has_node g n = true) ->
  exists xs,
    score_all g formula_nodes = Some (Ret xs)
    /\ map snd xs = formula_nodes
    /\ Forall (score_right g) xs.
Proof.
  intros Hwf. induction formula_nodes as [|n ns IH]; intros Hin; simpl.
  - exists []. repeat split. constructor.
  - destruct (reach_and_degree_return g n default_max_nodes Hwf
                (Hin n (or_introl eq_refl))) as [r [d [Hr Hd]]].
    destruct IH as [xs [Hs [Hm Hf]]]; [intros m Hm; apply Hin; right; exact Hm|].
    unfold score_node. rewrite Hr, Hd, Hs.
    exists ((r, d, n) :: xs). split; [reflexivity|]. split.
    + simpl. rewrite Hm. reflexivity.
    + constructor; [split; assumption | exact Hf].
Qed.

(** On a well-formed graph that holds every formula node, the ranking
    returns a list and does not raise.  The list is in decreasing order of
    reach, ties in decreasing order of fan-out; for a [top_n] that is not
    negative it has [min(top_n, len(formula_nodes))] entries; and every entry
    names a formula node with the reach and the out-degree computed for
    it. *)
Theorem rank_high_risk_cells_sorted
        (g : DiGraph) (formula_nodes : list string) (top_n : Z) :
  well_formed g ->
  (forall n, In n formula_nodes -> has_node g n = true) ->
  exists out,
    rank_high_risk_cells g formula_nodes top_n = Some (Ret out)
    /\ StronglySorted ranked_before out
    /\ ((0 <= top_n)%Z ->
        List.length out = Nat.min (Z.to_nat top_n) (List.length formula_nodes))
    /\ forall e,
         In e out ->
         In (cell e) formula_nodes
         /\ downstream_reach g (cell e) default_max_nodes
            = Some (Ret (rk_downstream_reach e))
         /\ out_degree g (cell e) = Ret (direct_fan_out e).
Proof.
  intros Hwf Hin.
  destruct (score_all_ok g formula_nodes Hwf Hin) as [xs [Hs [Hm Hf]]].
  unfold rank_high_risk_cells. rewrite Hs.
  destruct (sort_desc_spec xs [] (SSorted_nil _)) as [Hsorted Hperm].
  simpl in Hperm. fold (sort_desc xs) in Hsorted, Hperm.
  destruct (slice_to_firstn top_n (sort_desc xs)) as [k [Hk Hkn]].
  eexists. split; [reflexivity|]. rewrite Hk. split; [|split].
  - apply sorted_map_entry, sorted_firstn, Hsorted.
  - intros Hpos. rewrite length_map, length_firstn, (Hkn Hpos).
    rewrite (Permutation_length Hperm), <- Hm, length_map. reflexivity.
  - intros e He. apply in_map_iff in He. destruct He as [x [<- Hx]].
    apply in_firstn in Hx. apply (Permutation_in _ Hperm) in Hx.
    rewrite Forall_forall in Hf. pose proof (Hf x Hx) as Hsr.
    destruct x as [[r d] n]. simpl in *. destruct Hsr as [H1 H2].
    split; [|split; assumption].
    rewrite <- Hm. apply in_map_iff. exists (r, d, n). split; [reflexivity | exact Hx].
Qed.

Lemma rank_high_risk_cells_sorted_witness :
  exists out,
    rank_high_risk_cells Scenarios.chain ["Sheet1!B1"; "Sheet1!C1"; "Sheet1!D1"] 2
    = Some (Ret out)
    /\ StronglySorted ranked_before out
    /\ ((0 <= 2)%Z -> List.length out = Nat.min (Z.to_nat 2) 3)
    /\ forall e,
         In e out ->
         In (cell e) ["Sheet1!B1"; "Sheet1!C1"; "Sheet1!D1"]
         /\ downstream_reach Scenarios.chain (cell e) default_max_nodes
            = Some (Ret (rk_downstream_reach e))
         /\ out_degree Scenarios.chain (cell e) = Ret (direct_fan_out e).
Proof.
  apply (rank_high_risk_cells_sorted Scenarios.chain
           ["Sheet1!B1"; "Sheet1!C1"; "Sheet1!D1"] 2).
  - apply well_formedb_ok. reflexivity.
  - intros n [<- | [<- | [<- | []]]]; reflexivity.
Defined.

Example rank_chain :
  rank_high_risk_cells Scenarios.chain ["Sheet1!B1"; "Sheet1!C1"; "Sheet1!D1"] 2
  = Some (Ret [entry_of (3, 1, "Sheet1!D1"); entry_of (2, 1, "Sheet1!C1")]).
Proof. vm_compute. reflexivity. Qed.

Lemma bfs_raise_type (g : DiGraph) (max_nodes : Z) (fuel : nat) :
  forall visited q e,
    bfs fuel g max_nodes visited q = Some (Raise e) ->
    exn_type e = "NetworkXError".
Proof.
  induction fuel as [|fuel IH]; intros visited q e H; [discriminate|].
  simpl in H. destruct q as [|node q]; [discriminate|].
  destruct (Z.of_nat (List.length visited) <? max_nodes)%Z; [|discriminate].
  unfold successors in H. destruct (lookup node g) as [ss|].
  - destruct (visit_new ss visited q) as [v1 q1]. eapply IH, H.
  - injection H as <-. reflexivity.
Qed.

Lemma score_node_cases (g : DiGraph) (n : string) :
  (exists x, score_node g n = Some (Ret x) /\ has_node g n = true)
  \/ (exists e, score_node g n = Some (Raise e)
                /\ exn_type e = "NetworkXError").
Proof.
  pose proof (downstream_reach_terminates g n default_max_nodes) as Hterm.
  unfold score_node, downstream_reach, out_degree, successors, has_node in *.
  destruct (lookup n g) as [ss|]; [|right; eexists; split; reflexivity].
  destruct (visit_all ss [] []) as [v q].
  destruct (bfs (bfs_fuel g n) g default_max_nodes v q) as [[v'|e]|] eqn:E.
  - left. eexists. split; reflexivity.
  - right. exists e. split; [reflexivity | eapply bfs_raise_type, E].
  - contradiction Hterm. reflexivity.
Qed.

(** When a formula node is not in the graph the ranking raises
    [NetworkXError]; it returns no partial list. *)
Theorem rank_high_risk_cells_missing_node
        (g : DiGraph) (formula_nodes : list string) (top_n : Z) (n : string) :
  In n formula_nodes -> has_node g n = false ->
  exists e,
    rank_high_risk_cells g formula_nodes top_n = Some (Raise e)
    /\ exn_type e = "NetworkXError".
Proof.
  intros Hin Hn.
  assert (H : exists e, score_all g formula_nodes = Some (Raise e)
                        /\ exn_type e = "NetworkXError").
  { induction formula_nodes as [|m ms IH]; [destruct Hin|]. simpl.
    destruct (score_node_cases g m) as [[x [Hx Hm]] | [e [He Ht]]].
    - rewrite Hx. destruct Hin as [-> | Hin]; [rewrite Hm in Hn; discriminate|].
      destruct (IH Hin) as [e [He Ht]]. rewrite He. exists e. split; [reflexivity | exact Ht].
    - rewrite He. exists e. split; [reflexivity | exact Ht]. }
  destruct H as [e [He Ht]]. exists e.
  unfold rank_high_risk_cells. rewrite He. split; [reflexivity | exact Ht].
Qed.

Lemma rank_high_risk_cells_missing_node_witness :
  exists e,
    rank_high_risk_cells Scenarios.chain ["Sheet1!D1"; "Sheet1!Z9"] 10
    = Some (Raise e)
    /\ exn_type e = "NetworkXError".
Proof.
  apply (rank_high_risk_cells_missing_node Scenarios.chain
           ["Sheet1!D1"; "Sheet1!Z9"] 10 "Sheet1!Z9").
  - simpl. right. left. reflexivity.
  - reflexivity.
Defined.

End RankingFacts.

(** ** More on cycle detection and its findings *)

Module CycleMore.
Import Py Nx Graph Circular Notions Invariants Scenarios CycleFacts.

Section Enumeration.
Variable simple_cycles : DiGraph -> gen (list string).

Lemma yields_nil {A : Type} (s : gen A) : yields s [].
Proof. destruct s; exact I. Qed.

Lemma collect_shape (limit : Z) (s : gen (list string)) :
  forall out,
    (Z.of_nat (List.length out) < limit)%Z ->
    exists cs,
      yields s cs
      /\ ((collect s limit out = (Ret tt, out ++ map cycle_of cs)
           /\ (Z.of_nat (List.length out + List.length cs) <= limit)%Z
           /\ (Z.of_nat (List.length out + List.length cs) = limit
               \/ stops_after s cs))
          \/ exists e,
              collect s limit out = (Raise e, out ++ map cycle_of cs)
              /\ (Z.of_nat (List.length out + List.length cs) < limit)%Z
              /\ raises_after s cs e).
Proof.
  induction s as [|e|cyc next IH]; intros out Hout.
  - exists []. split; [exact I|]. left. cbn [collect map List.length].
    rewrite app_nil_r. split; [reflexivity|]. split; [lia|]. right. exact I.
  - exists []. split; [exact I|]. right. exists e. cbn [collect map List.length].
    rewrite app_nil_r. split; [reflexivity|]. split; [lia | reflexivity].
  - cbn [collect]. rewrite length_app. cbn [List.length].
    destruct (Z.geb_spec (Z.of_nat (List.length out + 1)) limit) as [Hge | Hlt].
    + exists [cyc]. split; [split; [reflexivity | apply yields_nil]|]. left.
      cbn [map List.length]. split; [reflexivity|]. split; [lia|]. left. lia.
    + destruct (IH (out ++ [cycle_of cyc])) as [cs [Hy H]];
        [rewrite length_app; cbn [List.length]; lia|].
      exists (cyc :: cs). split; [split; [reflexivity | exact Hy]|].
      rewrite length_app in H. cbn [List.length map] in *.
      rewrite <- app_assoc in H. cbn [app] in H.
      destruct H as [[Hc [Hle Hend]] | [e [Hc [Hlt' Hr]]]].
      * left. split; [exact Hc|]. split; [lia|].
        destruct Hend as [Hend | Hend]; [left; lia | right; split; [reflexivity | exact Hend]].
      * right. exists e. split; [exact Hc|]. split; [lia|].
        split; [reflexivity | exact Hr].
Qed.

(** For a limit of at least one the result has at most [limit] entries and
    is made of the cycles the enumeration yields, in its order: either these
    alone, when the enumeration ended or the [limit]-th cycle was reached, or
    these followed by the error entry of the exception, exactly when the
    enumeration raised that exception after them and before the [limit]-th
    cycle. *)
Theorem detect_cycles_result_shape (g : DiGraph) (limit : Z) :
  (1 <= limit)%Z ->
  exists out cs,
    detect_cycles simple_cycles g limit = Ret out
    /\ (Z.of_nat (List.length out) <= limit)%Z
    /\ yields (simple_cycles g) cs
    /\ ((out = map cycle_of cs
         /\ (Z.of_nat (List.length cs) = limit
             \/ stops_after (simple_cycles g) cs))
        \/ exists e,
            out = map cycle_of cs ++ [error_of e]
            /\ raises_after (simple_cycles g) cs e).
Proof.
  intros Hlim. unfold detect_cycles.
  destruct (collect_shape limit (simple_cycles g) []) as [cs [Hy H]];
    [simpl; lia|].
  cbn [app List.length Nat.add] in H.
  destruct H as [[Hc [Hle Hend]] | [e [Hc [Hlt Hr]]]]; rewrite Hc.
  - exists (map cycle_of cs), cs. split; [reflexivity|].
    split; [rewrite length_map; exact Hle|]. split; [exact Hy|].
    left. split; [reflexivity | exact Hend].
  - exists (map cycle_of cs ++ [error_of e]), cs. split; [reflexivity|].
    split; [rewrite length_app, length_map; cbn [List.length]; lia|].
    split; [exact Hy|]. right. exists e. split; [reflexivity | exact Hr].
Qed.

Lemma collect_list (limit : Z) (cs : list (list string)) :
  forall out,
    (Z.of_nat (List.length out) < limit)%Z ->
    collect (gen_of_list cs) limit out
    = (Ret tt,
       out ++ map cycle_of (firstn (Z.to_nat limit - List.length out) cs)).
Proof.
  induction cs as [|c cs IH]; intros out Hout; simpl.
  - rewrite firstn_nil, app_nil_r. reflexivity.
  - rewrite length_app. simpl.
    destruct (Z.geb_spec (Z.of_nat (List.length out + 1)) limit) as [Hge | Hlt].
    + replace (Z.to_nat limit - List.length out) with 1 by lia.
      simpl. reflexivity.
    + rewrite IH by (rewrite length_app; simpl; lia).
      rewrite length_app. simpl.
      replace (Z.to_nat limit - List.length out)
        with (S (Z.to_nat limit - (List.length out + 1))) by lia.
      simpl. rewrite <- app_assoc. reflexivity.
Qed.

(** When the enumeration ends without raising, the result is its first
    [limit] cycles, in the order of the enumeration, and all of them when
    there are fewer. *)
Theorem detect_cycles_first_limit
        (g : DiGraph) (limit : Z) (cs : list (list string)) :
  simple_cycles g = gen_of_list cs ->
  (1 <= limit)%Z ->
  detect_cycles simple_cycles g limit
  = Ret (map cycle_of (firstn (Z.to_nat limit) cs)).
Proof.
  intros Hs Hlim. unfold detect_cycles. rewrite Hs.
  rewrite (collect_list limit cs []) by (simpl; lia).
  simpl. rewrite Nat.sub_0_r. reflexivity.
Qed.

(** The findings never hold an item of type ["self_reference"]: the test
    [len(cyc) == 1] counts the keys of the entry, which are two or three, so
    every item is a ["multi_cell_cycle"], also for a cell that refers to
    itself.  There are as many items as entries, at most 25. *)
Theorem circular_findings_never_self_reference (g : DiGraph) :
  exists f,
    circular_reference_findings simple_cycles g = Ret f
    /\ Forall (fun it => cycle_type it = "multi_cell_cycle") (items f)
    /\ cycle_count f = List.length (items f)
    /\ cycle_count f <= 25.
Proof.
  unfold circular_reference_findings.
  destruct (detect_cycles simple_cycles g 25) as [out|e] eqn:Hd;
    [|unfold detect_cycles in Hd;
      destruct (collect (simple_cycles g) 25 []) as [[u|e'] o]; discriminate].
  assert (Hlen : (Z.of_nat (List.length out) <= 25)%Z)
    by (apply (CycleFacts.detect_cycles_bounded simple_cycles g 25 out); [lia | exact Hd]).
  simpl. eexists. split; [reflexivity|]. simpl. split; [|split].
  - apply Forall_forall. intros it Hit. apply in_map_iff in Hit.
    destruct Hit as [c [<- _]]. unfold item_of, dict_len.
    destruct (details c); reflexivity.
  - rewrite length_map. reflexivity.
  - lia.
Qed.

(** An enumeration that raises at once is reported like a cycle: severity
    ["HIGH"], a count of one, and one item made of the error entry. *)
Theorem circular_findings_on_failure (g : DiGraph) (e : exn) :
  simple_cycles g = GRaise e ->
  circular_reference_findings simple_cycles g
  = Ret (mkCircFindings "CIRCULAR_REFERENCE" "HIGH" 1
           [mkCircItem "multi_cell_cycle" (error_of e)
              "Cells form a dependency loop (multi-node cycle)."]).
Proof.
  intros Hs. unfold circular_reference_findings, detect_cycles.
  rewrite Hs. reflexivity.
Qed.
End Enumeration.

Lemma detect_cycles_result_shape_witness :
  exists out cs,
    detect_cycles failing_cycles two_cycle 25 = Ret out
    /\ (Z.of_nat (List.length out) <= 25)%Z
    /\ yields (failing_cycles two_cycle) cs
    /\ ((out = map cycle_of cs
         /\ (Z.of_nat (List.length cs) = 25%Z
             \/ stops_after (failing_cycles two_cycle) cs))
        \/ exists e,
            out = map cycle_of cs ++ [error_of e]
            /\ raises_after (failing_cycles two_cycle) cs e).
Proof.
  apply (detect_cycles_result_shape failing_cycles two_cycle 25). lia.
Defined.

Lemma detect_cycles_first_limit_witness :
  detect_cycles simple_cycles_ref (add_edge "Sheet1!C1" "Sheet1!C1" two_cycle) 1
  = Ret (map cycle_of
           (firstn (Z.to_nat 1) [["Sheet1!A1"; "Sheet1!B1"]; ["Sheet1!C1"]])).
Proof.
  apply (detect_cycles_first_limit simple_cycles_ref
           (add_edge "Sheet1!C1" "Sheet1!C1" two_cycle) 1
           [["Sheet1!A1"; "Sheet1!B1"]; ["Sheet1!C1"]]).
  - vm_compute. reflexivity.
  - lia.
Defined.

Lemma circular_findings_on_failure_witness :
  circular_reference_findings (fun _ => GRaise (Exn "RuntimeError" "boom")) two_cycle
  = Ret (mkCircFindings "CIRCULAR_REFERENCE" "HIGH" 1
           [mkCircItem "multi_cell_cycle" (error_of (Exn "RuntimeError" "boom"))
              "Cells form a dependency loop (multi-node cycle)."]).
Proof.
  apply (circular_findings_on_failure (fun _ => GRaise (Exn "RuntimeError" "boom"))
           two_cycle (Exn "RuntimeError" "boom")).
  reflexivity.
Defined.

End CycleMore.

(** ** More on hardcoded constants *)

Module ConstantsMore.
Import Py Re Constants Invariants.

Lemma quote_is_not_space : Ascii.eqb " " quote = false.
Proof. reflexivity. Qed.

Lemma blank_quoted_length (l : list ascii) :
  forall in_q, List.length (blank_quoted in_q l) = List.length l.
Proof.
  induction l as [|c l IH]; intros in_q; simpl; [reflexivity|].
  destruct (Ascii.eqb c quote); simpl; rewrite IH; reflexivity.
Qed.

Lemma blank_quoted_quotes (l : list ascii) :
  forall in_q,
    map (fun c => Ascii.eqb c quote) (blank_quoted in_q l)
    = map (fun c => Ascii.eqb c quote) l.
Proof.
  induction l as [|c l IH]; intros in_q; simpl; [reflexivity|].
  destruct (Ascii.eqb c quote) eqn:E; simpl; rewrite IH.
  - rewrite E. reflexivity.
  - destruct in_q; [rewrite quote_is_not_space|]; rewrite ?E; reflexivity.
Qed.

Lemma blank_quoted_idem (l : list ascii) :
  forall in_q,
    blank_quoted in_q (blank_quoted in_q l) = blank_quoted in_q l.
Proof.
  induction l as [|c l IH]; intros in_q; simpl; [reflexivity|].
  destruct (Ascii.eqb c quote) eqn:E; simpl.
  - rewrite E, IH. reflexivity.
  - destruct in_q; simpl; rewrite ?E, IH; reflexivity.
Qed.

Lemma blank_quoted_chars (l : list ascii) :
  forall in_q i c,
    nth_error (blank_quoted in_q l) i = Some c ->
    c = " "%char \/ nth_error l i = Some c.
Proof.
  induction l as [|x l IH]; intros in_q i c H; destruct i; simpl in *;
    try discriminate.
  - destruct (Ascii.eqb x quote); [right; exact H|].
    destruct in_q; [left; injection H as <-; reflexivity | right; exact H].
  - destruct (Ascii.eqb x quote); eapply IH; exact H.
Qed.

Lemma existsb_quote_map (l : list ascii) :
  existsb (Ascii.eqb quote) l
  = existsb (fun b => b) (map (fun c => Ascii.eqb c quote) l).
Proof.
  induction l as [|c l IH]; [reflexivity|].
  cbn [existsb map]. rewrite IH, (Ascii.eqb_sym quote c). reflexivity.
Qed.

(** Blanking the quoted text keeps every offset: the result has the length
    of the input, the double quotes stand where they stood, every other
    character is the one of the input or a space, and blanking twice is
    blanking once. *)
Theorem strip_quoted_segments_keeps_offsets (s : list ascii) :
  List.length (_strip_quoted_segments s) = List.length s
  /\ map (fun c => Ascii.eqb c quote) (_strip_quoted_segments s)
     = map (fun c => Ascii.eqb c quote) s
  /\ (forall i c,
         nth_error (_strip_quoted_segments s) i = Some c ->
         c = " "%char \/ nth_error s i = Some c)
  /\ _strip_quoted_segments (_strip_quoted_segments s)
     = _strip_quoted_segments s.
Proof.
  unfold _strip_quoted_segments.
  destruct (existsb (Ascii.eqb quote) s) eqn:E; simpl.
  - split; [apply blank_quoted_length|].
    split; [apply blank_quoted_quotes|].
    split; [apply blank_quoted_chars|].
    rewrite existsb_quote_map, blank_quoted_quotes, <- existsb_quote_map, E.
    simpl. apply blank_quoted_idem.
  - split; [reflexivity|]. split; [reflexivity|].
    split; [intros i c H; right; exact H|].
    rewrite E. reflexivity.
Qed.

Lemma filter_map_in {A B : Type} (f : A -> option B) (l : list A) (b : B) :
  In b (filter_map f l) -> exists a, In a l /\ f a = Some b.
Proof.
  induction l as [|a l IH]; simpl; [intros []|].
  destruct (f a) as [b'|] eqn:E.
  - intros [<- | H]; [exists a; split; [left; reflexivity | exact E]|].
    destruct (IH H) as [a' [H1 H2]]. exists a'. split; [right; exact H1 | exact H2].
  - intros H. destruct (IH H) as [a' [H1 H2]].
    exists a'. split; [right; exact H1 | exact H2].
Qed.

Lemma mem_str_true_in (x : string) (l : list string) :
  mem_str x l = true -> In x l.
Proof.
  unfold mem_str. intros H. apply existsb_exists in H.
  destruct H as [y [Hy He]]. apply String.eqb_eq in He. subst. exact Hy.
Qed.

Lemma mem_str_false_not_in (x : string) (l : list string) :
  mem_str x l = false -> ~ In x l.
Proof.
  unfold mem_str. intros H Hin.
  assert (existsb (String.eqb x) l = true) as Hc.
  { apply existsb_exists. exists x. split; [exact Hin | apply String.eqb_refl]. }
  rewrite Hc in H. discriminate.
Qed.

Lemma operator_ahead_range (l : list ascii) (c : ascii) :
  operator_ahead l = Some c ->
  In (String c "") ["*"; "/"; "+"; "-"].
Proof.
  unfold operator_ahead. destruct (lstrip_with isspace l) as [|x t]; [discriminate|].
  unfold is_operator.
  destruct (Ascii.eqb_spec x "*"); [intros H; injection H as <-; subst; simpl; auto|].
  destruct (Ascii.eqb_spec x "/"); [intros H; injection H as <-; subst; simpl; auto|].
  destruct (Ascii.eqb_spec x "+"); [intros H; injection H as <-; subst; simpl; auto|].
  destruct (Ascii.eqb_spec x "-"); [intros H; injection H as <-; subst; simpl; auto 6|].
  discriminate.
Qed.

Lemma nearest_operator_range (s : list ascii) (start : nat) :
  In (_nearest_operator s start) [""; "*"; "/"; "+"; "-"].
Proof.
  unfold _nearest_operator.
  destruct (operator_ahead (rev (firstn start s))) as [c|] eqn:E.
  - right. eapply operator_ahead_range, E.
  - destruct (operator_ahead (skipn start s)) as [c|] eqn:E2.
    + right. eapply operator_ahead_range, E2.
    + left. reflexivity.
Qed.

(** What a literal has passed when it is reported. *)
Lemma scan_literal_sound (s : list ascii) (il ifs ro rf : list string)
      (m : rmatch) (h : ConstantHit) :
  scan_literal s il ifs ro rf m = Some h ->
  literal h = str (slice s (start h) (end_ h))
  /\ _looks_like_cell_ref_near s (start h) (end_ h) = false
  /\ ~ In (literal h) il
  /\ ~ In (str (lstrip_with is_sign (chars (literal h)))) il
  /\ (function_ h = "" \/ ~ In (function_ h) ifs)
  /\ ((operator h <> "" /\ In (operator h) ro)
      \/ (function_ h <> "" /\ In (function_ h) rf))
  /\ In (operator h) [""; "*"; "/"; "+"; "-"].
Proof.
  unfold scan_literal.
  destruct (group "num" (m_caps m)) as [[a b]|]; [|discriminate].
  destruct (String.eqb (str (slice s a b)) ""); [discriminate|].
  destruct (_looks_like_cell_ref_near s a b) eqn:Enear; [discriminate|].
  destruct (float_of_literal (str (slice s a b))) as [val|]; [|discriminate].
  destruct (mem_str (str (slice s a b)) il) eqn:E1; [discriminate|].
  destruct (mem_str (str (lstrip_with is_sign (chars (str (slice s a b))))) il)
    eqn:E2; [discriminate|].
  simpl.
  destruct (is_integer (Qabs val) && mem_str (int_abs_str val) il); [discriminate|].
  destruct (String.eqb_spec (_enclosing_function s a) "") as [Ef | Ef]; simpl.
  - destruct (String.eqb_spec (_nearest_operator s a) "") as [Eo | Eo]; simpl;
      [discriminate|].
    destruct (mem_str (_nearest_operator s a) ro) eqn:E3; simpl; [|discriminate].
    intros H. injection H as <-. simpl.
    repeat split; try assumption.
    + apply mem_str_false_not_in, E1.
    + apply mem_str_false_not_in, E2.
    + left. exact Ef.
    + left. split; [exact Eo | apply mem_str_true_in, E3].
    + apply nearest_operator_range.
  - destruct (mem_str (_enclosing_function s a) ifs) eqn:E4; [discriminate|].
    destruct ((negb (String.eqb (_nearest_operator s a) "")
               && mem_str (_nearest_operator s a) ro)
              || mem_str (_enclosing_function s a) rf) eqn:E5; [|discriminate].
    intros H. injection H as <-. simpl.
    repeat split; try assumption.
    + apply mem_str_false_not_in, E1.
    + apply mem_str_false_not_in, E2.
    + right. apply mem_str_false_not_in, E4.
    + apply orb_prop in E5. destruct E5 as [E5 | E5].
      * apply andb_prop in E5. destruct E5 as [E6 E7]. left. split.
        -- intros Hc. rewrite Hc in E6. discriminate.
        -- apply mem_str_true_in, E7.
      * right. split; [exact Ef | apply mem_str_true_in, E5].
    + apply nearest_operator_range.
Qed.

(** Every hit obeys the configuration: its literal, with or without its
    sign, is not an ignored literal; its enclosing function is not an
    ignored function; it stands next to a risky operator or inside a risky
    function; the literal is the text of the blanked formula between [start]
    and [end], with no letter and no [$] on either side; and the operator
    recorded is one of [*], [/], [+], [-] or empty. *)
Theorem hits_obey_configuration (formula : string) (cfg : Config) (h : ConstantHit) :
  In h (detect_hardcoded_constants formula (Some cfg)) ->
  let s := _strip_quoted_segments (chars formula) in
  literal h = str (slice s (start h) (end_ h))
  /\ _looks_like_cell_ref_near s (start h) (end_ h) = false
  /\ ~ In (literal h) (ignore_literals cfg)
  /\ ~ In (str (lstrip_with is_sign (chars (literal h)))) (ignore_literals cfg)
  /\ (function_ h = "" \/ ~ In (function_ h) (map upper (ignore_functions cfg)))
  /\ ((operator h <> "" /\ In (operator h) (effective_operators cfg))
      \/ (function_ h <> ""
          /\ In (function_ h) (map upper (risky_functions cfg))))
  /\ In (operator h) [""; "*"; "/"; "+"; "-"].
Proof.
  unfold detect_hardcoded_constants. intros H.
  destruct (String.eqb formula ""); [destruct H|].
  apply filter_map_in in H. destruct H as [m [_ Hm]].
  exact (scan_literal_sound _ _ _ _ _ m h Hm).
Qed.

(** With the default configuration every hit stands next to [*] or [/]:
    no literal is flagged for a [+] or a [-], or for the function around
    it. *)
Theorem default_hits_are_products (formula : string) (h : ConstantHit) :
  In h (detect_hardcoded_constants formula None) ->
  operator h = "*" \/ operator h = "/".
Proof.
  unfold detect_hardcoded_constants. intros H.
  destruct (String.eqb formula ""); [destruct H|].
  apply filter_map_in in H. destruct H as [m [_ Hm]].
  destruct (scan_literal_sound _ _ _ _ _ m h Hm)
    as [_ [_ [_ [_ [_ [[[_ Ho] | [_ Hf]] _]]]]]].
  - simpl in Ho. destruct Ho as [Ho | [Ho | []]]; [left | right]; symmetry; exact Ho.
  - destruct Hf.
Qed.

Lemma hits_obey_configuration_witness :
  let cfg := mkConfig ["365"] ["round"] ["+"] ["npv"] in
  let h := mkHit "0.08" (8 # 100) "" "NPV" 5 9 in
  let s := _strip_quoted_segments (chars "=NPV(0.08, A1:A5)/365") in
  literal h = str (slice s (start h) (end_ h))
  /\ _looks_like_cell_ref_near s (start h) (end_ h) = false
  /\ ~ In (literal h) (ignore_literals cfg)
  /\ ~ In (str (lstrip_with is_sign (chars (literal h)))) (ignore_literals cfg)
  /\ (function_ h = "" \/ ~ In (function_ h) (map upper (ignore_functions cfg)))
  /\ ((operator h <> "" /\ In (operator h) (effective_operators cfg))
      \/ (function_ h <> ""
          /\ In (function_ h) (map upper (risky_functions cfg))))
  /\ In (operator h) [""; "*"; "/"; "+"; "-"].
Proof.
  apply (hits_obey_configuration "=NPV(0.08, A1:A5)/365"
           (mkConfig ["365"] ["round"] ["+"] ["npv"])
           (mkHit "0.08" (8 # 100) "" "NPV" 5 9)).
  vm_compute. left. reflexivity.
Defined.

Lemma default_hits_are_products_witness :
  operator (mkHit "1.05" (105 # 100) "*" "" 4 8) = "*"
  \/ operator (mkHit "1.05" (105 # 100) "*" "" 4 8) = "/".
Proof.
  apply (default_hits_are_products "=A1*1.05" (mkHit "1.05" (105 # 100) "*" "" 4 8)).
  vm_compute. left. reflexivity.
Defined.

End ConstantsMore.

(** ** More on formula drift *)

Module DriftMore.
Import Py Re Drift Notions Invariants DriftFacts.

(** *** The cap *)

Lemma scan_items_capped (sheet : string) (r : Z) (dom : string) (mf : Z)
      (items : list item) :
  forall fs,
    (Z.of_nat (List.length fs) < Z.max 1 mf)%Z ->
    (Z.of_nat (List.length (fst (scan_items sheet r dom mf items fs)))
     <= Z.max 1 mf)%Z
    /\ (snd (scan_items sheet r dom mf items fs) = false ->
        (Z.of_nat (List.length (fst (scan_items sheet r dom mf items fs)))
         < Z.max 1 mf)%Z).
Proof.
  induction items as [|[[a f] sh] items IH]; intros fs Hfs; simpl.
  - split; [lia | intros _; exact Hfs].
  - destruct (String.eqb sh dom); [apply IH, Hfs|].
    rewrite length_app. simpl.
    destruct (Z.geb_spec (Z.of_nat (List.length fs + 1)) mf) as [Hge | Hlt]; simpl.
    + rewrite length_app. simpl. split; [lia | discriminate].
    + apply IH. rewrite length_app. simpl. lia.
Qed.

Lemma scan_rows_capped (sheet : string) (mg : Z) (dr : Q) (mf : Z)
      (rows : list (Z * list item)) :
  forall fs,
    (Z.of_nat (List.length fs) < Z.max 1 mf)%Z ->
    (Z.of_nat (List.length (fst (scan_rows sheet mg dr mf rows fs)))
     <= Z.max 1 mf)%Z
    /\ (snd (scan_rows sheet mg dr mf rows fs) = false ->
        (Z.of_nat (List.length (fst (scan_rows sheet mg dr mf rows fs)))
         < Z.max 1 mf)%Z).
Proof.
  induction rows as [|[r items] rows IH]; intros fs Hfs; simpl.
  - split; [lia | intros _; exact Hfs].
  - destruct (Z.of_nat (List.length items) <? mg)%Z; [apply IH, Hfs|].
    destruct (most_common_1 (Counter (map shape_of items))) as [[dom n]|];
      [|simpl; split; [lia | intros _; exact Hfs]].
    destruct (below_ratio n (List.length items) dr); [apply IH, Hfs|].
    destruct (scan_items_capped sheet r dom mf items fs Hfs) as [H1 H2].
    destruct (scan_items sheet r dom mf items fs) as [fs' [|]]; simpl in *.
    + split; [exact H1 | discriminate].
    + apply IH, H2. reflexivity.
Qed.

Lemma scan_sheets_capped (mg : Z) (dr : Q) (mf : Z)
      (sheets : list (string * list (string * string))) :
  forall fs,
    (Z.of_nat (List.length fs) < Z.max 1 mf)%Z ->
    (Z.of_nat (List.length (scan_sheets mg dr mf sheets fs)) <= Z.max 1 mf)%Z.
Proof.
  induction sheets as [|[sheet cells] sheets IH]; intros fs Hfs; simpl; [lia|].
  destruct (scan_rows_capped sheet mg dr mf (build_rows cells []) fs Hfs)
    as [H1 H2].
  destruct (scan_rows sheet mg dr mf (build_rows cells []) fs) as [fs' [|]];
    simpl in *; [exact H1 | apply IH, H2; reflexivity].
Qed.

(** The number of findings never exceeds the configured cap, 50 when none
    is configured; a cap of zero or less still lets one finding through. *)
Theorem drift_findings_capped
        (sheets : list (string * list (string * string))) (cfg : Config) :
  (Z.of_nat (List.length (detect_formula_drift sheets (Some cfg)))
   <= Z.max 1 (drift_cap cfg))%Z
  /\ List.length (detect_formula_drift sheets None) <= 50.
Proof.
  split.
  - unfold detect_formula_drift, drift_cap.
    destruct (negb match enabled cfg with Some b => b | None => true end);
      [simpl; lia|].
    apply scan_sheets_capped. simpl. lia.
  - unfold detect_formula_drift. simpl.
    pose proof (scan_sheets_capped 6 (3 # 5) 50 sheets []) as H.
    simpl in H. lia.
Qed.

(** *** Where findings come from *)

Lemma rows_append_from (cells : list (string * string)) (r : Z) (x : item)
      (rows : list (Z * list item)) :
  item_from cells r x -> rows_from cells rows ->
  rows_from cells (rows_append r x rows).
Proof.
  intros Hx. induction rows as [|[r' xs] rows IH]; intros Hrows r0 items it Hin Hit;
    simpl in Hin.
  - destruct Hin as [Heq | []]. injection Heq as <- <-.
    destruct Hit as [<- | []]. exact Hx.
  - destruct (Z.eqb_spec r' r) as [-> | Hne].
    + destruct Hin as [Heq | Hin].
      * injection Heq as <- <-. apply in_app_or in Hit.
        destruct Hit as [Hit | [<- | []]]; [|exact Hx].
        apply (Hrows r xs it); [left; reflexivity | exact Hit].
      * apply (Hrows r0 items it); [right; exact Hin | exact Hit].
    + destruct Hin as [Heq | Hin].
      * injection Heq as <- <-.
        apply (Hrows r' xs it); [left; reflexivity | exact Hit].
      * apply (IH (fun a b c H1 H2 => Hrows a b c (or_intror H1) H2)
                 r0 items it Hin Hit).
Qed.

Lemma build_rows_from (all cells : list (string * string)) :
  forall rows,
    incl cells all -> rows_from all rows -> rows_from all (build_rows cells rows).
Proof.
  induction cells as [|[a f] cells IH]; intros rows Hincl Hrows; simpl;
    [exact Hrows|].
  assert (Hc : incl cells all) by (intros y Hy; apply Hincl; right; exact Hy).
  destruct (row_of a) as [r|] eqn:Er; [|apply IH; assumption].
  destruct (String.eqb_spec (normalize_formula f) "") as [_ | Hne];
    [apply IH; assumption|].
  apply IH; [exact Hc|]. apply rows_append_from; [|exact Hrows].
  simpl. repeat split; [apply Hincl; left; reflexivity | exact Er | exact Hne].
Qed.

Lemma scan_items_sound (sheets : list (string * list (string * string)))
      (sheet : string) (cells : list (string * string)) (r : Z) (dom : string)
      (mf : Z) (items : list item) :
  In (sheet, cells) sheets ->
  (forall it, In it items -> item_from cells r it) ->
  forall fs,
    Forall (finding_sound sheets) fs ->
    Forall (finding_sound sheets) (fst (scan_items sheet r dom mf items fs)).
Proof.
  intros Hsheet. induction items as [|[[a f] sh] items IH]; intros Hit fs Hfs;
    simpl; [exact Hfs|].
  assert (Hrest : forall it, In it items -> item_from cells r it).
  { intros it H. apply Hit. right. exact H. }
  destruct (String.eqb_spec sh dom) as [_ | Hne]; [apply IH; assumption|].
  assert (Hnew : Forall (finding_sound sheets)
                   (fs ++ [mkFinding sheet a f dom sh r "row" drift_note])).
  { apply Forall_app. split; [exact Hfs|]. constructor; [|constructor].
    destruct (Hit (a, f, sh) (or_introl eq_refl)) as [H1 [H2 [H3 H4]]].
    unfold finding_sound. simpl. repeat split; try assumption.
    exists cells. split; assumption. }
  destruct (Z.of_nat (List.length (fs ++ [_])) >=? mf)%Z; simpl;
    [exact Hnew | apply IH; assumption].
Qed.

Lemma scan_rows_sound (sheets : list (string * list (string * string)))
      (sheet : string) (cells : list (string * string)) (mg : Z) (dr : Q)
      (mf : Z) (rows : list (Z * list item)) :
  In (sheet, cells) sheets -> rows_from cells rows ->
  forall fs,
    Forall (finding_sound sheets) fs ->
    Forall (finding_sound sheets) (fst (scan_rows sheet mg dr mf rows fs)).
Proof.
  intros Hsheet. induction rows as [|[r items] rows IH]; intros Hrows fs Hfs;
    simpl; [exact Hfs|].
  assert (Hrest : rows_from cells rows).
  { intros a b c H1 H2. apply (Hrows a b c); [right; exact H1 | exact H2]. }
  destruct (Z.of_nat (List.length items) <? mg)%Z; [apply IH; assumption|].
  destruct (most_common_1 (Counter (map shape_of items))) as [[dom n]|];
    [|exact Hfs].
  destruct (below_ratio n (List.length items) dr); [apply IH; assumption|].
  pose proof (scan_items_sound sheets sheet cells r dom mf items Hsheet
                (fun it H => Hrows r items it (or_introl eq_refl) H) fs Hfs) as H.
  destruct (scan_items sheet r dom mf items fs) as [fs' [|]]; simpl in *;
    [exact H | apply IH; assumption].
Qed.

Lemma scan_sheets_sound (all : list (string * list (string * string)))
      (mg : Z) (dr : Q) (mf : Z)
      (sheets : list (string * list (string * string))) :
  incl sheets all ->
  forall fs,
    Forall (finding_sound all) fs ->
    Forall (finding_sound all) (scan_sheets mg dr mf sheets fs).
Proof.
  induction sheets as [|[sheet cells] sheets IH]; intros Hincl fs Hfs; simpl;
    [exact Hfs|].
  pose proof (scan_rows_sound all sheet cells mg dr mf (build_rows cells [])
                (Hincl _ (or_introl eq_refl))
                (build_rows_from cells cells [] (incl_refl _)
                   (fun a b c H => match H with end)) fs Hfs) as H.
  destruct (scan_rows sheet mg dr mf (build_rows cells []) fs) as [fs' [|]];
    simpl in *; [exact H|].
  apply IH; [|exact H]. intros y Hy. apply Hincl. right. exact Hy.
Qed.

(** Every finding points at a cell of the input: its sheet, address and
    formula are a cell that was passed in, the row is the one of the
    address, the shape reported for the cell is the shape of its formula,
    and that shape differs from the dominant shape reported with it. *)
Theorem drift_findings_sound
        (sheets : list (string * list (string * string))) (cfg : option Config) :
  Forall (finding_sound sheets) (detect_formula_drift sheets cfg).
Proof.
  unfold detect_formula_drift.
  destruct (negb _); [constructor|].
  apply scan_sheets_sound; [apply incl_refl | constructor].
Qed.

(** *** Rows of one shape *)

Lemma counter_uniform (X : string) (shapes : list string) :
  (forall s, In s shapes -> s = X) ->
  forall n, fold_left (fun c x => count_add x c) shapes [(X, n)]
            = [(X, n + List.length shapes)].
Proof.
  induction shapes as [|s shapes IH]; intros H n; simpl.
  - rewrite Nat.add_0_r. reflexivity.
  - rewrite (H s (or_introl eq_refl)), String.eqb_refl.
    rewrite IH by (intros y Hy; apply H; right; exact Hy).
    f_equal. f_equal. lia.
Qed.

Lemma scan_items_uniform (sheet : string) (r : Z) (X : string) (mf : Z)
      (items : list item) (fs : list Finding) :
  (forall it, In it items -> shape_of it = X) ->
  scan_items sheet r X mf items fs = (fs, false).
Proof.
  induction items as [|[[a f] sh] items IH]; intros H; simpl; [reflexivity|].
  pose proof (H (a, f, sh) (or_introl eq_refl)) as Hs. simpl in Hs. subst sh.
  rewrite String.eqb_refl. apply IH. intros it Hit. apply H. right. exact Hit.
Qed.

Lemma scan_rows_uniform (cells : list (string * string)) (sheet : string)
      (mg : Z) (dr : Q) (mf : Z) (rows : list (Z * list item))
      (fs : list Finding) :
  rows_uniform cells -> rows_from cells rows ->
  scan_rows sheet mg dr mf rows fs = (fs, false).
Proof.
  intros Hu. induction rows as [|[r items] rows IH]; intros Hrows;
    cbn [scan_rows]; [reflexivity|].
  assert (Hrest : rows_from cells rows).
  { intros a b c H1 H2. apply (Hrows a b c); [right; exact H1 | exact H2]. }
  destruct (Z.of_nat (List.length items) <? mg)%Z; [apply IH, Hrest|].
  destruct items as [|[[a0 f0] s0] items]; [reflexivity|].
  assert (Hall : forall it, In it ((a0, f0, s0) :: items) -> shape_of it = s0).
  { intros [[a f] sh] Hit. simpl.
    destruct (Hrows r _ _ (or_introl eq_refl) Hit) as [H1 [H2 [H3 _]]].
    destruct (Hrows r _ (a0, f0, s0) (or_introl eq_refl) (or_introl eq_refl))
      as [H1' [H2' [H3' _]]].
    rewrite H3, H3'. apply (Hu a f a0 f0 r); assumption. }
  assert (HC : Counter (map shape_of ((a0, f0, s0) :: items))
               = [(s0, 1 + List.length items)]).
  { unfold Counter. simpl. rewrite counter_uniform.
    - rewrite length_map. reflexivity.
    - intros s Hs. apply in_map_iff in Hs. destruct Hs as [it [<- Hit]].
      apply Hall. right. exact Hit. }
  match goal with
  | |- context [most_common_1 ?c] =>
      replace c with [(s0, 1 + List.length items)] by (symmetry; exact HC)
  end.
  simpl most_common_1. cbv beta iota.
  match goal with
  | |- context [below_ratio ?a ?b dr] => destruct (below_ratio a b dr)
  end; [apply IH, Hrest|].
  match goal with
  | |- context [scan_items sheet r s0 mf ?l fs] =>
      replace (scan_items sheet r s0 mf l fs) with (fs, false)
        by (symmetry; apply scan_items_uniform; exact Hall)
  end.
  apply IH, Hrest.
Qed.

(** A workbook in which the formulas of every row of every sheet have one
    shape gives no finding, whatever the configuration. *)
Theorem uniform_rows_give_no_finding
        (sheets : list (string * list (string * string))) (cfg : option Config) :
  (forall sheet cells, In (sheet, cells) sheets -> rows_uniform cells) ->
  detect_formula_drift sheets cfg = [].
Proof.
  intros H. unfold detect_formula_drift. destruct (negb _); [reflexivity|].
  generalize (int_or (min_row_formula_count
                        match cfg with Some c => c | None => empty_config end) 6).
  generalize (float_or (dominant_ratio
                          match cfg with Some c => c | None => empty_config end)
                (3 # 5)).
  generalize (int_or (max_findings
                        match cfg with Some c => c | None => empty_config end) 50).
  intros mf dr mg. induction sheets as [|[sheet cells] sheets IH]; simpl;
    [reflexivity|].
  rewrite (scan_rows_uniform cells sheet mg dr mf (build_rows cells []) []).
  - apply IH. intros s c Hin. apply (H s c). right. exact Hin.
  - apply (H sheet cells). left. reflexivity.
  - apply build_rows_from; [apply incl_refl | intros a b c []].
Qed.

Lemma uniform_rows_give_no_finding_witness :
  detect_formula_drift
    [("Sheet1", [("A3", "=A1+A2"); ("B3", "=B1+B2"); ("C3", "=C1+C2");
                 ("D3", "=D1+D2"); ("E3", "=E1+E2"); ("F3", "= F1 + F2");
                 ("A4", "=A3*2")])] None
  = [].
Proof.
  apply (uniform_rows_give_no_finding
           [("Sheet1", [("A3", "=A1+A2"); ("B3", "=B1+B2"); ("C3", "=C1+C2");
                        ("D3", "=D1+D2"); ("E3", "=E1+E2"); ("F3", "= F1 + F2");
                        ("A4", "=A3*2")])] None).
  intros sheet cells [H | []]. injection H as <- <-.
  intros a f a' f' r Ha Ha'. simpl in Ha, Ha'.
  repeat (destruct Ha as [Ha | Ha]; [injection Ha as <- <- |]); try destruct Ha;
    repeat (destruct Ha' as [Ha' | Ha']; [injection Ha' as <- <- |]);
    try destruct Ha'; vm_compute; intros H1 H2; try reflexivity;
    rewrite <- H1 in H2; discriminate H2.
Defined.

End DriftMore.

(** ** Configuration lookup, cell references, trial settings, tiers *)

Module MainMoreFacts.
Import Py Nx Main MainMore Notions Invariants TierFacts.

Lemma chars_app (a b : string) : chars (a ++ b)%string = chars a ++ chars b.
Proof.
  unfold chars. induction a as [|c a IH]; simpl; [reflexivity|].
  rewrite IH. reflexivity.
Qed.

Lemma str_chars (s : string) : str (chars s) = s.
Proof. apply string_of_list_ascii_of_string. Qed.

Lemma split_dot_last (k : list ascii) :
  forall acc,
    existsb (Ascii.eqb ".") k = false ->
    split_dot acc k = [str (rev acc ++ k)].
Proof.
  induction k as [|c k IH]; intros acc H.
  - cbn [split_dot]. rewrite app_nil_r. reflexivity.
  - cbn [existsb] in H. apply orb_false_elim in H. destruct H as [Hc Hk].
    cbn [split_dot]. rewrite (Ascii.eqb_sym c "."), Hc.
    rewrite (IH (c :: acc) Hk). cbn [rev]. rewrite <- app_assoc. reflexivity.
Qed.

Lemma split_dot_key (k : list ascii) :
  forall acc rest,
    existsb (Ascii.eqb ".") k = false ->
    split_dot acc (k ++ "."%char :: rest)
    = str (rev acc ++ k) :: split_dot [] rest.
Proof.
  induction k as [|c k IH]; intros acc rest H.
  - cbn [app split_dot]. rewrite Ascii.eqb_refl, app_nil_r. reflexivity.
  - cbn [existsb] in H. apply orb_false_elim in H. destruct H as [Hc Hk].
    cbn [app split_dot]. rewrite (Ascii.eqb_sym c "."), Hc.
    rewrite (IH (c :: acc) rest Hk). cbn [rev]. rewrite <- app_assoc.
    reflexivity.
Qed.

Lemma split_dot_join (keys : list string) :
  keys <> [] ->
  (forall k, In k keys -> has_dot k = false) ->
  split_dot [] (chars (join "." keys)) = keys.
Proof.
  induction keys as [|k keys IH]; intros Hne Hk; [contradiction|].
  destruct keys as [|k2 keys].
  - simpl. rewrite split_dot_last by (apply Hk; left; reflexivity).
    simpl. rewrite str_chars. reflexivity.
  - change (join "." (k :: k2 :: keys))
      with (k ++ "." ++ join "." (k2 :: keys))%string.
    rewrite !chars_app. change (chars ".") with ["."%char]. simpl app.
    rewrite split_dot_key by (apply Hk; left; reflexivity).
    simpl rev. simpl app. rewrite str_chars. f_equal.
    apply IH; [discriminate|]. intros x Hx. apply Hk. right. exact Hx.
Qed.

Lemma walk_nest (keys : list string) (v d : value) :
  walk (nest keys v) keys d = v.
Proof.
  induction keys as [|k keys IH]; simpl; [reflexivity|].
  rewrite String.eqb_refl. exact IH.
Qed.

Lemma walk_nest_beyond (keys more : list string) (v d : value) :
  more <> [] -> is_dict v = false ->
  walk (nest keys v) (keys ++ more) d = d.
Proof.
  intros Hm Hv. induction keys as [|k keys IH]; simpl.
  - destruct more as [|m more]; [contradiction|]. simpl.
    destruct v; try reflexivity. discriminate.
  - rewrite String.eqb_refl. exact IH.
Qed.

(** A value stored under nested keys is found again by the dotted path of
    those keys, and a path that goes on below a value that is not a mapping
    gives the default.  The keys hold no dot. *)
Theorem cfg_get_finds_nested_value
        (keys : list string) (v d : value) :
  keys <> [] ->
  (forall k, In k keys -> has_dot k = false) ->
  join "." keys <> "" ->
  _cfg_get (nest keys v) (join "." keys) d = v
  /\ forall more,
       more <> [] -> (forall k, In k more -> has_dot k = false) ->
       is_dict v = false ->
       _cfg_get (nest keys v) (join "." (keys ++ more)) d = d.
Proof.
  intros Hne Hk Hp. split.
  - unfold _cfg_get. destruct (String.eqb_spec (join "." keys) ""); [contradiction|].
    rewrite (split_dot_join keys Hne Hk). apply walk_nest.
  - intros more Hm Hmk Hv. unfold _cfg_get.
    destruct (String.eqb (join "." (keys ++ more)) ""); [reflexivity|].
    rewrite split_dot_join.
    + apply walk_nest_beyond; assumption.
    + destruct keys; [contradiction | discriminate].
    + intros k Hin. apply in_app_or in Hin. destruct Hin; auto.
Qed.

Lemma cfg_get_finds_nested_value_witness :
  _cfg_get (nest ["app"; "reporting"; "risk_scoring"] (VInt 7))
    (join "." ["app"; "reporting"; "risk_scoring"]) VNone = VInt 7
  /\ forall more,
       more <> [] -> (forall k, In k more -> has_dot k = false) ->
       is_dict (VInt 7) = false ->
       _cfg_get (nest ["app"; "reporting"; "risk_scoring"] (VInt 7))
         (join "." (["app"; "reporting"; "risk_scoring"] ++ more)) VNone = VNone.
Proof.
  apply (cfg_get_finds_nested_value ["app"; "reporting"; "risk_scoring"]
           (VInt 7) VNone).
  - discriminate.
  - intros k [<- | [<- | [<- | []]]]; reflexivity.
  - vm_compute. discriminate.
Defined.

Lemma split_bang_sheet (sh : list ascii) :
  forall acc rest,
    existsb (Ascii.eqb "!") sh = false ->
    split_bang acc (sh ++ "!"%char :: rest) = Some (rev acc ++ sh, rest).
Proof.
  induction sh as [|c sh IH]; intros acc rest H.
  - cbn [app split_bang]. rewrite Ascii.eqb_refl, app_nil_r. reflexivity.
  - cbn [existsb] in H. apply orb_false_elim in H. destruct H as [Hc Hs].
    cbn [app split_bang]. rewrite (Ascii.eqb_sym c "!"), Hc.
    rewrite (IH (c :: acc) rest Hs). cbn [rev]. rewrite <- app_assoc.
    reflexivity.
Qed.

Lemma split_node_id (sheet addr : string) :
  has_bang sheet = false ->
  _split_cell_ref (Graph._node_id sheet addr) = (sheet, addr).
Proof.
  intros H. unfold _split_cell_ref, Graph._node_id.
  assert (Hne : String.eqb (sheet ++ "!" ++ addr) "" = false)
    by (destruct sheet; reflexivity).
  rewrite Hne, !chars_app. change (chars "!") with ["!"%char]. simpl app.
  rewrite (split_bang_sheet (chars sheet) [] (chars addr) H). simpl.
  rewrite !str_chars. reflexivity.
Qed.

(** Splitting a node identifier gives back the sheet and the address it was
    made of, for a sheet name without an exclamation mark. *)
Theorem split_cell_ref_undoes_node_id (sheet addr : string) :
  has_bang sheet = false ->
  _split_cell_ref (Graph._node_id sheet addr) = (sheet, addr).
Proof. exact (split_node_id sheet addr). Qed.

Lemma split_cell_ref_undoes_node_id_witness :
  _split_cell_ref (Graph._node_id "My Sheet" "A1:B5") = ("My Sheet", "A1:B5").
Proof.
  apply (split_cell_ref_undoes_node_id "My Sheet" "A1:B5"). reflexivity.
Defined.

(** The trial settings never give a formula limit below one, the flag of the
    caller switches the trial on whatever the configuration says, and an
    ["app"] or ["trial"] entry that is not a mapping counts as missing: the
    result is then the flag and a limit of 100. *)
Theorem trial_settings_limit_at_least_one
        (int_of_str : string -> option Z) (cfg : list (string * value))
        (trial_flag : bool) :
  (forall enabled limit,
      _trial_settings int_of_str cfg trial_flag = Ret (enabled, limit) ->
      (1 <= limit)%Z /\ (trial_flag = true -> enabled = true))
  /\ (section_of (section_of cfg "app") "trial" = [] ->
      _trial_settings int_of_str cfg trial_flag = Ret (trial_flag, 100%Z)).
Proof.
  split.
  - intros enabled limit. unfold _trial_settings.
    destruct (int_or int_of_str _ 100) as [z|e]; simpl; [|discriminate].
    intros H. injection H as <- <-. split; [lia|].
    intros ->. reflexivity.
  - intros H. unfold _trial_settings. rewrite H. simpl.
    rewrite orb_false_r. reflexivity.
Qed.

Lemma trial_settings_limit_at_least_one_witness :
  ((1 <= 1)%Z /\ (true = true -> true = true))
  /\ _trial_settings (fun _ => None) [("app", VDict [("trial", VStr "on")])] true
     = Ret (true, 100%Z).
Proof.
  split.
  - apply (proj1 (trial_settings_limit_at_least_one (fun _ => None)
                    [("app",
                      VDict [("trial", VDict [("formula_limit", VInt (-5))])])]
                    true) true 1%Z).
    vm_compute. reflexivity.
  - apply (proj2 (trial_settings_limit_at_least_one (fun _ => None)
                    [("app", VDict [("trial", VStr "on")])] true)).
    reflexivity.
Defined.

(** Without cycles the boolean rules never give ["HIGH"], and a scope with
    no signal and no top-risk cell is ["LOW"] with an empty reason.  The
    boolean rules apply when [thresholds] and [weights] are not both
    mappings. *)
Theorem boolean_rules_without_cycles
        (float_of_str : string -> option Q) (scope : string)
        (signals_map : list (string * Z)) (top_risk_cells : Z)
        (scoring_cfg : value) :
  overrides_is_mapping scoring_cfg ->
  is_dict (_cfg_get scoring_cfg (scope ++ ".thresholds")%string VNone)
  && is_dict (_cfg_get scoring_cfg (scope ++ ".weights")%string VNone) = false ->
  exists tier reason,
    _compute_risk_tier float_of_str scope signals_map false top_risk_cells
      scoring_cfg = Ret (tier, reason)
    /\ (tier = "MEDIUM" \/ tier = "LOW")
    /\ ((top_risk_cells <= 0)%Z ->
        (signal signals_map "volatile" <= 0)%Z ->
        (signal signals_map "symbolic" <= 0)%Z ->
        (signal signals_map "constants" <= 0)%Z ->
        (signal signals_map "orphans" <= 0)%Z ->
        tier = "LOW" /\ reason = "").
Proof.
  intros Hmap Hrules. rewrite compute_risk_tier_unfold.
  unfold overrides_is_mapping in Hmap.
  destruct (overrides_of scoring_cfg) as [| | | | | |ov]; try discriminate.
  cbn [get bind]. rewrite andb_false_r, Hrules.
  unfold fallback. rewrite !andb_false_r.
  eexists. eexists. split; [reflexivity|]. split.
  - match goal with |- context [if ?b then "MEDIUM" else "LOW"] => destruct b end;
      [left | right]; reflexivity.
  - intros H1 H2 H3 H4 H5. unfold reason_bit.
    destruct (Z.ltb_spec 0 top_risk_cells); [lia|].
    destruct (Z.ltb_spec 0 (signal signals_map "volatile")); [lia|].
    destruct (Z.ltb_spec 0 (signal signals_map "symbolic")); [lia|].
    destruct (Z.ltb_spec 0 (signal signals_map "constants")); [lia|].
    destruct (Z.ltb_spec 0 (signal signals_map "orphans")); [lia|].
    rewrite !andb_false_r. simpl. split; reflexivity.
Qed.

Lemma boolean_rules_without_cycles_witness :
  exists tier reason,
    _compute_risk_tier (fun _ => None) "sheet" [("volatile", 0%Z)] false 0
      (VDict [("sheet", VDict [("weights", VDict [("cycles", VInt 9)])])])
    = Ret (tier, reason)
    /\ (tier = "MEDIUM" \/ tier = "LOW")
    /\ ((0 <= 0)%Z ->
        (signal [("volatile", 0%Z)] "volatile" <= 0)%Z ->
        (signal [("volatile", 0%Z)] "symbolic" <= 0)%Z ->
        (signal [("volatile", 0%Z)] "constants" <= 0)%Z ->
        (signal [("volatile", 0%Z)] "orphans" <= 0)%Z ->
        tier = "LOW" /\ reason = "").
Proof.
  apply (boolean_rules_without_cycles (fun _ => None) "sheet"
           [("volatile", 0%Z)] 0
           (VDict [("sheet", VDict [("weights", VDict [("cycles", VInt 9)])])])).
  - reflexivity.
  - reflexivity.
Defined.

End MainMoreFacts.

(** ** Tiers of the sheets and of the workbook *)

Module AggregateFacts.
Import Py Nx Graph Main MainMore Aggregate Notions Invariants NxFacts TierFacts
       MainMoreFacts.






Section Tiers.
Variable float_of_str : string -> option Q.





End Tiers.



End AggregateFacts.

(** ** Orphan formulas *)

Module OrphanFacts.
Import Py Nx Graph Main MainMore Orphans Notions Invariants NxFacts GraphShape
       MainMoreFacts.

Lemma str_app (a b : list ascii) : str (a ++ b) = (str a ++ str b)%string.
Proof.
  unfold str. induction a as [|c a IH]; simpl; [reflexivity|].
  rewrite IH. reflexivity.
Qed.

Lemma split_bang_parts (l : list ascii) :
  forall acc a b,
    split_bang acc l = Some (a, b) -> rev acc ++ l = a ++ "!"%char :: b.
Proof.
  induction l as [|c l IH]; intros acc a b H; [discriminate|].
  cbn [split_bang] in H. destruct (Ascii.eqb_spec c "!") as [-> | _].
  - injection H as <- <-. reflexivity.
  - apply IH in H. cbn [rev] in H. rewrite <- app_assoc in H. exact H.
Qed.

(** A reference with a sheet part is the node identifier of its parts. *)
Lemma split_cell_ref_parts (node sh addr : string) :
  _split_cell_ref node = (sh, addr) -> sh <> "" -> node = _node_id sh addr.
Proof.
  unfold _split_cell_ref. destruct (String.eqb node "").
  - intros H. injection H as <- <-. contradiction.
  - destruct (split_bang [] (chars node)) as [[a b]|] eqn:E.
    + intros H _. injection H as <- <-.
      apply split_bang_parts in E. simpl in E.
      rewrite <- (str_chars node), E, str_app. reflexivity.
    + intros H. injection H as <- <-. contradiction.
Qed.

Section Detector.
Variable coordinate_from_string : option (string -> option (string * Z)).
Variable column_index_from_string : option (string -> option Z).

Lemma scan_capped (g : DiGraph) (fns : list string) (cfg : Config)
      (fbn : list (string * string)) (smax : list (string * (Z * Z)))
      (named : list string) (mf : Z) (todo : list string) :
  forall out,
    (Z.of_nat (List.length out) <= Z.max 0 mf)%Z ->
    (Z.of_nat
       (List.length
          (scan coordinate_from_string column_index_from_string g fns cfg fbn
             smax named mf todo out))
     <= Z.max 0 mf)%Z.
Proof.
  induction todo as [|node todo IH]; intros out Hout; cbn [scan]; [exact Hout|].
  destruct (Z.geb_spec (Z.of_nat (List.length out)) mf) as [_ | Hlt]; [exact Hout|].
  destruct (skipped _ _ g fns cfg smax named node); [apply IH, Hout|].
  destruct (_split_cell_ref node) as [sh addr].
  apply IH. rewrite length_app. simpl. lia.
Qed.

(** The number of orphan findings never exceeds the configured cap, 200 when
    none is configured; a cap below one gives no finding at all. *)
Theorem orphan_findings_capped
        (g : DiGraph) (formula_nodes : list string) (cfg : Config)
        (formula_by_node : option (list (string * string)))
        (sheet_max_rc : option (list (string * (Z * Z))))
        (named_cells : option (list string)) :
  (Z.of_nat
     (List.length
        (detect_orphan_formulas coordinate_from_string column_index_from_string
           g formula_nodes (Some cfg) formula_by_node sheet_max_rc named_cells))
   <= Z.max 0 (Drift.int_or (max_findings cfg) 200))%Z
  /\ List.length
       (detect_orphan_formulas coordinate_from_string column_index_from_string
          g formula_nodes None formula_by_node sheet_max_rc named_cells)
     <= 200.
Proof.
  split.
  - unfold detect_orphan_formulas.
    destruct (negb (flag (enabled cfg) true)); [simpl; lia|].
    apply scan_capped. simpl. lia.
  - unfold detect_orphan_formulas. cbn [empty_config enabled flag negb].
    pose proof (scan_capped g formula_nodes empty_config
                  (match formula_by_node with Some x => x | None => [] end)
                  (match sheet_max_rc with Some x => x | None => [] end)
                  (match named_cells with Some x => x | None => [] end)
                  200 formula_nodes []) as H.
    change (Drift.int_or (max_findings empty_config) 200) with 200%Z.
    simpl in H. lia.
Qed.

Lemma used_by_formula_false (g : DiGraph) (fns : list string) (node u : string) :
  used_by_formula g fns node = false ->
  has_node g node = true -> In u fns -> has_edge g u node = false.
Proof.
  unfold used_by_formula, predecessors. intros H Hn Hu. rewrite Hn in H.
  destruct (has_edge g u node) eqn:E; [|reflexivity].
  assert (Hc : existsb (fun p => mem_str p fns)
                 (filter (fun u => has_edge g u node) (nodes g)) = true).
  { apply existsb_exists. exists u. split.
    - apply filter_In. split; [|exact E].
      apply has_node_in. apply (has_edge_has_node g u node E).
    - apply mem_str_in, Hu. }
  rewrite Hc in H. discriminate.
Qed.

Lemma scan_sound (g : DiGraph) (fns : list string) (cfg : Config)
      (fbn : list (string * string)) (smax : list (string * (Z * Z)))
      (named : list string) (mf : Z) (todo : list string) :
  incl todo fns ->
  forall out,
    Forall (orphan_sound g fns cfg named) out ->
    Forall (orphan_sound g fns cfg named)
      (scan coordinate_from_string column_index_from_string g fns cfg fbn smax
         named mf todo out).
Proof.
  induction todo as [|node todo IH]; intros Hincl out Hout; cbn [scan];
    [exact Hout|].
  assert (Hrest : incl todo fns) by (intros y Hy; apply Hincl; right; exact Hy).
  destruct (Z.of_nat (List.length out) >=? mf)%Z; [exact Hout|].
  destruct (skipped _ _ g fns cfg smax named node) eqn:Es; [apply IH; assumption|].
  unfold skipped in Es.
  destruct (_split_cell_ref node) as [sh addr] eqn:Esplit.
  apply IH; [exact Hrest|]. apply Forall_app. split; [exact Hout|].
  constructor; [|constructor].
  apply orb_false_elim in Es. destruct Es as [Es Hused].
  apply orb_false_elim in Es. destruct Es as [Es _].
  apply orb_false_elim in Es. destruct Es as [Es Hnamed].
  apply orb_false_elim in Es. destruct Es as [Hsh Hex].
  assert (Hne : sh <> "") by (intros ->; discriminate Hsh).
  pose proof (split_cell_ref_parts node sh addr Esplit Hne) as Hnode.
  unfold orphan_sound. cbn [sheet cell reason]. rewrite <- Hnode.
  split; [apply Hincl; left; reflexivity|].
  split; [exact Hne|].
  split; [intros Hin; apply mem_str_in in Hin; rewrite Hin in Hex; discriminate|].
  split.
  - intros Hflag Hin. rewrite Hflag in Hnamed. apply mem_str_in in Hin.
    rewrite Hin in Hnamed. discriminate.
  - split; [|reflexivity]. intros u Hn Hu.
    apply (used_by_formula_false g fns node u Hused Hn Hu).
Qed.

(** Every orphan finding names a formula node: the node of its sheet and
    cell is in [formula_nodes], its sheet is not empty and not excluded, the
    node is not a named cell when named ranges are excluded, and, when the
    node is in the graph, no formula node has an edge to it, the node itself
    included. *)
Theorem orphan_findings_sound
        (g : DiGraph) (formula_nodes : list string) (cfg : Config)
        (formula_by_node : option (list (string * string)))
        (sheet_max_rc : option (list (string * (Z * Z))))
        (named_cells : option (list string)) :
  Forall (orphan_sound g formula_nodes cfg
            (match named_cells with Some x => x | None => [] end))
    (detect_orphan_formulas coordinate_from_string column_index_from_string
       g formula_nodes (Some cfg) formula_by_node sheet_max_rc named_cells).
Proof.
  unfold detect_orphan_formulas.
  destruct (negb (flag (enabled cfg) true)); [constructor|].
  apply scan_sound; [apply incl_refl | constructor].
Qed.
End Detector.

Example orphans_of_chain :
  detect_orphan_formulas None None Scenarios.chain
    ["Sheet1!B1"; "Sheet1!C1"; "Sheet1!D1"] None None None None
  = [mkOrphan "Sheet1" "D1" "" default_reason].
Proof. vm_compute. reflexivity. Qed.

End OrphanFacts.

(** ** What the reach counts *)

Module ReachSpec.
Import Py Nx Impact NxFacts Notions Invariants ReachFacts GraphShape ReachBounds.

Lemma visit_new_sets (ss : list string) :
  forall visited q,
    let r := visit_new ss visited q in
    incl visited (fst r) /\ incl q (snd r)
    /\ incl ss (fst r)
    /\ (forall x, In x (fst r) -> In x visited \/ (In x ss /\ In x (snd r)))
    /\ (forall x, In x (snd r) -> In x q \/ (In x ss /\ In x (fst r))).
Proof.
  induction ss as [|x ss IH]; intros visited q; cbn [visit_new].
  - cbn [fst snd]. repeat split; try apply incl_refl.
    + intros y [].
    + intros y Hy. left. exact Hy.
    + intros y Hy. left. exact Hy.
  - destruct (mem_str x visited) eqn:E.
    + destruct (IH visited q) as [H1 [H2 [H3 [H4 H5]]]].
      split; [exact H1|]. split; [exact H2|]. split; [|split].
      * intros y [<- | Hy]; [apply H1, mem_str_in, E | apply H3, Hy].
      * intros y Hy. destruct (H4 y Hy) as [H | [Ha Hb]];
          [left; exact H | right; split; [right; exact Ha | exact Hb]].
      * intros y Hy. destruct (H5 y Hy) as [H | [Ha Hb]];
          [left; exact H | right; split; [right; exact Ha | exact Hb]].
    + destruct (IH (visited ++ [x]) (q ++ [x])) as [H1 [H2 [H3 [H4 H5]]]].
      split; [|split; [|split; [|split]]].
      * intros y Hy. apply H1, in_or_app. left. exact Hy.
      * intros y Hy. apply H2, in_or_app. left. exact Hy.
      * intros y [<- | Hy]; [|apply H3, Hy].
        apply H1, in_or_app. right. left. reflexivity.
      * intros y Hy. destruct (H4 y Hy) as [H | [Ha Hb]].
        -- apply in_app_or in H. destruct H as [H | [<- | []]]; [left; exact H|].
           right. split; [left; reflexivity|].
           apply H2, in_or_app. right. left. reflexivity.
        -- right. split; [right; exact Ha | exact Hb].
      * intros y Hy. destruct (H5 y Hy) as [H | [Ha Hb]].
        -- apply in_app_or in H. destruct H as [H | [<- | []]]; [left; exact H|].
           right. split; [left; reflexivity|].
           apply H1, in_or_app. right. left. reflexivity.
        -- right. split; [right; exact Ha | exact Hb].
Qed.

(** One pass of the loop keeps the traversal sound. *)
Lemma visit_new_sound (g : DiGraph) (start node : string) (ss : list string)
      (visited q : list string) :
  lookup node g = Some ss -> incl ss (nodes g) ->
  traversal_sound g start visited (node :: q) ->
  traversal_sound g start (fst (visit_new ss visited q))
    (snd (visit_new ss visited q)).
Proof.
  intros Hl Hss [Hok [Hqv [Hreach Hclosed]]].
  destruct (visit_new_sets ss visited q) as [H1 [H2 [H3 [H4 H5]]]].
  assert (Hok' : traversal_ok g visited q).
  { destruct Hok as [Ha [Hb Hc]]. split; [exact Ha | split; [exact Hb|]].
    intros y Hy. apply Hc. right. exact Hy. }
  assert (Hnode : In node visited) by (apply Hqv; left; reflexivity).
  split; [apply (visit_new_ok g ss visited q Hss Hok')|].
  split; [|split].
  - intros y Hy. destruct (H5 y Hy) as [H | [_ H]]; [|exact H].
    apply H1, Hqv. right. exact H.
  - intros v Hv. destruct (H4 v Hv) as [H | [H _]]; [apply Hreach, H|].
    apply (reaches_more g start node v (Hreach node Hnode)).
    unfold has_edge. rewrite Hl. apply mem_str_in, H.
  - intros u v Hu Hnq He.
    destruct (H4 u Hu) as [H | [_ H]]; [|contradiction].
    destruct (String.eqb_spec u node) as [-> | Hne].
    + apply H3. unfold has_edge in He. rewrite Hl in He.
      apply mem_str_in, He.
    + apply H1. apply (Hclosed u v H); [|exact He].
      intros [Heq | Hin]; [apply Hne; symmetry; exact Heq | apply Hnq, H2, Hin].
Qed.

Lemma bfs_sound (g : DiGraph) (start : string) (max_nodes : Z) (fuel : nat) :
  well_formed g ->
  (Z.of_nat (List.length (nodes g)) < max_nodes)%Z ->
  forall visited q r,
    traversal_sound g start visited q ->
    bfs fuel g max_nodes visited q = Some r ->
    exists visited',
      r = Ret visited' /\ NoDup visited' /\ incl visited visited'
      /\ (forall v, In v visited' -> reaches g start v)
      /\ (forall u v, In u visited' -> has_edge g u v = true -> In v visited').
Proof.
  intros Hwf Hmax. induction fuel as [|fuel IH]; intros visited q r Hinv Hr;
    [discriminate|].
  cbn [bfs] in Hr. destruct q as [|node q].
  - injection Hr as <-. exists visited.
    destruct Hinv as [[Hnd _] [_ [Hreach Hclosed]]].
    split; [reflexivity|]. split; [exact Hnd|]. split; [apply incl_refl|].
    split; [exact Hreach|].
    intros u v Hu He. apply (Hclosed u v Hu); [intros [] | exact He].
  - pose proof Hinv as [[Hnd [Hv Hq]] _].
    pose proof (NoDup_incl_length Hnd Hv) as Hlen.
    destruct (Z.ltb_spec (Z.of_nat (List.length visited)) max_nodes) as [_ | Hge];
      [|lia].
    destruct (successors_of_node g node Hwf (Hq node (or_introl eq_refl)))
      as [ss [Hl [_ Hss]]].
    unfold successors in Hr. rewrite Hl in Hr.
    pose proof (visit_new_sound g start node ss visited q Hl Hss Hinv) as Hinv'.
    destruct (visit_new_sets ss visited q) as [H1 _].
    destruct (visit_new ss visited q) as [visited1 q1]. cbn [fst snd] in *.
    destruct (IH visited1 q1 r Hinv' Hr) as [v' [E [Ha [Hb [Hc Hd]]]]].
    exists v'. split; [exact E|]. split; [exact Ha|].
    split; [intros y Hy; apply Hb, H1, Hy|]. split; assumption.
Qed.

(** With a bound above the number of nodes, the count of [downstream_reach]
    is the number of nodes reached from [start] over one edge or more: on a
    well-formed graph, for a start node of the graph, the call returns the
    length of a list without repetition that holds exactly those nodes.
    [start] itself is counted exactly when a path leads back to it. *)
Theorem downstream_reach_counts_reachable
        (g : DiGraph) (start : string) (max_nodes : Z) :
  well_formed g -> has_node g start = true ->
  (Z.of_nat (List.length (nodes g)) < max_nodes)%Z ->
  exists visited,
    downstream_reach g start max_nodes = Some (Ret (List.length visited))
    /\ NoDup visited
    /\ forall v, In v visited <-> reaches g start v.
Proof.
  intros Hwf Hstart Hmax.
  destruct (successors_of_node g start Hwf (proj1 (has_node_in g start) Hstart))
    as [ss [Hl [Hnd Hss]]].
  pose proof (downstream_reach_terminates g start max_nodes) as Hterm.
  unfold downstream_reach, successors in *. rewrite Hl in *.
  rewrite (visit_all_nodup ss [] [] Hnd) in *. cbn [app] in *.
  destruct (bfs (bfs_fuel g start) g max_nodes ss ss) as [r|] eqn:E;
    [|contradiction Hterm; reflexivity].
  destruct (bfs_sound g start max_nodes (bfs_fuel g start) Hwf Hmax ss ss r)
    as [v' [-> [H1 [H2 [H3 H4]]]]]; [|exact E|].
  { split; [split; [exact Hnd | split; exact Hss]|].
    split; [apply incl_refl|]. split.
    - intros v Hv. apply reaches_edge. unfold has_edge. rewrite Hl.
      apply mem_str_in, Hv.
    - intros u v Hu Hnu. contradiction. }
  exists v'. split; [reflexivity|]. split; [exact H1|].
  intros v. split; [apply H3|].
  intros Hr. induction Hr as [v He | v w _ IH He].
  - apply H2. unfold has_edge in He. rewrite Hl in He. apply mem_str_in, He.
  - apply (H4 v w IH He).
Qed.

Lemma downstream_reach_counts_reachable_witness :
  exists visited,
    downstream_reach Scenarios.two_cycle "Sheet1!A1" default_max_nodes
    = Some (Ret (List.length visited))
    /\ NoDup visited
    /\ forall v, In v visited <-> reaches Scenarios.two_cycle "Sheet1!A1" v.
Proof.
  apply (downstream_reach_counts_reachable Scenarios.two_cycle "Sheet1!A1"
           default_max_nodes).
  - apply well_formedb_ok. reflexivity.
  - reflexivity.
  - reflexivity.
Defined.

End ReachSpec.

(** ** Volatile functions *)

Module VolatileFacts.
Import Py References Invariants TokenFacts MainMoreFacts OrphanFacts.

Lemma is_prefix_spec (n : list ascii) :
  forall h, is_prefix n h = true <-> exists post, h = n ++ post.
Proof.
  induction n as [|a n IH]; intros h; cbn [is_prefix].
  - split; [intros _; exists h; reflexivity | reflexivity].
  - destruct h as [|b h].
    + split; [discriminate | intros [post H]; discriminate].
    + rewrite andb_true_iff, IH. split.
      * intros [Hab [post ->]]. apply Ascii.eqb_eq in Hab. subst.
        exists post. reflexivity.
      * intros [post H]. injection H as -> ->.
        split; [apply Ascii.eqb_refl | exists post; reflexivity].
Qed.

Lemma find_sub_step (needle hay : list ascii) (fuel : nat) :
  find_sub needle hay (S fuel)
  = if is_prefix needle hay then true
    else match hay with
         | [] => false
         | _ :: t => find_sub needle t fuel
         end.
Proof. destruct hay; reflexivity. Qed.

(** The search finds [needle] exactly where it occurs. *)
Lemma find_sub_spec (needle : list ascii) :
  forall hay fuel,
    List.length hay < fuel ->
    (find_sub needle hay fuel = true
     <-> exists pre post, hay = pre ++ needle ++ post).
Proof.
  induction hay as [|b hay IH]; intros fuel Hlen;
    (destruct fuel as [|fuel]; [simpl in Hlen; lia|]);
    rewrite find_sub_step;
    destruct (is_prefix needle _) eqn:E.
  - apply is_prefix_spec in E. destruct E as [post E].
    split; [intros _; exists [], post; exact E | reflexivity].
  - split; [discriminate|]. intros [pre [post H]].
    destruct pre; [|discriminate]. cbn [app] in H.
    assert (Hp : is_prefix needle [] = true)
      by (apply is_prefix_spec; exists post; exact H).
    rewrite Hp in E. discriminate.
  - apply is_prefix_spec in E. destruct E as [post E].
    split; [intros _; exists [], post; exact E | reflexivity].
  - simpl in Hlen. rewrite (IH fuel) by lia. split.
    + intros [pre [post ->]]. exists (b :: pre), post. reflexivity.
    + intros [pre [post H]]. destruct pre as [|c pre].
      * cbn [app] in H.
        assert (Hp : is_prefix needle (b :: hay) = true)
          by (apply is_prefix_spec; exists post; exact H).
        rewrite Hp in E. discriminate.
      * injection H as _ ->. exists pre, post. reflexivity.
Qed.

Lemma length_chars (s : string) : List.length (chars s) = String.length s.
Proof.
  unfold chars. induction s as [|c s IH]; simpl; [reflexivity|].
  rewrite IH. reflexivity.
Qed.

Lemma chars_upper (s : string) : chars (upper s) = map upper_char (chars s).
Proof. unfold upper, chars, str. apply list_ascii_of_string_of_list_ascii. Qed.

Lemma chars_inj (a b : string) : chars a = chars b -> a = b.
Proof. intros H. rewrite <- (str_chars a), <- (str_chars b), H. reflexivity. Qed.

(** A call of [fn] is found in the upper-cased formula exactly when the
    formula holds, in any case, the name followed by a parenthesis. *)
Lemma contains_call_upper (formula fn : string) :
  contains_call (upper formula) fn = true
  <-> exists pre mid post,
        formula = (pre ++ mid ++ post)%string
        /\ upper mid = (fn ++ "(")%string.
Proof.
  unfold contains_call. rewrite find_sub_spec
    by (rewrite length_chars; apply Nat.lt_succ_diag_r).
  rewrite chars_upper. split.
  - intros [pre [post H]].
    apply map_eq_app in H. destruct H as [pre' [rest [Hf [_ Hrest]]]].
    apply map_eq_app in Hrest. destruct Hrest as [mid [post' [Hr [Hmid _]]]].
    exists (str pre'), (str mid), (str post'). split.
    + apply chars_inj. rewrite !chars_app. unfold chars at 2 3 4, str.
      rewrite !list_ascii_of_string_of_list_ascii, Hf, Hr. reflexivity.
    + apply chars_inj. rewrite chars_upper. unfold chars at 1, str.
      rewrite list_ascii_of_string_of_list_ascii. exact Hmid.
  - intros [pre [mid [post [-> Hmid]]]].
    exists (map upper_char (chars pre)), (map upper_char (chars post)).
    rewrite !chars_app, !map_app, <- (chars_upper mid), Hmid, !chars_app.
    reflexivity.
Qed.

(** On a formula of ASCII characters the detection does not see the case:
    a name is reported exactly when it is one of [_VOLATILE_FUNCS] and the
    formula holds it, in upper case, lower case or mixed, followed by an
    opening parenthesis; and upper-casing the formula first changes
    nothing.  [str.upper] maps the letters [a] to [z] and nothing else on
    these formulas. *)
Theorem detect_volatile_functions_any_case (formula fn : string) :
  is_ascii formula = true ->
  (In fn (detect_volatile_functions formula)
   <-> In fn volatile_names
       /\ exists pre mid post,
            formula = (pre ++ mid ++ post)%string
            /\ upper mid = (fn ++ "(")%string)
  /\ detect_volatile_functions (upper formula)
     = detect_volatile_functions formula.
Proof.
  intros _. split.
  - unfold detect_volatile_functions.
    destruct (String.eqb_spec formula "") as [-> | Hne].
    + split; [intros [] | intros [_ [pre [mid [post [H Hmid]]]]]].
      destruct pre; [|discriminate]. destruct mid; [|discriminate].
      destruct fn; discriminate.
    + rewrite filter_In, contains_call_upper. split.
      * intros [Hin H]. split; [|exact H].
        cbn [In] in Hin. unfold volatile_names. cbn [In]. tauto.
      * intros [Hin H]. split; [|exact H].
        unfold volatile_names in Hin. cbn [In] in Hin. cbn [In]. tauto.
  - unfold detect_volatile_functions. rewrite upper_empty, upper_idem.
    reflexivity.
Qed.

Lemma detect_volatile_functions_any_case_witness :
  (In "NOW" (detect_volatile_functions "=now()+Rand()")
   <-> In "NOW" volatile_names
       /\ exists pre mid post,
            "=now()+Rand()" = (pre ++ mid ++ post)%string
            /\ upper mid = ("NOW" ++ "(")%string)
  /\ detect_volatile_functions (upper "=now()+Rand()")
     = detect_volatile_functions "=now()+Rand()".
Proof.
  apply (detect_volatile_functions_any_case "=now()+Rand()" "NOW").
  reflexivity.
Defined.

Example volatile_mixed_case :
  detect_volatile_functions "=now()+Rand()" = ["NOW"; "RAND"].
Proof. vm_compute. reflexivity. Qed.

End VolatileFacts.
